(** * aqbs: the question-generation pipeline

    A shallow embedding of the generation pipeline of the repository:

    - [ExtractionService.chunk_text]            (backend/services/extraction_service.py)
    - [LLMService.generate_questions]           (ml/inference/llm_service.py)
    - [UploadService], [ExtractionService],
      [QuestionService.generate_questions_from_file],
      [QuestionService.get_generated_questions] (backend/services/)
    - the [/generate/{file_id}] route           (backend/api/routes/process.py)

    Python strings are sequences of code points, Python integers are [Z],
    exceptions are an explicit error result, and the database, the file
    system and the external collaborators (PDF converter, model provider,
    clock, JSON writer, pydantic model) are explicit state and oracles. *)

From Stdlib Require Import ZArith NArith List Ascii String Lia Bool DecimalString.
From stdpp Require Import base option list gmap.

Local Open Scope Z_scope.
Set Warnings "-register-all".

(** ** Python strings *)

Module Py.

(** A character is a Unicode code point; a [str] is a sequence of them. *)
Definition char := N.
Definition str := list N.

(** A string literal of the source, as a [str]. *)
Definition lit (s : string) : str :=
  List.map N_of_ascii (list_ascii_of_string s).

(** The same with every ['] of the literal read as a double quote, to
    write JSON text. *)
Definition jlit (s : string) : str :=
  List.map (fun c => if (c =? 39)%N then 34%N else c) (lit s).

Definition len (s : str) : Z := Z.of_nat (length s).

(** [c.isspace()] on one code point (the whitespace set of CPython's
    [Py_UNICODE_ISSPACE]), which is what [str.strip()] removes. *)
Definition isspace (c : N) : bool :=
  ((9 <=? c) && (c <=? 13) || (28 <=? c) && (c <=? 32)
   || (c =? 133) || (c =? 160) || (c =? 5760)
   || (8192 <=? c) && (c <=? 8202)
   || (c =? 8232) || (c =? 8233) || (c =? 8239) || (c =? 8287)
   || (c =? 12288))%N.

Fixpoint lstrip (s : str) : str :=
  match s with
  | c :: r => if isspace c then lstrip r else s
  | [] => []
  end.

(** Stripping on the right is stripping the reversed string on the left. *)
Definition rstrip (s : str) : str := reverse (lstrip (reverse s)).

(** [s.strip()] *)
Definition strip (s : str) : str := rstrip (lstrip s).

Definition str_eqb (a b : str) : bool := bool_decide (a = b).

(** [s.startswith(p)] *)
Fixpoint startswith (p s : str) : bool :=
  match p, s with
  | [], _ => true
  | a :: p', b :: s' => (a =? b)%N && startswith p' s'
  | _ :: _, [] => false
  end.

(** [s.endswith(p)] *)
Definition endswith (p s : str) : bool :=
  startswith (reverse p) (reverse s).

(** Index normalisation of a slice bound ([PySlice_AdjustIndices]). *)
Definition adjust (n i : Z) : Z :=
  if i <? 0 then Z.max (i + n) 0 else Z.min i n.

(** [s[a:b]] *)
Definition slice (s : str) (a b : Z) : str :=
  let a' := adjust (len s) a in
  let b' := adjust (len s) b in
  take (Z.to_nat (b' - a')) (drop (Z.to_nat a') s).

(** [s[a:]] and [s[:b]] *)
Definition slice_from (s : str) (a : Z) : str := slice s a (len s).
Definition slice_to (s : str) (b : Z) : str := slice s 0 b.

(** [s.find(c)] for a one-character needle: first index, or -1. *)
Fixpoint find_char (c : N) (s : str) : Z :=
  match s with
  | [] => -1
  | d :: r => if (d =? c)%N then 0
              else let k := find_char c r in if k <? 0 then -1 else k + 1
  end.

(** Candidates [start + k - 1] down to [start], the highest match first. *)
Fixpoint rfind_down (sub s : str) (start : Z) (k : nat) : Z :=
  match k with
  | O => -1
  | S k' =>
      let i := start + Z.of_nat k' in
      if startswith sub (drop (Z.to_nat i) s) then i
      else rfind_down sub s start k'
  end.

(** [s.rfind(sub, start, end)]: the bounds are adjusted as CPython's
    [ADJUST_INDICES] does ([end] clamped to the length, negative bounds
    counted from the end), and the match lies wholly inside them. *)
Definition rfind (sub s : str) (start end_ : Z) : Z :=
  let n := len s in
  let e := if end_ >? n then n
           else if end_ <? 0 then Z.max (end_ + n) 0 else end_ in
  let b := if start <? 0 then Z.max (start + n) 0 else start in
  if e - b <? len sub then -1
  else rfind_down sub s b (Z.to_nat (e - len sub - b + 1)).

(** [c in s] for a one-character needle. *)
Definition contains_char (c : N) (s : str) : bool :=
  existsb (N.eqb c) s.

(** A surrogate code point; a [str] that holds one has no UTF-8
    encoding. *)
Definition is_surrogate (c : N) : bool :=
  ((55296 <=? c) && (c <=? 57343))%N.

Definition encodable (s : str) : bool :=
  forallb (fun c => negb (is_surrogate c)) s.

(** What a read in text mode makes of the line ends (universal newlines):
    a carriage return, with the line feed that follows it if there is one,
    becomes a line feed. *)
Fixpoint universal_newlines (s : str) : str :=
  match s with
  | [] => []
  | c :: r =>
      if (c =? 13)%N then
        10%N :: match r with
                | d :: r' => if (d =? 10)%N then universal_newlines r'
                             else universal_newlines r
                | [] => []
                end
      else c :: universal_newlines r
  end.

End Py.

Import Py.

(** ** Settings (backend/config/settings.py) *)

Module settings.
Definition max_chunk_size : Z := 2000.
Definition chunk_overlap : Z := 200.
Definition default_questions_per_chunk : Z := 5.
Definition extracted_text_dir : str := lit "./extracted_text".
Definition generated_questions_dir : str := lit "./generated_questions".
End settings.

(** ** The chunker: [ExtractionService.chunk_text] *)

Module Chunker.

(** The two variables the [while] loop mutates. *)
Record loop_state := LoopState { start : Z; chunks : list str }.

Definition NLNL : str := [10; 10]%N.
Definition DOT : N := 46%N.

(** The window end chosen by one iteration (lines 112-125). *)
Definition window_end (text : str) (max_chunk_size start : Z) : Z :=
  let end_ := start + max_chunk_size in
  if end_ <? len text then
    let paragraph_break := rfind NLNL text start end_ in
    if paragraph_break >? start then paragraph_break
    else if contains_char DOT (slice text start end_) then
      let sentence_break := rfind [DOT] text start end_ + 1 in
      if sentence_break >? start then sentence_break else end_
    else end_
  else end_.

(** One iteration of the loop body (lines 112-132). *)
Definition body (text : str) (max_chunk_size overlap : Z) (st : loop_state)
  : loop_state :=
  let end_ := window_end text max_chunk_size (start st) in
  let chunk := strip (slice text (start st) end_) in
  let chunks' := match chunk with
                 | [] => chunks st
                 | _ => chunks st ++ [chunk]
                 end in
  LoopState (if end_ <? len text then end_ - overlap else end_) chunks'.

(** [while start < len(text)]: the loop has no bound of its own, so the
    model takes the number of iterations it may run; [None] means that
    number did not suffice. *)
Fixpoint loop (fuel : nat) (text : str) (max_chunk_size overlap : Z)
  (st : loop_state) : option (list str) :=
  if start st <? len text then
    match fuel with
    | O => None
    | S fuel' =>
        loop fuel' text max_chunk_size overlap
          (body text max_chunk_size overlap st)
    end
  else Some (chunks st).

(** [chunk_text(text, max_chunk_size=None, overlap=None)] *)
Definition chunk_text (fuel : nat) (text : str)
  (max_chunk_size overlap : option Z) : option (list str) :=
  let max_chunk_size := default settings.max_chunk_size max_chunk_size in
  let overlap := default settings.chunk_overlap overlap in
  if len text <=? max_chunk_size then Some [text]
  else loop fuel text max_chunk_size overlap (LoopState 0 []).

End Chunker.

(** ** Python values *)

(** The values that [json.loads] builds, and the [datetime] the orchestrator
    stores under [created_at].  A dict keeps its items in insertion order;
    a float keeps the text it was read from. *)
Inductive pyval :=
| PNone
| PBool (b : bool)
| PInt (z : Z)
| PFloat (lexeme : str)
| PStr (s : str)
| PList (items : list pyval)
| PDict (items : list (str * pyval))
| PDatetime (t : N).

(** [key in d] and [d[key]] on the items of a dict. *)
Fixpoint dict_get (key : str) (items : list (str * pyval)) : option pyval :=
  match items with
  | [] => None
  | (k, v) :: r => if str_eqb k key then Some v else dict_get key r
  end.

(** [d[key] = v]: an existing key keeps its place, a new one goes last. *)
Fixpoint dict_set (key : str) (v : pyval) (items : list (str * pyval))
  : list (str * pyval) :=
  match items with
  | [] => [(key, v)]
  | (k, w) :: r =>
      if str_eqb k key then (k, v) :: r else (k, w) :: dict_set key v r
  end.

(** Exceptions: a call either returns or raises.  [HTTPException] is kept
    apart from the other exceptions because the routes re-raise it as is. *)
Inductive exn :=
| HTTPException (status_code : Z) (detail : str)
| Exception (message : str).

Inductive result (A : Type) :=
| Ok (a : A)
| Raise (e : exn).
Arguments Ok {A} a.
Arguments Raise {A} e.

(** [str(n)] for an integer. *)
Definition str_of_Z (n : Z) : str :=
  lit (NilZero.string_of_int (Z.to_int n)).

(** [str(e)]; an [HTTPException] prints its status code, a colon and its
    detail (Starlette's [__str__]). *)
Definition exn_str (e : exn) : str :=
  match e with
  | HTTPException status_code detail =>
      str_of_Z status_code ++ lit ": " ++ detail
  | Exception message => message
  end.

(** ** [json.loads] (CPython's scanner, strict mode) *)

Module Json.

(** A scan either yields a value and the rest of the input, rejects the
    input ([JSONDecodeError]), or stops because the recursion budget of the
    model ran out (which [JsonFacts.scan_budget] shows [decode] never
    does). *)
Inductive scan (A : Type) :=
| Got (a : A) (rest : str)
| Reject
| Budget.
Arguments Got {A} a rest.
Arguments Reject {A}.
Arguments Budget {A}.

Definition is_ws (c : N) : bool :=
  ((c =? 32) || (c =? 9) || (c =? 10) || (c =? 13))%N.

Fixpoint skip_ws (s : str) : str :=
  match s with
  | c :: r => if is_ws c then skip_ws r else s
  | [] => []
  end.

Definition is_digit (c : N) : bool := ((48 <=? c) && (c <=? 57))%N.

Definition hex_val (c : N) : option N :=
  if ((48 <=? c) && (c <=? 57))%N then Some (c - 48)%N
  else if ((97 <=? c) && (c <=? 102))%N then Some (c - 87)%N
  else if ((65 <=? c) && (c <=? 70))%N then Some (c - 55)%N
  else None.

(** Four hex digits, most significant first. *)
Definition hex4 (a b c d : N) : option N :=
  match hex_val a, hex_val b, hex_val c, hex_val d with
  | Some x, Some y, Some z, Some w =>
      Some (((x * 16 + y) * 16 + z) * 16 + w)%N
  | _, _, _, _ => None
  end.

Definition is_high_surrogate (c : N) : bool :=
  ((55296 <=? c) && (c <=? 56319))%N.
Definition is_low_surrogate (c : N) : bool :=
  ((56320 <=? c) && (c <=? 57343))%N.
Definition join_surrogates (hi lo : N) : N :=
  (65536 + ((hi - 55296) * 1024 + (lo - 56320)))%N.

(** The one-character escapes after a backslash. *)
Definition simple_escape (c : N) : option N :=
  if (c =? 34)%N then Some 34%N          (* quote *)
  else if (c =? 92)%N then Some 92%N     (* backslash *)
  else if (c =? 47)%N then Some 47%N     (* slash *)
  else if (c =? 98)%N then Some 8%N      (* backspace *)
  else if (c =? 102)%N then Some 12%N    (* form feed *)
  else if (c =? 110)%N then Some 10%N    (* newline *)
  else if (c =? 114)%N then Some 13%N    (* carriage return *)
  else if (c =? 116)%N then Some 9%N     (* tab *)
  else None.

(** [scanstring]: the input just after the opening quote.  The recursion
    is on a budget of one unit per character read. *)
Fixpoint scanstring (fuel : nat) (acc : str) (s : str) : scan str :=
  match fuel with
  | O => Budget
  | S fuel' =>
      match s with
      | [] => Reject                                  (* unterminated *)
      | 34%N :: r => Got (reverse acc) r
      | 92%N :: 117%N :: a :: b :: c :: d :: r =>     (* u and four hex digits *)
          match hex4 a b c d, r with
          | Some u, _ :: _ =>
              if is_high_surrogate u then
                match r with
                | 92%N :: 117%N :: a2 :: b2 :: c2 :: d2 :: ((_ :: _) as r2) =>
                    match hex4 a2 b2 c2 d2 with
                    | Some u2 =>
                        if is_low_surrogate u2
                        then scanstring fuel' (join_surrogates u u2 :: acc) r2
                        else scanstring fuel' (u :: acc) r
                    | None => Reject
                    end
                | _ => scanstring fuel' (u :: acc) r
                end
              else scanstring fuel' (u :: acc) r
          | _, _ => Reject
          end
      | 92%N :: 117%N :: _ => Reject
      | 92%N :: e :: r =>
          match simple_escape e with
          | Some c => scanstring fuel' (c :: acc) r
          | None => Reject
          end
      | 92%N :: [] => Reject
      | c :: r =>
          if (c <=? 31)%N then Reject                 (* control character *)
          else scanstring fuel' (c :: acc) r
      end
  end.

Fixpoint span_digits (s : str) : str * str :=
  match s with
  | c :: r => if is_digit c
              then let '(ds, r') := span_digits r in (c :: ds, r')
              else ([], s)
  | [] => ([], [])
  end.

Definition digits_value (ds : str) : Z :=
  fold_left (fun acc c => acc * 10 + Z.of_N (c - 48)%N) ds 0.

(** The integer part: [0] or a nonzero digit followed by digits. *)
Definition int_part (s : str) : option (str * str) :=
  match s with
  | 48%N :: r => Some ([48%N], r)
  | c :: r => if is_digit c
              then let '(ds, r') := span_digits r in Some (c :: ds, r')
              else None
  | [] => None
  end.

(** [.digits], taken only when a digit follows the point. *)
Definition frac_part (s : str) : str * str :=
  match s with
  | 46%N :: ((c :: _) as r) =>
      if is_digit c then let '(ds, r') := span_digits r in (46%N :: ds, r')
      else ([], s)
  | _ => ([], s)
  end.

(** [e], an optional sign and digits, taken only when a digit is read and
    the [e] is not the last character of the input. *)
Definition exp_part (s : str) : str * str :=
  match s with
  | e :: ((_ :: _) as r) =>
      if ((e =? 101) || (e =? 69))%N then
        let '(sign, r1) :=
          match r with
          | c :: ((_ :: _) as r') =>
              if ((c =? 45) || (c =? 43))%N then ([c], r') else ([], r)
          | _ => ([], r)
          end in
        match span_digits r1 with
        | ([], _) => ([], s)
        | (ds, r2) => (e :: sign ++ ds, r2)
        end
      else ([], s)
  | _ => ([], s)
  end.

(** [_match_number]: an int when there is neither fraction nor exponent. *)
Definition match_number (s : str) : scan pyval :=
  let '(neg, s1) := match s with
                    | 45%N :: r => (true, r)
                    | _ => (false, s)
                    end in
  match int_part s1 with
  | None => Reject
  | Some (ip, s2) =>
      let '(fp, s3) := frac_part s2 in
      let '(ep, s4) := exp_part s3 in
      match fp, ep with
      | [], [] =>
          Got (PInt (if neg then - digits_value ip else digits_value ip)) s4
      | _, _ =>
          Got (PFloat ((if neg then [45%N] else []) ++ ip ++ fp ++ ep)) s4
      end
  end.

(** A keyword at the head of the input. *)
Definition keyword (k : string) (s : str) : option str :=
  if startswith (lit k) s then Some (drop (length (lit k)) s) else None.

(** [scan_once], [_parse_array] and [_parse_object].  The two loops take
    the items read so far; an object is built by successive [d[k] = v]. *)
Fixpoint scan_once (fuel : nat) (s : str) : scan pyval :=
  match fuel with
  | O => Budget
  | S fuel' =>
      match s with
      | [] => Reject
      | 34%N :: r =>
          match scanstring (S (length r)) [] r with
          | Got x r' => Got (PStr x) r'
          | Reject => Reject
          | Budget => Budget
          end
      | 123%N :: r =>
          match skip_ws r with
          | 125%N :: r' => Got (PDict []) r'
          | r' => parse_object fuel' [] r'
          end
      | 91%N :: r =>
          match skip_ws r with
          | 93%N :: r' => Got (PList []) r'
          | r' => parse_array fuel' [] r'
          end
      | _ =>
          match keyword "null" s, keyword "true" s, keyword "false" s with
          | Some r, _, _ => Got PNone r
          | _, Some r, _ => Got (PBool true) r
          | _, _, Some r => Got (PBool false) r
          | _, _, _ =>
              match keyword "NaN" s, keyword "Infinity" s,
                    keyword "-Infinity" s with
              | Some r, _, _ => Got (PFloat (lit "NaN")) r
              | _, Some r, _ => Got (PFloat (lit "Infinity")) r
              | _, _, Some r => Got (PFloat (lit "-Infinity")) r
              | _, _, _ => match_number s
              end
          end
      end
  end
with parse_array (fuel : nat) (acc : list pyval) (s : str) : scan pyval :=
  match fuel with
  | O => Budget
  | S fuel' =>
      match scan_once fuel' s with
      | Got v r =>
          match skip_ws r with
          | 93%N :: r' => Got (PList (reverse (v :: acc))) r'
          | 44%N :: r' => parse_array fuel' (v :: acc) (skip_ws r')
          | _ => Reject
          end
      | Reject => Reject
      | Budget => Budget
      end
  end
with parse_object (fuel : nat) (acc : list (str * pyval)) (s : str)
  : scan pyval :=
  match fuel with
  | O => Budget
  | S fuel' =>
      match s with
      | 34%N :: r =>
          match scanstring (S (length r)) [] r with
          | Got key r1 =>
              match skip_ws r1 with
              | 58%N :: r2 =>
                  match scan_once fuel' (skip_ws r2) with
                  | Got v r3 =>
                      match skip_ws r3 with
                      | 125%N :: r' => Got (PDict (dict_set key v acc)) r'
                      | 44%N :: r' =>
                          parse_object fuel' (dict_set key v acc) (skip_ws r')
                      | _ => Reject
                      end
                  | Reject => Reject
                  | Budget => Budget
                  end
              | _ => Reject
              end
          | Reject => Reject
          | Budget => Budget
          end
      | _ => Reject
      end
  end.

(** [JSONDecoder.decode]: leading whitespace, one value, trailing
    whitespace, and nothing else. *)
Definition decode (s : str) : scan pyval :=
  match scan_once (S (2 * length s)) (skip_ws s) with
  | Got v r => match skip_ws r with
               | [] => Got v []
               | _ => Reject
               end
  | Reject => Reject
  | Budget => Budget
  end.

End Json.

(** [json.loads(s)]: the value, or [JSONDecodeError] (a [ValueError]).
    The interpreter's own limits are not part of the scanner: a document
    with an integer literal of more than 4300 digits, or nested deeper than
    the recursion limit allows, raises another exception in CPython and is
    parsed here.  The statement on the drafts that a run collects assumes
    answers within those limits ([Vocabulary.within_limits]). *)
Definition JSONDecodeError : exn := Exception (lit "JSONDecodeError").

Definition json_loads (s : str) : result pyval :=
  match Json.decode s with
  | Json.Got v _ => Ok v
  | _ => Raise JSONDecodeError
  end.

(** ** [LLMService.generate_questions]: bounding and parsing the answer *)

Module LLMService.

Definition FENCE_JSON : str := lit "```json".
Definition FENCE : str := lit "```".
Definition LBRACE : N := 123%N.
Definition RBRACE : N := 125%N.

(** Lines 95-102: strip, drop a leading fence, drop a trailing fence,
    strip again. *)
Definition clean (response : str) : str :=
  let response := strip response in
  let response := if startswith FENCE_JSON response
                  then slice_from response 7 else response in
  let response := if startswith FENCE response
                  then slice_from response 3 else response in
  let response := if endswith FENCE response
                  then slice_to response (-3) else response in
  strip response.

(** Lines 106-108: discard what precedes the first opening brace. *)
Definition from_first_brace (response : str) : str :=
  let json_start := find_char LBRACE response in
  if json_start >? 0 then slice_from response json_start else response.

(** Lines 112-121: the [for i, char in enumerate(response)] loop, from
    index [i] with the current [brace_count]; the result is [json_end]. *)
Fixpoint brace_scan (response : str) (i brace_count : Z) : Z :=
  match response with
  | [] => -1
  | char :: rest =>
      if (char =? LBRACE)%N then brace_scan rest (i + 1) (brace_count + 1)
      else if (char =? RBRACE)%N then
        let brace_count := brace_count - 1 in
        if brace_count =? 0 then i
        else brace_scan rest (i + 1) brace_count
      else brace_scan rest (i + 1) brace_count
  end.

(** Lines 123-124: cut after the brace that closed the count. *)
Definition to_json_end (response : str) : str :=
  let json_end := brace_scan response 0 0 in
  if negb (json_end =? -1) then slice_to response (json_end + 1)
  else response.

(** The text handed to [json.loads] (lines 95-124). *)
Definition bounded (response : str) : str :=
  to_json_end (from_first_brace (clean response)).

(** Lines 93-133: the [try] block.  A [JSONDecodeError] becomes the
    [ValueError] of line 133. *)
Definition parse_response (response : str) : result pyval :=
  match json_loads (bounded response) with
  | Ok questions_data => Ok questions_data
  | Raise e =>
      Raise (Exception (lit "Invalid JSON response from LLM: " ++ exn_str e))
  end.

(** [generate_questions(text)] once the provider selected by the settings
    has answered or raised (lines 83-90 are the provider's call). *)
Definition generate_questions (provider_answer : result str) : result pyval :=
  match provider_answer with
  | Ok response => parse_response response
  | Raise e => Raise e
  end.

End LLMService.

(** ** Generic Python operations on values *)

(** [needle in s] for strings: the substring test. *)
Fixpoint is_infix (needle s : str) : bool :=
  startswith needle s ||
  match s with
  | [] => false
  | _ :: r => is_infix needle r
  end.

Definition TypeError : exn := Exception (lit "TypeError").
Definition KeyError (key : str) : exn := Exception (lit "'" ++ key ++ lit "'").

(** The exception of the UTF-8 encoder on a string with a surrogate.  It
    names the first run of surrogates: the character and its index when
    the run has one character, the first and the last index otherwise. *)
Definition hex_digit (d : N) : N :=
  if (d <? 10)%N then (48 + d)%N else (87 + d)%N.

Definition hex4_of (c : N) : str :=
  [hex_digit ((c / 4096) mod 16); hex_digit ((c / 256) mod 16);
   hex_digit ((c / 16) mod 16); hex_digit (c mod 16)]%N.

Fixpoint surrogates_ahead (s : str) : nat :=
  match s with
  | c :: r => if is_surrogate c then S (surrogates_ahead r) else O
  | [] => O
  end.

Fixpoint surrogate_run (s : str) (i : Z) : option (Z * N * Z) :=
  match s with
  | [] => None
  | c :: r =>
      if is_surrogate c
      then Some (i, c, i + 1 + Z.of_nat (surrogates_ahead r))
      else surrogate_run r (i + 1)
  end.

Definition UnicodeEncodeError (s : str) : exn :=
  Exception
    match surrogate_run s 0 with
    | Some (start, c, end_) =>
        if end_ =? start + 1 then
          lit "'utf-8' codec can't encode character '\u" ++ hex4_of c
          ++ lit "' in position " ++ str_of_Z start
          ++ lit ": surrogates not allowed"
        else
          lit "'utf-8' codec can't encode characters in position "
          ++ str_of_Z start ++ lit "-" ++ str_of_Z (end_ - 1)
          ++ lit ": surrogates not allowed"
    | None => []
    end.

(** [key in v], with a string [key]. *)
Definition py_contains (key : str) (v : pyval) : result bool :=
  match v with
  | PDict items => Ok (bool_decide (is_Some (dict_get key items)))
  | PList items =>
      Ok (existsb (fun x => match x with
                            | PStr s => str_eqb s key
                            | _ => false
                            end) items)
  | PStr s => Ok (is_infix key s)
  | _ => Raise TypeError
  end.

(** [v[key]], with a string [key]. *)
Definition py_getitem (key : str) (v : pyval) : result pyval :=
  match v with
  | PDict items => match dict_get key items with
                   | Some x => Ok x
                   | None => Raise (KeyError key)
                   end
  | _ => Raise TypeError
  end.

(** The elements that [for x in v] visits. *)
Definition py_iter (v : pyval) : result (list pyval) :=
  match v with
  | PList items => Ok items
  | PDict items => Ok (List.map (fun kv => PStr (fst kv)) items)
  | PStr s => Ok (List.map (fun c => PStr [c]) s)
  | _ => Raise TypeError
  end.

(** Truth value of an [Optional[str]]. *)
Definition truthy (o : option str) : bool :=
  match o with
  | Some (_ :: _) => true
  | _ => false
  end.

(** [os.path.join(dir, name)] for a non-empty [dir] without a trailing
    separator, as the settings have them. *)
Definition path_join (dir name : str) : str :=
  if startswith (lit "/") name then name else dir ++ lit "/" ++ name.

(** ** Job records *)

(** Modelled from the spec: the enum [ProcessingStatus] of
    [backend/models], which is not among the sources; the six members
    are the states of the spec (4.5) and the keys of [progress_map] in
    [routes/process.py]. *)
Inductive ProcessingStatus :=
| UPLOADED | EXTRACTING | EXTRACTED | GENERATING | READY | FAILED.

#[global] Instance ProcessingStatus_eq_dec : EqDecision ProcessingStatus.
Proof. solve_decision. Defined.

(** Modelled from the spec: the document [UploadMetadata] of
    [backend/models], which is not among the sources; the fields are the
    ones the services read and [$set] (the Job of the spec, section 3).
    The [file_id] is the key under which the document is stored. *)
Record UploadMetadata := mkUploadMetadata {
  filename : str;
  file_path : str;
  status : ProcessingStatus;
  upload_time : N;
  extracted_text_path : option str;
  generated_questions_path : option str;
  progress_current : Z;
  progress_total : Z;
  progress_message : option str;
  error : option str
}.

Definition with_status (s : ProcessingStatus) (m : UploadMetadata) :=
  mkUploadMetadata (filename m) (file_path m) s (upload_time m)
    (extracted_text_path m) (generated_questions_path m)
    (progress_current m) (progress_total m) (progress_message m) (error m).

Definition with_error (e : option str) (m : UploadMetadata) :=
  mkUploadMetadata (filename m) (file_path m) (status m) (upload_time m)
    (extracted_text_path m) (generated_questions_path m)
    (progress_current m) (progress_total m) (progress_message m) e.

Definition with_extracted_text_path (p : option str) (m : UploadMetadata) :=
  mkUploadMetadata (filename m) (file_path m) (status m) (upload_time m)
    p (generated_questions_path m)
    (progress_current m) (progress_total m) (progress_message m) (error m).

Definition with_generated_questions_path (p : option str)
  (m : UploadMetadata) :=
  mkUploadMetadata (filename m) (file_path m) (status m) (upload_time m)
    (extracted_text_path m) p
    (progress_current m) (progress_total m) (progress_message m) (error m).

Definition with_progress (current total : Z) (message : option str)
  (m : UploadMetadata) :=
  mkUploadMetadata (filename m) (file_path m) (status m) (upload_time m)
    (extracted_text_path m) (generated_questions_path m)
    current total message (error m).

(** Modelled from the spec: [GeneratedQuestionsResponse] of
    [backend/models], with the four fields its two constructions pass. *)
Record GeneratedQuestionsResponse := mkResponse {
  resp_file_id : str;
  resp_questions : list pyval;
  resp_total_count : Z;
  resp_status : ProcessingStatus
}.

(** ** The world the services act on *)

(** What an observer of the collaborators sees, in order: every write of
    a job's status, every write of its progress, every call of the model
    provider.  Nothing in the program reads this log. *)
Inductive event :=
| EvStatus (file_id : str) (s : ProcessingStatus) (err : option str)
| EvProgress (file_id : str) (current total : Z) (message : option str)
| EvGateway (chunk : str).

Record world := mkWorld {
  uploads : gmap str UploadMetadata;   (* the collection [db.uploads] *)
  files : gmap str str;                (* the file system: path to content;
                                          for a file written as text, what
                                          a read in text mode returns *)
  ticks : nat;                         (* readings of the clock so far *)
  calls : nat;                         (* provider calls so far *)
  trace : list event
}.

(** The collaborators outside the repository.  The provider and the
    clock may answer differently at each call, so they take the number of
    earlier calls.
    - [to_markdown]: [pymupdf4llm.to_markdown], given path and content;
    - [complete]: the provider selected by [settings.llm_provider] with
      the prompt rendered from the chunk;
    - [utcnow]: [datetime.utcnow];
    - [json_dumps]: the text [json.dump(_, indent=2, default=str)] writes;
    - [Question]: the pydantic constructor of [Question] (declared in
      [backend/models], which is not among the sources), applied to the
      items of a draft as keyword arguments; it validates and may raise. *)
Record collaborators := mkCollaborators {
  to_markdown : str -> str -> result str;
  complete : nat -> str -> result str;
  utcnow : nat -> N;
  json_dumps : pyval -> str;
  Question : list (str * pyval) -> result pyval
}.

(** A computation on the world returns or raises, and keeps the writes
    it made before raising.  [None] only when the chunker was not given
    enough iterations (see [Chunker.loop]). *)
Definition M (A : Type) : Type := world -> option (result A * world).

Definition ret {A} (a : A) : M A := fun w => Some (Ok a, w).
Definition raise {A} (e : exn) : M A := fun w => Some (Raise e, w).
Definition bind {A B} (c : M A) (k : A -> M B) : M B := fun w =>
  match c w with
  | Some (Ok a, w') => k a w'
  | Some (Raise e, w') => Some (Raise e, w')
  | None => None
  end.

(** [try: c  except Exception as e: h e] *)
Definition try_except {A} (c : M A) (h : exn -> M A) : M A := fun w =>
  match c w with
  | Some (Raise e, w') => h e w'
  | r => r
  end.

Definition lift {A} (r : result A) : M A := fun w => Some (r, w).

Notation "'let!' x ':=' c 'in' k" := (bind c (fun x => k))
  (at level 10, x pattern, c at level 100, k at level 200).

(** ** The services *)

Section Services.

Variable X : collaborators.

Definition log (e : event) (w : world) : world :=
  mkWorld (uploads w) (files w) (ticks w) (calls w) (trace w ++ [e]).

Definition put_upload (file_id : str) (m : UploadMetadata) (w : world)
  : world :=
  mkWorld (<[file_id := m]> (uploads w)) (files w) (ticks w) (calls w)
    (trace w).

(** A write that stores the content as it is: [open(path, 'wb')] of the
    upload, and the [json.dump] of the generated set, whose text is ASCII
    without carriage returns, so that text mode neither fails on it nor
    changes it.  The directories exist since start-up ([lifespan] in
    [api/main.py]). *)
Definition write_file (path content : str) : M unit := fun w =>
  Some (Ok tt, mkWorld (uploads w) (<[path := content]> (files w))
                 (ticks w) (calls w) (trace w)).

(** [with open(path, 'w', encoding='utf-8') as f: f.write(content)].
    Opening truncates the file; a content with a surrogate cannot be
    encoded, so the write raises and the file stays empty.  What is kept
    for the file is what a later read in text mode returns: the content
    with its line ends translated (on a system whose line separator is the
    line feed, where the write itself changes nothing). *)
Definition write_text (path content : str) : M unit := fun w =>
  if encodable content then
    Some (Ok tt,
          mkWorld (uploads w)
            (<[path := universal_newlines content]> (files w))
            (ticks w) (calls w) (trace w))
  else
    Some (Raise (UnicodeEncodeError content),
          mkWorld (uploads w) (<[path := []]> (files w))
            (ticks w) (calls w) (trace w)).

(** [datetime.utcnow()] *)
Definition read_clock : M N := fun w =>
  Some (Ok (utcnow X (ticks w)),
        mkWorld (uploads w) (files w) (S (ticks w)) (calls w) (trace w)).

(** One call of the provider for a chunk; the answer, or the exception
    it raised, is handed to [LLMService.generate_questions]. *)
Definition call_provider (chunk : str) : M (result str) := fun w =>
  Some (Ok (complete X (calls w) chunk),
        log (EvGateway chunk)
          (mkWorld (uploads w) (files w) (ticks w) (S (calls w)) (trace w))).

Definition not_found (file_id : str) : exn :=
  HTTPException 404 (lit "File with ID " ++ file_id ++ lit " not found").

(** *** [UploadService] (backend/services/upload_service.py) *)

Definition get_upload_status (file_id : str) : M UploadMetadata := fun w =>
  match uploads w !! file_id with
  | Some upload => Some (Ok upload, w)
  | None => Some (Raise (not_found file_id), w)
  end.

(** [update_status]: [$set] of [status], and of [error] only under
    [if error:]; 404 when no document matched.  A write that matched is
    logged. *)
Definition update_status (file_id : str) (s : ProcessingStatus)
  (err : option str) : M unit := fun w =>
  match uploads w !! file_id with
  | Some m =>
      let m := with_status s m in
      let m := if truthy err then with_error err m else m in
      Some (Ok tt, log (EvStatus file_id s err) (put_upload file_id m w))
  | None => Some (Raise (not_found file_id), w)
  end.

(** The three setters below do not look at [matched_count]. *)
Definition set_extracted_text_path (file_id text_path : str) : M unit :=
  fun w =>
  match uploads w !! file_id with
  | Some m =>
      Some (Ok tt,
            put_upload file_id (with_extracted_text_path (Some text_path) m) w)
  | None => Some (Ok tt, w)
  end.

Definition set_generated_questions_path (file_id questions_path : str)
  : M unit := fun w =>
  match uploads w !! file_id with
  | Some m =>
      Some (Ok tt,
            put_upload file_id
              (with_generated_questions_path (Some questions_path) m) w)
  | None => Some (Ok tt, w)
  end.

(** [update_progress]: the message is written only under [if message:]. *)
Definition update_progress (file_id : str) (current total : Z)
  (message : option str) : M unit := fun w =>
  match uploads w !! file_id with
  | Some m =>
      let msg := if truthy message then message else progress_message m in
      Some (Ok tt,
            log (EvProgress file_id current total message)
              (put_upload file_id (with_progress current total msg m) w))
  | None => Some (Ok tt, w)
  end.

(** *** [ExtractionService] (backend/services/extraction_service.py) *)

Definition extract_body (file_id : str) : M str :=
  let! upload_metadata := get_upload_status file_id in
  let pdf_path := file_path upload_metadata in
  fun w =>
  match files w !! pdf_path with
  | None =>
      raise (Exception (lit "PDF file not found: " ++ pdf_path)) w
  | Some pdf =>
      (let! md_text := lift (to_markdown X pdf_path pdf) in
       match strip md_text with
       | [] => raise (Exception (lit "No text could be extracted from PDF"))
       | _ =>
           let text_path :=
             path_join settings.extracted_text_dir (file_id ++ lit ".txt") in
           let! _ := write_text text_path md_text in
           let! _ := set_extracted_text_path file_id text_path in
           let! _ := update_status file_id EXTRACTED None in
           ret md_text
       end) w
  end.

Definition extract_text_from_pdf (file_id : str) : M str :=
  let! _ := update_status file_id EXTRACTING None in
  try_except (extract_body file_id)
    (fun e =>
       let! _ := update_status file_id FAILED
                   (Some (lit "Extraction failed: " ++ exn_str e)) in
       raise e).

(** The file is read in text mode: [files] holds what that read returns. *)
Definition get_extracted_text (file_id : str) : M (option str) :=
  let! upload_metadata := get_upload_status file_id in
  fun w =>
  match extracted_text_path upload_metadata with
  | Some ((_ :: _) as p) =>
      match files w !! p with
      | Some text => Some (Ok (Some text), w)
      | None => Some (Ok None, w)
      end
  | _ => Some (Ok None, w)
  end.

(** *** [QuestionService] (backend/services/question_service.py) *)

Definition NO_QUESTIONS : exn :=
  Exception (lit "No questions were generated from the text").

(** Lines 76-80: the inner [for q_data in ...] loop.  [all_questions] is
    a list the loop appends to in place, so what was appended before an
    exception stays; the result is the list and the exception that ended
    the loop, if any.  Item assignment on anything but a dict raises. *)
Fixpoint stamp_drafts (file_id : str) (q_datas : list pyval)
  (all_questions : list pyval) : M (list pyval * option exn) :=
  match q_datas with
  | [] => ret (all_questions, None)
  | PDict items :: rest =>
      let items := dict_set (lit "file_id") (PStr file_id) items in
      let! now := read_clock in
      let items := dict_set (lit "created_at") (PDatetime now) items in
      stamp_drafts file_id rest (all_questions ++ [PDict items])
  | _ :: _ => ret (all_questions, Some TypeError)
  end.

(** Lines 75-80: what a returned [result] adds to [all_questions]. *)
Definition collect (file_id : str) (result : pyval)
  (all_questions : list pyval) : M (list pyval * option exn) :=
  match py_contains (lit "questions") result with
  | Raise e => ret (all_questions, Some e)
  | Ok false => ret (all_questions, None)
  | Ok true =>
      match py_getitem (lit "questions") result with
      | Raise e => ret (all_questions, Some e)
      | Ok qs =>
          match py_iter qs with
          | Raise e => ret (all_questions, Some e)
          | Ok q_datas => stamp_drafts file_id q_datas all_questions
          end
      end
  end.

Definition chunk_message (current_chunk total_chunks : Z) : str :=
  lit "Processing chunk " ++ str_of_Z current_chunk ++ lit "/"
  ++ str_of_Z total_chunks.

(** Lines 60-83: the body of the [try] of one chunk, with the list as it
    leaves the body and the exception that ended it, if any. *)
Definition chunk_body (file_id : str) (total_chunks : Z) (idx : nat)
  (chunk : str) (all_questions : list pyval)
  : M (list pyval * option exn) :=
  let current_chunk := Z.of_nat idx + 1 in
  let! _ := update_progress file_id current_chunk total_chunks
              (Some (chunk_message current_chunk total_chunks)) in
  let! answer := call_provider chunk in
  match LLMService.generate_questions answer with
  | Raise e => ret (all_questions, Some e)
  | Ok result => collect file_id result all_questions
  end.

(** Lines 59-86: [for idx, chunk in enumerate(chunks)], from index [idx];
    the [except Exception] of a chunk only prints. *)
Fixpoint for_chunks (file_id : str) (total_chunks : Z) (idx : nat)
  (chunks : list str) (all_questions : list pyval) : M (list pyval) :=
  match chunks with
  | [] => ret all_questions
  | chunk :: rest =>
      let! out := chunk_body file_id total_chunks idx chunk all_questions in
      for_chunks file_id total_chunks (S idx) rest (fst out)
  end.

(** The comprehension that builds a [Question] from every draft of a
    list: keyword expansion needs a mapping. *)
Fixpoint to_questions (qs : list pyval) : result (list pyval) :=
  match qs with
  | [] => Ok []
  | PDict items :: rest =>
      match Question X items with
      | Ok q => match to_questions rest with
                | Ok l => Ok (q :: l)
                | Raise e => Raise e
                end
      | Raise e => Raise e
      end
  | _ :: _ => Raise TypeError
  end.

Definition questions_path_of (file_id : str) : str :=
  path_join settings.generated_questions_dir (file_id ++ lit ".json").

(** Lines 88-113: after the loop. *)
Definition finish (file_id : str) (all_questions : list pyval)
  : M GeneratedQuestionsResponse :=
  match all_questions with
  | [] => raise NO_QUESTIONS
  | _ =>
      let questions_path := questions_path_of file_id in
      let! _ := write_file questions_path
                  (json_dumps X
                     (PDict [(lit "questions", PList all_questions)])) in
      let! _ := set_generated_questions_path file_id questions_path in
      let! _ := update_status file_id READY None in
      let! questions := lift (to_questions all_questions) in
      ret (mkResponse file_id questions (Z.of_nat (length questions)) READY)
  end.

(** Lines 43-113: from the text to the response. *)
Definition generate_from_text (fuel : nat) (file_id text : str)
  : M GeneratedQuestionsResponse :=
  let! chunks := (fun w =>
                    match Chunker.chunk_text fuel text None None with
                    | Some chunks => Some (Ok chunks, w)
                    | None => None
                    end) in
  let total_chunks := Z.of_nat (length chunks) in
  let! _ := update_progress file_id 0 total_chunks
              (Some (lit "Starting question generation...")) in
  let! all_questions := for_chunks file_id total_chunks 0 chunks [] in
  finish file_id all_questions.

(** Lines 34-113: the body of the outer [try]. *)
Definition generate_body (fuel : nat) (file_id : str)
  : M GeneratedQuestionsResponse :=
  let! _ := update_status file_id GENERATING None in
  let! text := get_extracted_text file_id in
  let! text := match text with
               | Some ((_ :: _) as t) => ret t
               | _ => extract_text_from_pdf file_id
               end in
  generate_from_text fuel file_id text.

Definition generate_questions_from_file (fuel : nat) (file_id : str)
  : M GeneratedQuestionsResponse :=
  try_except (generate_body fuel file_id)
    (fun e =>
       let! _ := update_status file_id FAILED
                   (Some (lit "Question generation failed: " ++ exn_str e)) in
       raise e).

Definition get_generated_questions (file_id : str)
  : M (option GeneratedQuestionsResponse) :=
  let! upload_metadata := get_upload_status file_id in
  fun w =>
  match generated_questions_path upload_metadata with
  | Some ((_ :: _) as p) =>
      match files w !! p with
      | None => Some (Ok None, w)
      | Some content =>
          (let! data := lift (json_loads content) in
           let! qs := lift (py_getitem (lit "questions") data) in
           let! qs := lift (py_iter qs) in
           let! questions := lift (to_questions qs) in
           ret (Some (mkResponse file_id questions (Z.of_nat (length questions))
                        (status upload_metadata)))) w
      end
  | _ => Some (Ok None, w)
  end.

(** *** The route [POST /generate/{file_id}] (backend/api/routes/process.py) *)

(** Lines 108-128.  A response object is true under [if existing_questions:]
    (a pydantic model defines neither [__bool__] nor [__len__]); only
    [None] is false. *)
Definition route_generate_questions (fuel : nat) (file_id : str)
  : M GeneratedQuestionsResponse :=
  try_except
    (let! _ := get_upload_status file_id in
     let! existing_questions := get_generated_questions file_id in
     match existing_questions with
     | Some r => ret r
     | None => generate_questions_from_file fuel file_id
     end)
    (fun e =>
       match e with
       | HTTPException _ _ => raise e
       | Exception _ =>
           raise (HTTPException 500
                    (lit "Failed to generate questions: " ++ exn_str e))
       end).

End Services.

(** ** The other route and the background task *)

Section Routes.

Variable X : collaborators.

(** *** The route [GET /questions/{file_id}] (backend/api/routes/process.py) *)

Definition no_questions_found (file_id : str) : exn :=
  HTTPException 404
    (lit "No questions found for file " ++ file_id
     ++ lit ". Generate them first.").

(** Lines 142-158. *)
Definition route_get_generated_questions (file_id : str)
  : M GeneratedQuestionsResponse :=
  try_except
    (let! result := get_generated_questions X file_id in
     match result with
     | None => raise (no_questions_found file_id)
     | Some r => ret r
     end)
    (fun e =>
       match e with
       | HTTPException _ _ => raise e
       | Exception _ =>
           raise (HTTPException 500
                    (lit "Failed to retrieve questions: " ++ exn_str e))
       end).

(** *** The background task of the full pipeline (lines 161-175) *)

Definition _run_pipeline_task (fuel : nat) (file_id : str) : M unit :=
  try_except
    (let! _ := extract_text_from_pdf X file_id in
     let! _ := generate_questions_from_file X fuel file_id in
     ret tt)
    (fun e => update_status file_id FAILED (Some (exn_str e))).

End Routes.

(** ** [Settings.cors_origins_list] (backend/config/settings.py) *)

Module Cors.

Definition COMMA : N := 44%N.

(** [s.split(sep)] for a one-character separator: the pieces between the
    separators, empty ones included; never the empty list. *)
Fixpoint split (sep : N) (s : str) : list str :=
  match s with
  | [] => [[]]
  | c :: r =>
      if (c =? sep)%N then [] :: split sep r
      else match split sep r with
           | h :: t => (c :: h) :: t
           | [] => [[c]]
           end
  end.

(** The default of the setting. *)
Definition cors_origins : str :=
  lit "http://localhost:3000,http://localhost:3001".

(** Line 61: [[origin.strip() for origin in self.cors_origins.split(",")]] *)
Definition cors_origins_list (cors_origins : str) : list str :=
  List.map strip (split COMMA cors_origins).

End Cors.

(** ** [UploadService.save_upload] and the route [POST /upload/] *)

Module Upload.

Definition upload_dir : str := lit "./uploads".

(** Modelled from the spec: [UploadResponse] of [backend/models], with the
    five fields its construction passes. *)
Record UploadResponse := mkUploadResponse {
  up_file_id : str;
  up_filename : str;
  up_status : ProcessingStatus;
  up_message : str;
  up_upload_time : N
}.

Definition ONLY_PDF : exn :=
  HTTPException 400 (lit "Only PDF files are supported").

(** [db.uploads.insert_one(doc)].  The collection is read by [file_id]
    with [find_one] and written with [update_one], which both take the
    first document that matches: a document inserted under an id that is
    already there is never the one they reach. *)
Definition insert_one (file_id : str) (m : UploadMetadata) : M unit :=
  fun w =>
  match uploads w !! file_id with
  | Some _ => Some (Ok tt, w)
  | None => Some (Ok tt, put_upload file_id m w)
  end.

Section Service.

Variable X : collaborators.

(** [save_upload(file)], lines 24-68.  [uuid] is what [uuid.uuid4()]
    returned, [name] is [file.filename], [contents] is what
    [await file.read()] returned or raised.  The fields of
    [UploadMetadata] that the constructor call does not pass take the
    defaults of the model, which is declared outside the sources:
    [defaults] carries them. *)
Definition save_upload (defaults : UploadMetadata) (uuid name : str)
  (contents : result str) : M UploadResponse :=
  if negb (endswith (lit ".pdf") name) then raise ONLY_PDF
  else
    let file_id := uuid in
    let saved_filename := file_id ++ lit ".pdf" in
    let file_path := path_join upload_dir saved_filename in
    let! _ := try_except
                (let! contents := lift contents in
                 write_file file_path contents)
                (fun e =>
                   raise (HTTPException 500
                            (lit "Failed to save file: " ++ exn_str e))) in
    let! upload_time := read_clock X in
    let metadata :=
      mkUploadMetadata name file_path UPLOADED upload_time
        (extracted_text_path defaults) (generated_questions_path defaults)
        (progress_current defaults) (progress_total defaults)
        (progress_message defaults) (error defaults) in
    let! _ := insert_one file_id metadata in
    ret (mkUploadResponse file_id name UPLOADED
           (lit "File uploaded successfully") upload_time).

(** The route [upload_pdf] (backend/api/routes/upload.py, lines 24-33). *)
Definition upload_pdf (defaults : UploadMetadata) (uuid name : str)
  (contents : result str) : M UploadResponse :=
  try_except (save_upload defaults uuid name contents)
    (fun e =>
       match e with
       | HTTPException _ _ => raise e
       | Exception _ =>
           raise (HTTPException 500 (lit "Upload failed: " ++ exn_str e))
       end).

End Service.

End Upload.

(** * The vocabulary of the properties *)

(** ** Words of the statements *)

Module Spec.
Import LLMService.

Definition is_dict (v : pyval) : Prop := exists items, v = PDict items.

(** A draft as line 78-80 leave it: the parsed object with [file_id] and
    [created_at] set. *)
Definition stamp (file_id : str) (now : N) (items : list (str * pyval))
  : pyval :=
  PDict (dict_set (lit "created_at") (PDatetime now)
           (dict_set (lit "file_id") (PStr file_id) items)).

Definition stamped_from (file_id : str) (q d : pyval) : Prop :=
  exists items now, q = PDict items /\ d = stamp file_id now items.

(** The clock is the only part of the world the inner loop touches. *)
Definition ticked (n : nat) (w : world) : world :=
  mkWorld (uploads w) (files w) (ticks w + n) (calls w) (trace w).

(** The label of an option of a multiple-choice draft. *)
Definition option_label (o : pyval) : option str :=
  match o with
  | PDict items => match dict_get (lit "label") items with
                   | Some (PStr l) => Some l
                   | _ => None
                   end
  | _ => None
  end.

(** The structural constraints of a QuestionDraft as the spec words them
    (section 3): a known type; for [multiple_choice] exactly four options
    with unique labels and a [correct_answer] that is one of the labels;
    for [true_false] the answer [True] or [False].  The code has no
    counterpart of this check. *)
Definition spec_draft_ok (d : pyval) : bool :=
  match d with
  | PDict items =>
      match dict_get (lit "type") items,
            dict_get (lit "correct_answer") items with
      | Some (PStr t), Some (PStr a) =>
          if str_eqb t (lit "multiple_choice") then
            match dict_get (lit "options") items with
            | Some (PList opts) =>
                match mapM option_label opts with
                | Some labels =>
                    bool_decide (length opts = 4%nat)
                    && bool_decide (NoDup labels)
                    && bool_decide (a ∈ labels)
                | None => false
                end
            | _ => false
            end
          else if str_eqb t (lit "true_false") then
            str_eqb a (lit "True") || str_eqb a (lit "False")
          else str_eqb t (lit "fill_in_blank")
      | _, _ => false
      end
  | _ => false
  end.

(** The object of an answer: it opens with a brace and the brace count
    first returns to zero on its last character. *)
Definition closes_at_end (obj : str) : Prop :=
  (exists body, obj = LBRACE :: body) /\ brace_scan obj 0 0 = len obj - 1.

Definition no_lbrace (s : str) : Prop := Forall (fun c => c <> LBRACE) s.

(** [s] is the object between a prefix without opening brace and any
    suffix. *)
Definition wraps (obj s : str) : Prop :=
  exists p q, s = p ++ obj ++ q /\ no_lbrace p.

(** The statuses written by a sequence of events. *)
Fixpoint statuses (evs : list event) : list ProcessingStatus :=
  match evs with
  | [] => []
  | EvStatus _ s _ :: r => s :: statuses r
  | _ :: r => statuses r
  end.

(** What a computation did to the job [file_id]: the events it added and
    the statuses among them; the job is still stored, its status is the
    last one written (or the one it had), and, when [keeps_error], its
    [error] field is the one it had. *)
Definition did (file_id : str) (ss : list ProcessingStatus)
  (keeps_error : bool) (w w' : world) : Prop :=
  (exists evs, trace w' = trace w ++ evs /\ statuses evs = ss)
  /\ (exists m m', uploads w !! file_id = Some m
                   /\ uploads w' !! file_id = Some m'
                   /\ status m' = default (status m) (last ss)
                   /\ (keeps_error = true -> error m' = error m)).

(** The elements of a list that the inner loop reaches: the dicts before
    the first element that is not one. *)
Fixpoint dict_prefix (qs : list pyval) : list pyval :=
  match qs with
  | PDict items :: r => PDict items :: dict_prefix r
  | _ => []
  end.

(** The elements of a returned document that become drafts. *)
Definition draft_sources (doc : pyval) : list pyval :=
  match py_contains (lit "questions") doc with
  | Ok true =>
      match py_getitem (lit "questions") doc with
      | Ok qs => match py_iter qs with
                 | Ok q_datas => dict_prefix q_datas
                 | Raise _ => []
                 end
      | Raise _ => []
      end
  | _ => []
  end.

(** The same for a provider answer: a chunk whose call or whose parsing
    raises has none. *)
Definition answer_sources (answer : result str) : list pyval :=
  match LLMService.generate_questions answer with
  | Ok doc => draft_sources doc
  | Raise _ => []
  end.

(** A chunk fails when its provider call raises (gateway error), when its
    answer does not parse or yields nothing to append (normalization
    failure); else it succeeds. *)
Definition chunk_fails (answer : result str) : Prop :=
  answer_sources answer = [].

(** Only the progress fields of [m'] may differ from those of [m]. *)
Definition progress_only (m m' : UploadMetadata) : Prop :=
  m' = with_progress (progress_current m') (progress_total m')
         (progress_message m') m.

Definition STARTING : str := lit "Starting question generation...".

Definition GENERATION_FAILED (e : exn) : str :=
  lit "Question generation failed: " ++ exn_str e.

(** No generated set can be read for the job. *)
Definition no_stored_set (m : UploadMetadata) (w : world) : Prop :=
  match generated_questions_path m with
  | Some ((_ :: _) as p) => files w !! p = None
  | _ => True
  end.

Definition extraction_shapes : list (list ProcessingStatus) :=
  [[EXTRACTING; EXTRACTED]; [EXTRACTING; FAILED]].

(** The edges of the spec's state machine (4.5): the chain from Uploaded
    to Ready, and Failed from any state that is not terminal. *)
Definition spec_edge (a b : ProcessingStatus) : bool :=
  match a, b with
  | UPLOADED, EXTRACTING | EXTRACTING, EXTRACTED
  | EXTRACTED, GENERATING | GENERATING, READY => true
  | (UPLOADED | EXTRACTING | EXTRACTED | GENERATING), FAILED => true
  | _, _ => false
  end.

Fixpoint spec_path (p : list ProcessingStatus) : bool :=
  match p with
  | a :: ((b :: _) as r) => spec_edge a b && spec_path r
  | _ => true
  end.

Section Run.

Variable X : collaborators.
Variable file_id : str.

(** The sources of a run over [chunks] whose first provider call is
    number [k]. *)
Fixpoint run_sources (k : nat) (chunks : list str) : list pyval :=
  match chunks with
  | [] => []
  | chunk :: rest =>
      answer_sources (complete X k chunk) ++ run_sources (S k) rest
  end.

(** The progress writes and provider calls of the loop from index [idx]. *)
Fixpoint loop_events (total_chunks : Z) (idx : nat) (chunks : list str)
  : list event :=
  match chunks with
  | [] => []
  | chunk :: rest =>
      EvProgress file_id (Z.of_nat idx + 1) total_chunks
        (Some (chunk_message (Z.of_nat idx + 1) total_chunks))
      :: EvGateway chunk
      :: loop_events total_chunks (S idx) rest
  end.

(** The events of the run between the first and the last status write. *)
Definition progress_events (chunks : list str) : list event :=
  EvProgress file_id 0 (Z.of_nat (length chunks)) (Some STARTING)
  :: loop_events (Z.of_nat (length chunks)) 0 chunks.

(** The response of a successful run. *)
Definition response_of (all_questions : list pyval)
  : result GeneratedQuestionsResponse :=
  match to_questions X all_questions with
  | Ok questions =>
      Ok (mkResponse file_id questions (Z.of_nat (length questions)) READY)
  | Raise e => Raise e
  end.

(** The world once the set is written and the job marked ready. *)
Definition ready_world (m : UploadMetadata) (all_questions : list pyval)
  (w : world) : world :=
  mkWorld
    (<[file_id :=
         with_status READY
           (with_generated_questions_path
              (Some (questions_path_of file_id)) m)]> (uploads w))
    (<[questions_path_of file_id :=
         json_dumps X (PDict [(lit "questions", PList all_questions)])]>
       (files w))
    (ticks w) (calls w) (trace w ++ [EvStatus file_id READY None]).

(** The same job with another status. *)
Definition set_status (s : ProcessingStatus) (m : UploadMetadata) (w : world)
  : world :=
  put_upload file_id (with_status s m) w.

End Run.

End Spec.

Import Spec.

(** ** Words of the further properties *)

Module Vocabulary.

(** Before any [JSONDecodeError], [json.loads] meets two limits of the
    interpreter that the model of the scanner does not have: an integer
    literal of more than 4300 digits raises a plain [ValueError], and a
    document nested deeper than what is left of the recursion limit (1000
    frames by default) raises [RecursionError].  An answer within the
    limits keeps clear of both: it has at most 4300 digits in a row, and
    at most 100 opening brackets and braces in all. *)
Definition is_digit (c : N) : bool := ((48 <=? c) && (c <=? 57))%N.

Fixpoint longest_digit_run (s : str) (run : nat) : nat :=
  match s with
  | [] => run
  | c :: r =>
      if is_digit c then longest_digit_run r (S run)
      else Nat.max run (longest_digit_run r 0)
  end.

Definition openers (s : str) : nat :=
  length (List.filter (fun c => (c =? 91)%N || (c =? 123)%N) s).

Definition within_limits (s : str) : bool :=
  (longest_digit_run s 0 <=? 4300)%nat && (openers s <=? 100)%nat.

(** The answers that the provider returns for the chunks of a run whose
    first call is number [k] are within the limits. *)
Definition answers_within_limits (X : collaborators) (k : nat)
  (chunks : list str) : Prop :=
  forall (i : nat) c s,
    chunks !! i = Some c -> complete X (k + i) c = Ok s ->
    within_limits s = true.

(** [c] is a contiguous piece of [s]. *)
Definition piece_of (c s : str) : Prop := exists a b, s = a ++ c ++ b.

(** A chunk as the loop appends it: not empty, stripped, cut out of the
    text. *)
Definition good_chunk (text c : str) : Prop :=
  c <> [] /\ strip c = c /\ piece_of c text.

Definition short_chunk (max_chunk_size : Z) (c : str) : Prop :=
  len c <= max_chunk_size.

(** The text has no full stop and no blank line. *)
Definition no_break (text : str) : Prop :=
  contains_char Chunker.DOT text = false
  /\ is_infix Chunker.NLNL text = false.

(** The characters of a string that are not white space, in order. *)
Definition visible (s : str) : str :=
  List.filter (fun c => negb (isspace c)) s.

Definition text_path_of (file_id : str) : str :=
  path_join settings.extracted_text_dir (file_id ++ lit ".txt").

(** What a computation on the job [file_id] may change: nothing of another
    job, no file but the job's text and set, and of the job itself neither
    its presence nor the fields written at upload; the trace only grows and
    the two counters never go back. *)
Definition confined (file_id : str) (w w' : world) : Prop :=
  (forall other, other <> file_id -> uploads w' !! other = uploads w !! other)
  /\ (forall p : str, p <> text_path_of file_id ->
        p <> questions_path_of file_id -> files w' !! p = files w !! p)
  /\ (forall m, uploads w !! file_id = Some m ->
        exists m', uploads w' !! file_id = Some m'
                   /\ filename m' = filename m
                   /\ file_path m' = file_path m
                   /\ upload_time m' = upload_time m)
  /\ (uploads w !! file_id = None -> uploads w' !! file_id = None)
  /\ (exists evs, trace w' = trace w ++ evs)
  /\ (ticks w <= ticks w')%nat /\ (calls w <= calls w')%nat.

Definition confines {A} (file_id : str) (c : M A) : Prop :=
  forall w r w', c w = Some (r, w') -> confined file_id w w'.

Definition NO_TEXT : exn :=
  Exception (lit "No text could be extracted from PDF").

Definition pdf_not_found (path : str) : exn :=
  Exception (lit "PDF file not found: " ++ path).

Definition EXTRACTION_FAILED (e : exn) : str :=
  lit "Extraction failed: " ++ exn_str e.

(** What the conversion of the job's PDF gives in a world: the text, or
    the exception that ends the extraction. *)
Definition extraction_outcome (X : collaborators) (m : UploadMetadata)
  (w : world) : result str :=
  match files w !! file_path m with
  | None => Raise (pdf_not_found (file_path m))
  | Some pdf =>
      match to_markdown X (file_path m) pdf with
      | Raise e => Raise e
      | Ok text => match strip text with
                   | [] => Raise NO_TEXT
                   | _ => Ok text
                   end
      end
  end.

(** The world after an extraction that returned [text]: the file holds
    the text as a read in text mode returns it. *)
Definition extracted_world (file_id : str) (m : UploadMetadata) (text : str)
  (w : world) : world :=
  mkWorld
    (<[file_id :=
         with_status EXTRACTED
           (with_extracted_text_path (Some (text_path_of file_id)) m)]>
       (uploads w))
    (<[text_path_of file_id := universal_newlines text]> (files w))
    (ticks w) (calls w)
    (trace w ++ [EvStatus file_id EXTRACTING None;
                 EvStatus file_id EXTRACTED None]).

(** The world after an extraction whose text could not be encoded: the
    text file is there and empty, and the job is FAILED. *)
Definition unencodable_world (file_id : str) (m : UploadMetadata)
  (text : str) (w : world) : world :=
  mkWorld
    (<[file_id :=
         with_error (Some (EXTRACTION_FAILED (UnicodeEncodeError text)))
           (with_status FAILED m)]> (uploads w))
    (<[text_path_of file_id := []]> (files w))
    (ticks w) (calls w)
    (trace w ++ [EvStatus file_id EXTRACTING None;
                 EvStatus file_id FAILED
                   (Some (EXTRACTION_FAILED (UnicodeEncodeError text)))]).

(** The world after a run that only wrote statuses and ended FAILED with
    the error [msg]. *)
Definition failed_world (file_id : str) (m : UploadMetadata)
  (evs : list event) (msg : str) (w : world) : world :=
  mkWorld
    (<[file_id := with_error (Some msg) (with_status FAILED m)]> (uploads w))
    (files w) (ticks w) (calls w) (trace w ++ evs).

(** No extracted text can be read for the job. *)
Definition no_stored_text (m : UploadMetadata) (w : world) : Prop :=
  match extracted_text_path m with
  | Some ((_ :: _) as p) => files w !! p = None \/ files w !! p = Some []
  | _ => True
  end.

(** The chunks handed to the provider by a sequence of events. *)
Fixpoint gateways (evs : list event) : list str :=
  match evs with
  | [] => []
  | EvGateway chunk :: r => chunk :: gateways r
  | _ :: r => gateways r
  end.

Definition pipeline_shapes : list (list ProcessingStatus) :=
  [[EXTRACTING; EXTRACTED; GENERATING; READY];
   [EXTRACTING; EXTRACTED; GENERATING; FAILED; FAILED];
   [EXTRACTING; EXTRACTED; GENERATING; READY; FAILED; FAILED];
   [EXTRACTING; FAILED; FAILED]].

(** The two prefixes the services put before the message of an exception. *)
Definition service_prefixes : list str :=
  [lit "Extraction failed: "; lit "Question generation failed: "].

(** The last write to the job was FAILED with the error [msg]. *)
Definition failed_with (file_id msg : str) (w : world) : Prop :=
  (exists m, uploads w !! file_id = Some m
             /\ status m = FAILED /\ error m = Some msg)
  /\ exists evs, trace w = evs ++ [EvStatus file_id FAILED (Some msg)].

(** The progress a run over [n] chunks leaves on the job [m]. *)
Definition final_progress (n : nat) (m : UploadMetadata) : UploadMetadata :=
  match n with
  | O => with_progress 0 0 (Some STARTING) m
  | S _ => with_progress (Z.of_nat n) (Z.of_nat n)
             (Some (chunk_message (Z.of_nat n) (Z.of_nat n))) m
  end.

Definition same_progress (m m' : UploadMetadata) : Prop :=
  progress_current m' = progress_current m
  /\ progress_total m' = progress_total m
  /\ progress_message m' = progress_message m.

End Vocabulary.

Import Vocabulary.

(** ** Inputs of the examples *)

(** Collaborators and a job for the examples. *)
Module Sample.

Definition X (answers : nat -> result str) : collaborators :=
  mkCollaborators
    (fun _ _ => Ok (lit "Converted text."))
    (fun n _ => answers n)
    (fun n => N.of_nat n)
    (fun _ => lit "<generated set>")
    (fun items => Ok (PDict items)).

Definition fid : str := lit "job-1".
Definition text_path : str := lit "./extracted_text/job-1.txt".

Definition job (s : ProcessingStatus) (err : option str) : UploadMetadata :=
  mkUploadMetadata (lit "notes.pdf") (lit "./uploads/job-1.pdf") s 0%N
    (Some text_path) None 0 0 None err.

Definition w (s : ProcessingStatus) (err : option str) : world :=
  mkWorld {[ fid := job s err ]} {[ text_path := lit "Some text." ]}
    0 0 [].

(** A multiple-choice draft with three options whose answer names no
    option, and a well-formed one. *)
Definition three_options : str :=
  jlit "{'type':'multiple_choice','question':'Q?','options':[{'label':'A','text':'x'},{'label':'B','text':'y'},{'label':'C','text':'z'}],'correct_answer':'D'}".

Definition four_options : str :=
  jlit "{'type':'multiple_choice','question':'Q?','options':[{'label':'A','text':'x'},{'label':'B','text':'y'},{'label':'C','text':'z'},{'label':'D','text':'u'}],'correct_answer':'D'}".

Definition answer_of (drafts : str) : str :=
  jlit "{'questions':[" ++ drafts ++ lit "]}".

(** A sentence that ends [overlap] characters into the first window. *)
Definition stuck_text : str := lit "a.bcdefgh".

(** With the default settings: a paragraph break 200 characters in, and
    no later break in the first 2000 characters. *)
Definition stuck_text_default : str :=
  repeat 97%N 200 ++ [10; 10]%N ++ repeat 97%N 2000.

(** A single JSON object whose string value holds two closing braces. *)
Definition braces_in_string : str :=
  jlit "{'questions':[{'question':'What does }} close?'}]}".

(** The shape of the answer in the spec's example: prose, a fenced JSON
    object, prose. *)
Definition NL : str := [10%N].

Definition fenced (obj : str) : str :=
  (lit "Here you go:" ++ NL ++ lit "```json" ++ NL)
  ++ obj ++ (NL ++ lit "```" ++ NL ++ lit "Hope this helps!").

Definition plain_object : str :=
  jlit "{'questions':[{'type':'true_false','question':'Is it?','correct_answer':'True'}]}".

End Sample.

Module Runs.

Definition PROVIDER_ERROR : exn := Exception (lit "ProviderError").

(** Every call answers one well-formed draft. *)
Definition good : collaborators :=
  Sample.X (fun _ => Ok (Sample.answer_of Sample.four_options)).

(** Every call raises. *)
Definition down : collaborators := Sample.X (fun _ => Raise PROVIDER_ERROR).

(** The second and the fourth call raise. *)
Definition flaky : collaborators :=
  Sample.X (fun n => match n with
                     | 1%nat | 3%nat => Raise PROVIDER_ERROR
                     | _ => Ok (Sample.answer_of Sample.four_options)
                     end).

(** A text of five paragraphs whose breaks fall just before the end of
    each window of the default settings: five chunks. *)
Definition para (n : nat) : str := repeat 120%N n.

Definition long_text : str :=
  para 1990 ++ Chunker.NLNL ++ para 1788 ++ Chunker.NLNL ++ para 1788
  ++ Chunker.NLNL ++ para 1788 ++ Chunker.NLNL ++ para 100.

Definition five_chunks : list str :=
  [para 1990;
   para 200 ++ Chunker.NLNL ++ para 1788;
   para 200 ++ Chunker.NLNL ++ para 1788;
   para 200 ++ Chunker.NLNL ++ para 1788;
   para 200 ++ Chunker.NLNL ++ para 100].

Definition w_long : world :=
  mkWorld {[ Sample.fid := Sample.job EXTRACTED None ]}
    {[ Sample.text_path := long_text ]} 0 0 [].

(** A job that is READY with its set stored. *)
Definition set_path : str := lit "./generated_questions/job-1.json".

Definition ready_job : UploadMetadata :=
  mkUploadMetadata (lit "notes.pdf") (lit "./uploads/job-1.pdf") READY 0%N
    (Some Sample.text_path) (Some set_path) 1 1 None None.

Definition w_ready : world :=
  mkWorld {[ Sample.fid := ready_job ]}
    {[ Sample.text_path := lit "Some text.";
       set_path := jlit "{'questions':[{'type':'true_false','correct_answer':'True'}]}" ]}
    1 1 [].

Definition stored_draft : pyval :=
  PDict [(lit "type", PStr (lit "true_false"));
         (lit "correct_answer", PStr (lit "True"))].

(** The world a run leaves, and whether the run returned a value. *)
Definition world_after {A} (run : option (result A * world)) (w : world)
  : world :=
  match run with
  | Some (_, w') => w'
  | None => w
  end.

Definition returns {A} (run : option (result A * world)) : bool :=
  match run with
  | Some (Ok _, _) => true
  | _ => false
  end.

(** A job that was only uploaded: no text is stored for it yet. *)
Definition uploaded_job : UploadMetadata :=
  mkUploadMetadata (lit "notes.pdf") (lit "./uploads/job-1.pdf") UPLOADED 0%N
    None None 0 0 None None.

Definition w_uploaded : world :=
  mkWorld {[ Sample.fid := uploaded_job ]}
    {[ lit "./uploads/job-1.pdf" := lit "%PDF" ]} 0 0 [].

End Runs.

(** Inputs of the further examples. *)
Module Cases.

(** Three sentences, cut with a window of eight characters. *)
Definition sentences : str := lit "One. Two  three. Four five six".

Definition sentence_chunks : list str :=
  [lit "One."; lit "Two  th"; lit "ree."; lit "Four fi"; lit "ve six"].

Definition letters : str := lit "abcdefghijkl".

(** An id under which nothing is stored in the worlds of the examples. *)
Definition other : str := lit "job-2".

(** An uploaded job whose PDF is not on disk. *)
Definition w_lost : world :=
  mkWorld {[ Sample.fid := Runs.uploaded_job ]} ∅ 0 0 [].

(** The fields of a fresh [UploadMetadata] that [save_upload] leaves to
    the model. *)
Definition defaults : UploadMetadata :=
  mkUploadMetadata [] [] UPLOADED 0%N None None 0 0 None None.

(** The provider of [Runs.flaky], with a [Question] constructor that
    rejects every draft. *)
Definition VALIDATION_ERROR : exn := Exception (lit "ValidationError").

Definition strict : collaborators :=
  mkCollaborators (to_markdown Runs.flaky) (complete Runs.flaky)
    (utcnow Runs.flaky) (json_dumps Runs.flaky)
    (fun _ => Raise VALIDATION_ERROR).

(** A converter whose text has the line ends of DOS. *)
Definition dos_text : str :=
  lit "Line one." ++ [13; 10]%N ++ lit "Line two.".

Definition unix_text : str := lit "Line one." ++ [10%N] ++ lit "Line two.".

Definition dos : collaborators :=
  mkCollaborators (fun _ _ => Ok dos_text) (complete Runs.good)
    (utcnow Runs.good) (json_dumps Runs.good) (Question Runs.good).

End Cases.

(** * Properties *)

(** ** The chunker *)

Module ChunkerFacts.
Import Chunker.

Example chunk_text_short :
  chunk_text 0 (lit "hello") None None = Some [lit "hello"].
Proof. reflexivity. Qed.

Example chunk_text_windows :
  chunk_text 3 (lit "abcdefgh") (Some 4) (Some 1)
  = Some [lit "abcd"; lit "defg"; lit "gh"].
Proof. vm_compute. reflexivity. Qed.

(** An iteration that leaves [start] where it was repeats for ever: no
    number of iterations lets the loop return. *)
Lemma loop_stuck text max_chunk_size overlap s :
  s < len text ->
  (forall cs, start (body text max_chunk_size overlap (LoopState s cs)) = s) ->
  forall fuel cs,
    loop fuel text max_chunk_size overlap (LoopState s cs) = None.
Proof.
  intros Hlt Hfix fuel.
  induction fuel as [|fuel IH]; intros cs; simpl.
  - destruct (Z.ltb_spec s (len text)); [reflexivity | lia].
  - destruct (Z.ltb_spec s (len text)); [| lia].
    specialize (Hfix cs).
    destruct (body text max_chunk_size overlap (LoopState s cs)) as [s' cs'].
    simpl in Hfix. subst s'. apply IH.
Qed.

(** C3 (fails on the code): with [0 < overlap < max_chunk_size] the loop of
    [chunk_text] can stop making progress.  On ["a.bcdefgh"] with
    [max_chunk_size = 4] and [overlap = 2] the first window ends after the
    sentence at index 2, the next window starts at [2 - 2 = 0] again, and
    the call does not return for any number of iterations; the same
    happens with the default settings 2000 and 200. *)
Theorem chunk_text_never_returns :
  (0 < 2 < 4 /\
   forall fuel, chunk_text fuel Sample.stuck_text (Some 4) (Some 2) = None) /\
  (0 < settings.chunk_overlap < settings.max_chunk_size /\
   forall fuel, chunk_text fuel Sample.stuck_text_default None None = None).
Proof.
  split; (split; [vm_compute; split; reflexivity |]); intros fuel.
  - unfold chunk_text.
    replace (len Sample.stuck_text <=? default settings.max_chunk_size (Some 4))
      with false by (vm_compute; reflexivity).
    apply loop_stuck; [vm_compute; reflexivity |].
    intros cs. vm_compute. reflexivity.
  - unfold chunk_text.
    replace (len Sample.stuck_text_default <=? default settings.max_chunk_size None)
      with false by (vm_compute; reflexivity).
    apply loop_stuck; [vm_compute; reflexivity |].
    intros cs. vm_compute. reflexivity.
Qed.

End ChunkerFacts.

(** ** The budget of the JSON scanner *)

Module JsonFacts.
Import Json.
Local Open Scope nat_scope.

Lemma skip_ws_length s : length (skip_ws s) <= length s.
Proof.
  induction s as [|c r IH]; simpl; [lia |].
  destruct (is_ws c); simpl; lia.
Qed.

Lemma scanstring_ok fuel : forall acc s,
  length s < fuel ->
  scanstring fuel acc s <> Budget
  /\ forall x r, scanstring fuel acc s = Got x r -> length r < length s.
Proof.
  induction fuel as [|fuel IH]; intros acc s Hlen; [lia |].
  cbn [scanstring].
  repeat case_match; subst; simpl in Hlen;
    try (split; [discriminate | intros ? ? [= <- <-]; simpl; lia]);
    try (split; [discriminate | discriminate]);
    match goal with
    | |- context [scanstring fuel ?a ?r] =>
        destruct (IH a r) as [Hb Hg]; [simpl; lia |];
        split; [exact Hb |];
        intros x r0 Hx; specialize (Hg x r0 Hx); simpl in *; lia
    end.
Qed.


Lemma span_digits_length s ds r :
  span_digits s = (ds, r) -> length r <= length s.
Proof.
  revert ds r. induction s as [|c s IH]; intros ds r H; simpl in H.
  - injection H as <- <-. simpl. lia.
  - destruct (is_digit c).
    + destruct (span_digits s) as [ds' r'] eqn:E.
      injection H as <- <-. specialize (IH _ _ eq_refl). simpl. lia.
    + injection H as <- <-. simpl. lia.
Qed.

Lemma int_part_length s ip r :
  int_part s = Some (ip, r) -> length r < length s.
Proof.
  unfold int_part. intros H.
  repeat case_match; simplify_eq; simpl;
    try lia;
    match goal with
    | E : span_digits _ = _ |- _ => apply span_digits_length in E; lia
    end.
Qed.

Lemma frac_part_length s fp r :
  frac_part s = (fp, r) -> length r <= length s.
Proof.
  unfold frac_part. intros H.
  repeat case_match; simplify_eq; simpl; try lia;
    match goal with
    | E : span_digits _ = _ |- _ =>
        apply span_digits_length in E; simpl in E; lia
    end.
Qed.

Lemma exp_part_length s ep r :
  exp_part s = (ep, r) -> length r <= length s.
Proof.
  unfold exp_part. intros H.
  repeat case_match; simplify_eq; simpl; try lia;
    match goal with
    | E : span_digits _ = _ |- _ =>
        apply span_digits_length in E; simpl in E; lia
    end.
Qed.

Lemma match_number_ok s :
  match_number s <> Budget
  /\ forall v r, match_number s = Got v r -> length r < length s.
Proof.
  unfold match_number.
  destruct (match s with 45%N :: r => (true, r) | _ => (false, s) end)
    as [neg s1] eqn:E1.
  assert (H1 : length s1 <= length s).
  { repeat case_match; simplify_eq; simpl; lia. }
  destruct (int_part s1) as [[ip s2] |] eqn:E2;
    [| split; [discriminate | discriminate]].
  apply int_part_length in E2.
  destruct (frac_part s2) as [fp s3] eqn:E3. apply frac_part_length in E3.
  destruct (exp_part s3) as [ep s4] eqn:E4. apply exp_part_length in E4.
  split.
  - repeat case_match; discriminate.
  - intros v r H. repeat case_match; simplify_eq; lia.
Qed.

Lemma keyword_length k s r :
  keyword k s = Some r -> lit k <> [] -> s <> [] -> length r < length s.
Proof.
  unfold keyword. intros H Hk Hs.
  destruct (startswith (lit k) s); [| discriminate].
  injection H as <-. rewrite length_drop.
  destruct (lit k); [congruence |]. destruct s; [congruence |].
  simpl. lia.
Qed.

Ltac finish_got :=
  split; [discriminate | intros ? ? [= <- <-]; simpl in *; lia].

Ltac by_budget IH a s :=
  let Hb := fresh "Hb" in
  let Hg := fresh "Hg" in
  let H0 := fresh "H0" in
  destruct (IH a s) as [Hb Hg];
  [simpl in *; lia
  | split; [exact Hb
           | intros ? ? H0; specialize (Hg _ _ H0); simpl in *; lia]].

(** With a budget above twice the length of the input, the scanner never
    stops for lack of budget, and what it leaves is shorter than what it
    was given. *)
Lemma scan_ok fuel :
  (forall s, 2 * length s < fuel ->
     scan_once fuel s <> Budget
     /\ forall v r, scan_once fuel s = Got v r -> length r < length s)
  /\ (forall acc s, 2 * length s + 1 < fuel ->
     parse_array fuel acc s <> Budget
     /\ forall v r, parse_array fuel acc s = Got v r -> length r < length s)
  /\ (forall acc s, 2 * length s < fuel ->
     parse_object fuel acc s <> Budget
     /\ forall v r, parse_object fuel acc s = Got v r -> length r < length s).
Proof.
  induction fuel as [|fuel (IHs & IHa & IHo)]; [repeat split; lia |].
  split; [| split].
  - (* scan_once *)
    intros s Hlen. destruct s as [|c r]; [simpl; split; discriminate |].
    cbn [scan_once].
    destruct (N.eq_dec c 34%N) as [-> | H34].
    { destruct (scanstring_ok (S (length r)) [] r) as [Hb Hg]; [lia |].
      destruct (scanstring (S (length r)) [] r) as [x r' | |] eqn:E;
        [| split; discriminate | congruence].
      split; [discriminate |]. intros v r0 [= <- <-].
      specialize (Hg _ _ eq_refl). simpl. lia. }
    destruct (N.eq_dec c 123%N) as [-> | H123].
    { pose proof (skip_ws_length r) as Hw.
      destruct (skip_ws r) as [|d r'] eqn:E.
      - destruct (IHo [] []) as [Hb Hg]; [simpl in *; lia |].
        split; [exact Hb |]. intros v r0 H0.
        specialize (Hg _ _ H0). simpl in *. lia.
      - destruct (N.eq_dec d 125%N) as [-> | H125].
        + split; [discriminate |]. intros v r0 [= <- <-]. simpl in *. lia.
        + repeat case_match; simplify_eq; try congruence;
            match goal with
            | |- context [parse_object fuel ?a ?l] => by_budget IHo a l
            end. }
    destruct (N.eq_dec c 91%N) as [-> | H91].
    { pose proof (skip_ws_length r) as Hw.
      destruct (skip_ws r) as [|d r'] eqn:E.
      - destruct (IHa [] []) as [Hb Hg]; [simpl in *; lia |].
        split; [exact Hb |]. intros v r0 H0.
        specialize (Hg _ _ H0). simpl in *. lia.
      - destruct (N.eq_dec d 93%N) as [-> | H93].
        + split; [discriminate |]. intros v r0 [= <- <-]. simpl in *. lia.
        + repeat case_match; simplify_eq; try congruence;
            match goal with
            | |- context [parse_array fuel ?a ?l] => by_budget IHa a l
            end. }
    assert (Hrest :
      (match keyword "null" (c :: r), keyword "true" (c :: r),
             keyword "false" (c :: r) with
       | Some r0, _, _ => Got PNone r0
       | _, Some r0, _ => Got (PBool true) r0
       | _, _, Some r0 => Got (PBool false) r0
       | _, _, _ =>
           match keyword "NaN" (c :: r), keyword "Infinity" (c :: r),
                 keyword "-Infinity" (c :: r) with
           | Some r0, _, _ => Got (PFloat (lit "NaN")) r0
           | _, Some r0, _ => Got (PFloat (lit "Infinity")) r0
           | _, _, Some r0 => Got (PFloat (lit "-Infinity")) r0
           | _, _, _ => match_number (c :: r)
           end
       end) <> Budget
      /\ forall v r0,
          (match keyword "null" (c :: r), keyword "true" (c :: r),
                 keyword "false" (c :: r) with
           | Some r0, _, _ => Got PNone r0
           | _, Some r0, _ => Got (PBool true) r0
           | _, _, Some r0 => Got (PBool false) r0
           | _, _, _ =>
               match keyword "NaN" (c :: r), keyword "Infinity" (c :: r),
                     keyword "-Infinity" (c :: r) with
               | Some r0, _, _ => Got (PFloat (lit "NaN")) r0
               | _, Some r0, _ => Got (PFloat (lit "Infinity")) r0
               | _, _, Some r0 => Got (PFloat (lit "-Infinity")) r0
               | _, _, _ => match_number (c :: r)
               end
           end) = Got v r0 -> length r0 < length (c :: r)).
    { destruct (match_number_ok (c :: r)) as [Hb Hg].
      split.
      - repeat case_match; try discriminate; exact Hb.
      - intros v r0 H.
        repeat case_match; simplify_eq;
          try (eapply keyword_length; [eassumption | discriminate
                                      | discriminate]);
          apply (Hg _ _ H). }
    repeat case_match; simplify_eq; try congruence; exact Hrest.
  - (* parse_array *)
    intros acc s Hlen. cbn [parse_array].
    destruct (IHs s) as [Hb Hg]; [lia |].
    destruct (scan_once fuel s) as [v r | |] eqn:E;
      [| split; discriminate | congruence].
    specialize (Hg _ _ eq_refl).
    pose proof (skip_ws_length r) as Hw.
    destruct (skip_ws r) as [|d r'] eqn:Ew; [split; discriminate |].
    destruct (N.eq_dec d 93%N) as [-> | H93].
    { split; [discriminate |]. intros v0 r0 [= <- <-]. simpl in *. lia. }
    destruct (N.eq_dec d 44%N) as [-> | H44].
    { pose proof (skip_ws_length r') as Hw'.
      destruct (IHa (v :: acc) (skip_ws r')) as [Hb' Hg'];
        [simpl in *; lia |].
      split; [exact Hb' |]. intros v0 r0 H0.
      specialize (Hg' _ _ H0). simpl in *. lia. }
    repeat case_match; simplify_eq; try congruence; split; discriminate.
  - (* parse_object *)
    intros acc s Hlen. cbn [parse_object].
    destruct s as [|c r]; [split; discriminate |].
    destruct (N.eq_dec c 34%N) as [-> | H34].
    2:{ repeat case_match; simplify_eq; try congruence; split; discriminate. }
    destruct (scanstring_ok (S (length r)) [] r) as [Hb Hg]; [lia |].
    destruct (scanstring (S (length r)) [] r) as [key r1 | |] eqn:E;
      [| split; discriminate | congruence].
    specialize (Hg _ _ eq_refl).
    pose proof (skip_ws_length r1) as Hw1.
    destruct (skip_ws r1) as [|d r2] eqn:Ew1; [split; discriminate |].
    destruct (N.eq_dec d 58%N) as [-> | H58].
    2:{ repeat case_match; simplify_eq; try congruence; split; discriminate. }
    pose proof (skip_ws_length r2) as Hw2.
    destruct (IHs (skip_ws r2)) as [Hb2 Hg2]; [simpl in *; lia |].
    destruct (scan_once fuel (skip_ws r2)) as [v r3 | |] eqn:E3;
      [| split; discriminate | congruence].
    specialize (Hg2 _ _ eq_refl).
    pose proof (skip_ws_length r3) as Hw3.
    destruct (skip_ws r3) as [|d3 r4] eqn:Ew3; [split; discriminate |].
    destruct (N.eq_dec d3 125%N) as [-> | H125].
    { split; [discriminate |]. intros v0 r0 [= <- <-]. simpl in *. lia. }
    destruct (N.eq_dec d3 44%N) as [-> | H44].
    { pose proof (skip_ws_length r4) as Hw4.
      destruct (IHo (dict_set key v acc) (skip_ws r4)) as [Hb' Hg'];
        [simpl in *; lia |].
      split; [exact Hb' |]. intros v0 r0 H0.
      specialize (Hg' _ _ H0). simpl in *. lia. }
    repeat case_match; simplify_eq; try congruence; split; discriminate.
Qed.

(** [json.loads] never fails for lack of budget: a [Raise] of the model
    is a rejection by the scanner. *)
Theorem scan_budget s : decode s <> Budget.
Proof.
  unfold decode.
  pose proof (skip_ws_length s) as Hw.
  destruct (proj1 (scan_ok (S (2 * length s))) (skip_ws s)) as [Hb _];
    [lia |].
  destruct (scan_once (S (2 * length s)) (skip_ws s)) as [v rest | |];
    [destruct (skip_ws rest); discriminate | discriminate | congruence].
Qed.

Corollary json_loads_raise s e :
  json_loads s = Raise e -> decode s = Reject.
Proof.
  unfold json_loads. pose proof (scan_budget s).
  destruct (decode s); [discriminate | reflexivity | congruence].
Qed.

End JsonFacts.

(** ** Bounding and parsing the provider's answer *)

Module NormalizerFacts.
Import LLMService.

Example braces_in_string_direct :
  json_loads Sample.braces_in_string
  = Ok (PDict [(lit "questions",
                PList [PDict [(lit "question",
                               PStr (lit "What does }} close?"))]])]).
Proof. vm_compute. reflexivity. Qed.

Example braces_in_string_bounded :
  bounded Sample.braces_in_string = jlit "{'questions':[{'question':'What does }}".
Proof. vm_compute. reflexivity. Qed.

(** C10: some answer that is exactly one valid JSON object is rejected.
    In [Sample.braces_in_string] the brace count returns to zero at the second
    closing brace inside the string literal (index 38 of 50), the text is
    cut there, and [json.loads] of the cut text raises, although
    [json.loads] of the whole object returns its one draft. *)
Theorem brace_scan_ignores_strings :
  exists raw drafts,
    json_loads raw = Ok (PDict [(lit "questions", PList drafts)])
    /\ length drafts = 1%nat
    /\ brace_scan raw 0 0 = 38
    /\ len raw = 50
    /\ bounded raw = take 39 raw
    /\ Json.decode (bounded raw) = Json.Reject
    /\ (exists e, parse_response raw = Raise e).
Proof.
  exists Sample.braces_in_string. eexists.
  split; [vm_compute; reflexivity |].
  repeat split; try (vm_compute; reflexivity).
  eexists; vm_compute; reflexivity.
Qed.

(** *** No schema validation *)

Lemma ticked_0 w : ticked 0 w = w.
Proof. destruct w; unfold ticked; simpl. f_equal. lia. Qed.

Lemma ticked_S n w :
  ticked n (mkWorld (uploads w) (files w) (S (ticks w)) (calls w) (trace w))
  = ticked (S n) w.
Proof. unfold ticked; simpl. f_equal. lia. Qed.

(** The inner loop always returns: it appends some drafts, ticks the
    clock once for each, and may end on an exception. *)
Lemma stamp_drafts_returns X file_id qs : forall all_questions w,
  exists added oe,
    stamp_drafts X file_id qs all_questions w
    = Some (Ok (all_questions ++ added, oe), ticked (length added) w)
    /\ (Forall is_dict qs ->
        oe = None /\ Forall2 (stamped_from file_id) qs added).
Proof.
  induction qs as [|q qs IH]; intros all_questions w.
  - exists [], None. simpl. unfold ret.
    rewrite app_nil_r, ticked_0. split; [reflexivity |].
    intros _. split; [reflexivity | constructor].
  - destruct q as [| | | | |items|items|];
      try (exists [], (Some TypeError); simpl; unfold ret;
           rewrite app_nil_r, ticked_0; split; [reflexivity |];
           intros H; inversion H as [|? ? [? Hd] ?]; discriminate Hd).
    simpl. unfold bind, read_clock.
    edestruct (IH (all_questions ++
                     [PDict (dict_set (lit "created_at")
                               (PDatetime (utcnow X (ticks w)))
                               (dict_set (lit "file_id") (PStr file_id)
                                  items))])
                 (mkWorld (uploads w) (files w) (S (ticks w)) (calls w)
                    (trace w)))
      as (added & oe & Hrun & Hall).
    eexists (_ :: added), oe. split.
    + rewrite Hrun. rewrite <- app_assoc. simpl.
      rewrite ticked_S. reflexivity.
    + intros H. inversion H as [|? ? _ Hqs]; subst.
      destruct (Hall Hqs) as [-> HF]. split; [reflexivity |].
      constructor; [| exact HF].
      exists items, (utcnow X (ticks w)). split; reflexivity.
Qed.

Example four_options_ok :
  (d ← match json_loads Sample.four_options with
       | Ok d => Some d
       | Raise _ => None
       end; Some (spec_draft_ok d)) = Some true.
Proof. vm_compute. reflexivity. Qed.

(** C1 (fails on the code): a syntactically valid answer whose only draft
    is a multiple-choice item with three options and an answer that names
    no option is not a normalization failure, and the draft is not dropped:
    [generate_questions] returns the document and the orchestrator appends
    the draft to [all_questions]. *)
Lemma invalid_draft_is_kept :
  exists doc d w',
    LLMService.generate_questions
      (Ok (Sample.answer_of Sample.three_options)) = Ok doc
    /\ collect (Sample.X (fun _ => Raise TypeError)) Sample.fid doc []
         (Sample.w GENERATING None)
       = Some (Ok ([d], None), w')
    /\ spec_draft_ok d = false.
Proof.
  do 3 eexists. split; [vm_compute; reflexivity |].
  split; [vm_compute; reflexivity |].
  vm_compute. reflexivity.
Qed.

(** C1 as amended: normalization is bounding and [json.loads] only.  When
    the returned document is an object whose [questions] is an array of
    objects, every element is appended, in order and whatever its type,
    options or answer, with [file_id] and [created_at] set; when the object
    has no [questions] key nothing is appended and nothing is raised. *)
Theorem normalization_keeps_every_object X file_id raw items all_questions w :
  LLMService.generate_questions (Ok raw) = Ok (PDict items) ->
  (forall qs,
      dict_get (lit "questions") items = Some (PList qs) ->
      Forall is_dict qs ->
      exists added,
        collect X file_id (PDict items) all_questions w
        = Some (Ok (all_questions ++ added, None), ticked (length added) w)
        /\ Forall2 (stamped_from file_id) qs added)
  /\ (dict_get (lit "questions") items = None ->
      collect X file_id (PDict items) all_questions w
      = Some (Ok (all_questions, None), w)).
Proof.
  intros _. split.
  - intros qs Hq Hall. unfold collect, py_contains, py_getitem.
    rewrite Hq.
    rewrite bool_decide_eq_true_2 by (eexists; reflexivity).
    cbn [py_iter].
    destruct (stamp_drafts_returns X file_id qs all_questions w)
      as (added & oe & Hrun & Hok).
    destruct (Hok Hall) as [-> HF].
    exists added. split; [exact Hrun | exact HF].
  - intros Hq. unfold collect, py_contains. rewrite Hq.
    rewrite bool_decide_eq_false_2; [reflexivity |].
    intros [? ?]; discriminate.
Qed.

Lemma normalization_keeps_every_object_witness :
  exists added,
    collect (Sample.X (fun _ => Raise TypeError)) Sample.fid
      (PDict [(lit "questions", PList [PDict [(lit "type", PStr (lit "x"))]])])
      [] (Sample.w GENERATING None)
    = Some (Ok ([] ++ added, None),
            ticked (length added) (Sample.w GENERATING None))
    /\ Forall2 (stamped_from Sample.fid)
         [PDict [(lit "type", PStr (lit "x"))]] added.
Proof.
  refine (proj1 (normalization_keeps_every_object
            (Sample.X (fun _ => Raise TypeError)) Sample.fid
            (jlit "{'questions':[{'type':'x'}]}")
            [(lit "questions", PList [PDict [(lit "type", PStr (lit "x"))]])]
            [] (Sample.w GENERATING None) _) _ _ _).
  - vm_compute. reflexivity.
  - vm_compute. reflexivity.
  - constructor; [eexists; reflexivity | constructor].
Defined.

End NormalizerFacts.

Module BoundingFacts.
Import LLMService.

(** *** An object wrapped in prose and fences *)

Lemma adjust_nonneg n i : 0 <= i -> adjust n i = Z.min i n.
Proof. intros. unfold adjust. destruct (Z.ltb_spec i 0); [lia | reflexivity]. Qed.

Lemma adjust_neg n i : i < 0 -> adjust n i = Z.max (i + n) 0.
Proof. intros. unfold adjust. destruct (Z.ltb_spec i 0); [reflexivity | lia]. Qed.

Lemma slice_from_drop (s : str) a :
  0 <= a -> slice_from s a = drop (Z.to_nat a) s.
Proof.
  intros Ha. unfold slice_from, slice.
  rewrite !adjust_nonneg by (unfold len; lia).
  unfold len. rewrite Z.min_id.
  destruct (Z.le_gt_cases a (Z.of_nat (length s))).
  - rewrite Z.min_l by lia. apply take_ge. rewrite length_drop. lia.
  - rewrite Z.min_r by lia.
    rewrite !drop_ge by lia. apply take_nil.
Qed.

Lemma slice_to_take (s : str) b :
  0 <= b -> slice_to s b = take (Z.to_nat b) s.
Proof.
  intros Hb. unfold slice_to, slice.
  rewrite (adjust_nonneg _ b) by lia.
  rewrite (adjust_nonneg _ 0) by lia.
  unfold len. rewrite (Z.min_l 0) by lia. rewrite Z.sub_0_r.
  change (Z.to_nat 0) with 0%nat. rewrite drop_0.
  destruct (Z.le_gt_cases b (Z.of_nat (length s))).
  - rewrite Z.min_l by lia. reflexivity.
  - rewrite Z.min_r by lia. rewrite !take_ge by lia. reflexivity.
Qed.

Lemma slice_to_minus (s : str) k :
  0 < k <= len s -> slice_to s (- k) = take (length s - Z.to_nat k) s.
Proof.
  unfold len. intros Hk. unfold slice_to, slice.
  rewrite (adjust_nonneg _ 0) by lia. rewrite adjust_neg by lia.
  unfold len. rewrite (Z.min_l 0) by lia. rewrite Z.sub_0_r.
  change (Z.to_nat 0) with 0%nat. rewrite drop_0.
  rewrite Z.max_l by lia. f_equal. lia.
Qed.

Lemma lstrip_app (p r : str) c :
  isspace c = false -> lstrip (p ++ c :: r) = lstrip p ++ c :: r.
Proof.
  intros Hc. induction p as [|a p IH]; simpl.
  - rewrite Hc. reflexivity.
  - destruct (isspace a); [exact IH | reflexivity].
Qed.

Lemma reverse_rev {A} (l : list A) : reverse l = rev l.
Proof. unfold reverse. symmetry. apply rev_alt. Qed.

Lemma rstrip_app (p q : str) c :
  isspace c = false -> rstrip (p ++ c :: q) = p ++ c :: rstrip q.
Proof.
  intros Hc. unfold rstrip. rewrite !reverse_rev.
  rewrite rev_app_distr. cbn [rev]. rewrite <- app_assoc. cbn [app].
  rewrite lstrip_app by exact Hc.
  rewrite rev_app_distr. cbn [rev]. rewrite rev_involutive.
  rewrite <- app_assoc. reflexivity.
Qed.

Lemma lstrip_Forall (P : N -> Prop) (s : str) :
  Forall P s -> Forall P (lstrip s).
Proof.
  induction 1 as [|a s Ha Hs IH]; simpl; [constructor |].
  destruct (isspace a); [exact IH | constructor; assumption].
Qed.

(** A prefix free of [c] ends before the first [c]. *)
Lemma startswith_before (f p r : str) c :
  Forall (fun x => x <> c) f ->
  startswith f (p ++ c :: r) = true -> (length f <= length p)%nat.
Proof.
  revert p. induction f as [|a f IH]; intros p Hf Hs; simpl; [lia |].
  inversion Hf as [|? ? Ha Hf']; subst.
  destruct p as [|b p]; simpl in Hs.
  - apply andb_true_iff in Hs as [Hs _].
    apply N.eqb_eq in Hs. contradiction.
  - apply andb_true_iff in Hs as [_ Hs].
    specialize (IH p Hf' Hs). simpl. lia.
Qed.

Lemma find_char_first (p r : str) c :
  Forall (fun x => x <> c) p -> find_char c (p ++ c :: r) = len p.
Proof.
  unfold len. induction 1 as [|a p Ha Hp IH]; simpl.
  - rewrite N.eqb_refl. reflexivity.
  - destruct (N.eqb_spec a c); [contradiction |].
    rewrite IH.
    destruct (Z.ltb_spec (Z.of_nat (length p)) 0); lia.
Qed.

Lemma brace_scan_app (s t : str) : forall i n j,
  brace_scan s i n = j -> j <> -1 -> brace_scan (s ++ t) i n = j.
Proof.
  induction s as [|a s IH]; intros i n j Hj Hne; simpl in *.
  - congruence.
  - destruct (a =? LBRACE)%N; [apply IH; assumption |].
    destruct (a =? RBRACE)%N; [| apply IH; assumption].
    destruct (n - 1 =? 0); [assumption | apply IH; assumption].
Qed.

Lemma brace_scan_range (s : str) : forall i n,
  brace_scan s i n = -1 \/ i <= brace_scan s i n < i + len s.
Proof.
  unfold len.
  induction s as [|a s IH]; intros i n; simpl; [left; reflexivity |].
  assert (Hrec : forall m, brace_scan s (i + 1) m = -1 \/
            i <= brace_scan s (i + 1) m
              < i + Z.of_nat (S (length s))).
  { intros m. destruct (IH (i + 1) m) as [H | H]; [left; exact H | right; lia]. }
  destruct (a =? LBRACE)%N; [apply Hrec |].
  destruct (a =? RBRACE)%N; [| apply Hrec].
  destruct (n - 1 =? 0); [right; lia | apply Hrec].
Qed.

(** A scan that stops at the last index stops on a closing brace. *)
Lemma brace_scan_last (s : str) : forall i n,
  0 <= i -> s <> [] -> brace_scan s i n = i + len s - 1 ->
  exists front, s = front ++ [RBRACE].
Proof.
  unfold len.
  induction s as [|a s IH]; intros i n Hi Hne Hj; [congruence |].
  simpl in Hj.
  assert (Hrec : forall m,
            brace_scan s (i + 1) m = i + Z.of_nat (S (length s)) - 1 ->
            exists front, a :: s = front ++ [RBRACE]).
  { intros m Hm. destruct s as [|b s'].
    - simpl in Hm. lia.
    - destruct (IH (i + 1) m) as [front Hf]; [lia | congruence | |].
      + rewrite Hm. simpl length. lia.
      + exists (a :: front). rewrite Hf. reflexivity. }
  destruct (N.eqb_spec a LBRACE); [eapply Hrec; eassumption |].
  destruct (N.eqb_spec a RBRACE); [| eapply Hrec; eassumption].
  destruct (n - 1 =? 0); [| eapply Hrec; eassumption].
  destruct s; [exists []; subst a; reflexivity | simpl in Hj; lia].
Qed.

Lemma closes_at_end_shape obj :
  closes_at_end obj -> exists mid, obj = LBRACE :: mid ++ [RBRACE].
Proof.
  intros [[body ->] Hscan].
  destruct (brace_scan_last (LBRACE :: body) 0 0) as [front Hf];
    [lia | discriminate | lia |].
  destruct front as [|a front]; [discriminate |].
  injection Hf as -> ->. exists front. reflexivity.
Qed.

Section Wrapped.

Variables (obj mid : str).
Hypothesis Hshape : obj = LBRACE :: mid ++ [RBRACE].

Lemma wraps_lstrip s : wraps obj s -> wraps obj (lstrip s).
Proof.
  intros (p & q & -> & Hp). rewrite Hshape. cbn [app].
  rewrite lstrip_app by reflexivity.
  exists (lstrip p), q. split; [reflexivity | apply lstrip_Forall, Hp].
Qed.

Lemma wraps_rstrip s : wraps obj s -> wraps obj (rstrip s).
Proof.
  intros (p & q & -> & Hp).
  replace (p ++ obj ++ q) with ((p ++ LBRACE :: mid) ++ RBRACE :: q)
    by (rewrite Hshape; cbn [app]; rewrite <- !app_assoc; reflexivity).
  rewrite rstrip_app by reflexivity.
  exists p, (rstrip q). split; [| exact Hp].
  rewrite Hshape. cbn [app]. rewrite <- !app_assoc. reflexivity.
Qed.

Lemma wraps_strip s : wraps obj s -> wraps obj (strip s).
Proof. intros H. apply wraps_rstrip, wraps_lstrip, H. Qed.

Lemma wraps_drop_prefix f s :
  no_lbrace f -> wraps obj s -> startswith f s = true ->
  wraps obj (slice_from s (len f)).
Proof.
  intros Hf (p & q & -> & Hp) Hs.
  rewrite slice_from_drop by (unfold len; lia).
  unfold len. rewrite Nat2Z.id.
  assert (Hle : (length f <= length p)%nat).
  { rewrite Hshape in Hs. cbn [app] in Hs.
    eapply startswith_before; eassumption. }
  rewrite drop_app_le by exact Hle.
  exists (drop (length f) p), q. split; [reflexivity |].
  apply Forall_drop, Hp.
Qed.

Lemma wraps_drop_suffix s :
  wraps obj s -> endswith FENCE s = true -> wraps obj (slice_to s (-3)).
Proof.
  intros (p & q & -> & Hp) Hs.
  assert (Hle : (3 <= length q)%nat).
  { unfold endswith in Hs. rewrite !reverse_rev in Hs.
    rewrite Hshape in Hs. cbn [app] in Hs.
    rewrite !rev_app_distr in Hs. cbn [rev app] in Hs.
    rewrite !rev_app_distr in Hs. cbn [rev app] in Hs.
    rewrite <- !app_assoc in Hs. cbn [app] in Hs.
    rewrite <- (length_rev q).
    change 3%nat with (length (rev FENCE)).
    eapply (startswith_before _ _ _ RBRACE); [| exact Hs].
    repeat constructor; discriminate. }
  rewrite (slice_to_minus _ 3)
    by (unfold len; rewrite !length_app; lia).
  exists p, (take (length q - 3) q). split; [| exact Hp].
  rewrite !app_assoc.
  rewrite take_app_ge by (rewrite !length_app in *; simpl; lia).
  f_equal. f_equal. rewrite !length_app. simpl. lia.
Qed.

Lemma wraps_clean s : wraps obj s -> wraps obj (clean s).
Proof.
  intros H. unfold clean.
  apply wraps_strip.
  assert (H1 := wraps_strip _ H).
  set (r1 := strip s) in *.
  assert (H2 : wraps obj (if startswith FENCE_JSON r1
                          then slice_from r1 7 else r1)).
  { destruct (startswith FENCE_JSON r1) eqn:E; [| exact H1].
    apply (wraps_drop_prefix FENCE_JSON); [| exact H1 | exact E].
    repeat constructor; discriminate. }
  set (r2 := if startswith FENCE_JSON r1 then _ else _) in *.
  assert (H3 : wraps obj (if startswith FENCE r2
                          then slice_from r2 3 else r2)).
  { destruct (startswith FENCE r2) eqn:E; [| exact H2].
    apply (wraps_drop_prefix FENCE); [| exact H2 | exact E].
    repeat constructor; discriminate. }
  set (r3 := if startswith FENCE r2 then _ else _) in *.
  destruct (endswith FENCE r3) eqn:E; [| exact H3].
  apply wraps_drop_suffix; assumption.
Qed.

Lemma from_first_brace_wraps s :
  wraps obj s -> exists q, from_first_brace s = obj ++ q.
Proof.
  intros (p & q & -> & Hp). exists q. unfold from_first_brace.
  rewrite Hshape. cbn [app].
  rewrite find_char_first by exact Hp.
  destruct (Z.gtb_spec (len p) 0) as [Hpos | Hz].
  - rewrite slice_from_drop by lia. unfold len. rewrite Nat2Z.id.
    rewrite drop_app_length. reflexivity.
  - unfold len in Hz. destruct p; [reflexivity | simpl in Hz; lia].
Qed.

End Wrapped.

Lemma to_json_end_closed obj q :
  closes_at_end obj -> to_json_end (obj ++ q) = obj.
Proof.
  intros [[body Hb] Hscan]. unfold to_json_end.
  assert (Hlen : 0 < len obj) by (subst obj; unfold len; simpl; lia).
  rewrite (brace_scan_app obj q 0 0 _ Hscan) by lia.
  destruct (Z.eqb_spec (len obj - 1) (-1)); [lia |]. cbn [negb].
  rewrite slice_to_take by lia.
  replace (Z.to_nat (len obj - 1 + 1)) with (length obj)
    by (unfold len; lia).
  apply take_app_length.
Qed.

Example fenced_plain_object :
  parse_response (Sample.fenced Sample.plain_object) = json_loads Sample.plain_object.
Proof. vm_compute. reflexivity. Qed.

(** C8 (fails on the code as stated): wrapping alone does not make the
    answer recoverable.  In the very shape of the spec's example, an object
    with closing braces inside a string value is parsed directly but its
    wrapped form is rejected; and so is a plain object when the leading
    prose itself holds an opening brace. *)
Lemma wrapped_object_not_recovered :
  (exists doc e,
      json_loads Sample.braces_in_string = Ok doc
      /\ parse_response (Sample.fenced Sample.braces_in_string) = Raise e)
  /\ (exists doc e,
      json_loads Sample.plain_object = Ok doc
      /\ parse_response
           (lit "Here is the set {Q1}:" ++ Sample.NL ++ lit "```json" ++ Sample.NL
            ++ Sample.plain_object ++ Sample.NL ++ lit "```" ++ Sample.NL
            ++ lit "Hope this helps!") = Raise e).
Proof.
  split; do 2 eexists; split; vm_compute; reflexivity.
Qed.

(** C8 as amended: when the text before the object holds no opening brace
    and the brace count of the object first returns to zero on its last
    character (so no unbalanced brace inside its strings), whatever prose
    and fences surround the object, the text handed to [json.loads] is
    exactly the object, and the answer parses to what the bare object
    parses to. *)
Theorem wrapped_object_is_recovered pre obj post :
  no_lbrace pre -> closes_at_end obj ->
  bounded (pre ++ obj ++ post) = obj
  /\ forall doc, json_loads obj = Ok doc ->
       parse_response (pre ++ obj ++ post) = Ok doc.
Proof.
  intros Hpre Hobj.
  assert (Hb : bounded (pre ++ obj ++ post) = obj).
  { destruct (closes_at_end_shape obj Hobj) as [mid Hshape].
    unfold bounded.
    destruct (from_first_brace_wraps obj mid Hshape
                (clean (pre ++ obj ++ post))) as [q Hq].
    { apply (wraps_clean obj mid Hshape). exists pre, post. auto. }
    rewrite Hq. apply to_json_end_closed, Hobj. }
  split; [exact Hb |].
  intros doc Hdoc. unfold parse_response. rewrite Hb, Hdoc. reflexivity.
Qed.

Lemma wrapped_object_is_recovered_witness :
  bounded (Sample.fenced Sample.plain_object) = Sample.plain_object
  /\ forall doc, json_loads Sample.plain_object = Ok doc ->
       parse_response (Sample.fenced Sample.plain_object) = Ok doc.
Proof.
  apply (wrapped_object_is_recovered
           (lit "Here you go:" ++ Sample.NL ++ lit "```json" ++ Sample.NL) Sample.plain_object
           (Sample.NL ++ lit "```" ++ Sample.NL ++ lit "Hope this helps!")).
  - vm_compute. repeat constructor; discriminate.
  - split; [eexists; vm_compute; reflexivity | vm_compute; reflexivity].
Defined.

End BoundingFacts.

Import NormalizerFacts.

(** ** The orchestrator *)

Lemma statuses_app a b : statuses (a ++ b) = statuses a ++ statuses b.
Proof.
  induction a as [|e a IH]; [reflexivity |].
  destruct e; simpl; rewrite IH; reflexivity.
Qed.

Lemma did_refl file_id w :
  is_Some (uploads w !! file_id) -> did file_id [] true w w.
Proof.
  intros [m Hm]. split.
  - exists []. rewrite app_nil_r. split; reflexivity.
  - exists m, m. auto.
Qed.

Lemma last_app_default {A} (a b : list A) (d : A) :
  default d (last (a ++ b)) = default (default d (last a)) (last b).
Proof.
  destruct b as [|x b] using rev_ind.
  - rewrite app_nil_r. reflexivity.
  - rewrite app_assoc, !last_snoc. reflexivity.
Qed.

Lemma did_trans file_id ss1 ss2 k1 k2 w w1 w2 :
  did file_id ss1 k1 w w1 -> did file_id ss2 k2 w1 w2 ->
  did file_id (ss1 ++ ss2) (k1 && k2) w w2.
Proof.
  intros ((e1 & Ht1 & Hs1) & m & m1 & Hm & Hm1 & Hst1 & Hk1)
         ((e2 & Ht2 & Hs2) & m1' & m2 & Hm1' & Hm2 & Hst2 & Hk2).
  rewrite Hm1 in Hm1'. injection Hm1' as <-.
  split.
  - exists (e1 ++ e2). rewrite Ht2, Ht1, app_assoc, statuses_app.
    split; congruence.
  - exists m, m2. repeat split; try assumption.
    + rewrite last_app_default, <- Hst1. exact Hst2.
    + intros Hk. apply andb_true_iff in Hk as [H1 H2].
      rewrite Hk2, Hk1 by assumption. reflexivity.
Qed.

Lemma did_step file_id ss1 ss2 k1 k2 ss k w w1 w2 :
  did file_id ss1 k1 w w1 -> did file_id ss2 k2 w1 w2 ->
  ss = ss1 ++ ss2 -> k = k1 && k2 ->
  did file_id ss k w w2.
Proof. intros H1 H2 -> ->. eapply did_trans; eassumption. Qed.

Lemma did_weaken file_id ss k w w' :
  did file_id ss k w w' -> did file_id ss false w w'.
Proof.
  intros (H1 & m & m' & Hm & Hm' & Hs & _). split; [exact H1 |].
  exists m, m'. repeat split; try assumption. discriminate.
Qed.

Lemma did_stored file_id ss k w w' :
  did file_id ss k w w' -> is_Some (uploads w' !! file_id).
Proof. intros (_ & m & m' & _ & Hm' & _). eauto. Qed.

Section OrchestratorFacts.

Variable X : collaborators.
Variable file_id : str.

Local Abbreviation run_sources := (Spec.run_sources X).
Local Abbreviation loop_events := (Spec.loop_events file_id).
Local Abbreviation progress_events := (Spec.progress_events file_id).
Local Abbreviation response_of := (Spec.response_of X file_id).
Local Abbreviation ready_world := (Spec.ready_world X file_id).
Local Abbreviation set_status := (Spec.set_status file_id).

Lemma bind_inv {A B} (c : M A) (k : A -> M B) w r w' :
  bind c k w = Some (r, w') ->
  (exists a w1, c w = Some (Ok a, w1) /\ k a w1 = Some (r, w'))
  \/ (exists e, c w = Some (Raise e, w') /\ r = Raise e).
Proof.
  unfold bind. destruct (c w) as [[[a | e] w1] |]; intros H.
  - left. eauto.
  - right. injection H as <- <-. eauto.
  - discriminate.
Qed.

Lemma try_except_inv {A} (c : M A) (h : exn -> M A) w r w' :
  try_except c h w = Some (r, w') ->
  (exists a, c w = Some (Ok a, w') /\ r = Ok a)
  \/ (exists e w1, c w = Some (Raise e, w1) /\ h e w1 = Some (r, w')).
Proof.
  unfold try_except. destruct (c w) as [[[a | e] w1] |]; intros H.
  - left. injection H as <- <-. eauto.
  - right. eauto.
  - discriminate.
Qed.

(** *** The writes of [UploadService] on a stored job *)

Lemma update_status_stored s err w m :
  uploads w !! file_id = Some m ->
  update_status file_id s err w
  = Some (Ok tt,
          log (EvStatus file_id s err)
            (put_upload file_id
               (if truthy err then with_error err (with_status s m)
                else with_status s m) w)).
Proof. intros H. unfold update_status. rewrite H. reflexivity. Qed.

Lemma update_status_did s err w :
  is_Some (uploads w !! file_id) ->
  exists w', update_status file_id s err w = Some (Ok tt, w')
             /\ did file_id [s] (negb (truthy err)) w w'.
Proof.
  intros [m Hm]. eexists. split; [apply update_status_stored, Hm |].
  split.
  - exists [EvStatus file_id s err]. split; reflexivity.
  - eexists m, _. split; [exact Hm |].
    split; [simpl; apply lookup_insert_eq |].
    destruct (truthy err); simpl; split; auto; discriminate.
Qed.

Lemma update_progress_did current total message w :
  is_Some (uploads w !! file_id) ->
  exists w', update_progress file_id current total message w
             = Some (Ok tt, w')
             /\ did file_id [] true w w'.
Proof.
  intros [m Hm]. unfold update_progress. rewrite Hm.
  eexists. split; [reflexivity |]. split.
  - eexists [_]. split; reflexivity.
  - eexists m, _. split; [exact Hm |].
    split; [simpl; apply lookup_insert_eq | simpl; auto].
Qed.

Lemma set_extracted_text_path_did p w :
  is_Some (uploads w !! file_id) ->
  exists w', set_extracted_text_path file_id p w = Some (Ok tt, w')
             /\ did file_id [] true w w'.
Proof.
  intros [m Hm]. unfold set_extracted_text_path. rewrite Hm.
  eexists. split; [reflexivity |]. split.
  - exists []. rewrite app_nil_r. split; reflexivity.
  - eexists m, _. split; [exact Hm |].
    split; [simpl; apply lookup_insert_eq | simpl; auto].
Qed.

Lemma set_generated_questions_path_did p w :
  is_Some (uploads w !! file_id) ->
  exists w', set_generated_questions_path file_id p w = Some (Ok tt, w')
             /\ did file_id [] true w w'.
Proof.
  intros [m Hm]. unfold set_generated_questions_path. rewrite Hm.
  eexists. split; [reflexivity |]. split.
  - exists []. rewrite app_nil_r. split; reflexivity.
  - eexists m, _. split; [exact Hm |].
    split; [simpl; apply lookup_insert_eq | simpl; auto].
Qed.

Lemma write_file_did path content w :
  is_Some (uploads w !! file_id) ->
  exists w', write_file path content w = Some (Ok tt, w')
             /\ did file_id [] true w w'.
Proof.
  intros [m Hm]. eexists. split; [reflexivity |]. split.
  - exists []. rewrite app_nil_r. split; reflexivity.
  - exists m, m. simpl. auto.
Qed.

(** *** One chunk and the loop over the chunks *)

Lemma statuses_loop_events total idx chunks :
  statuses (loop_events total idx chunks) = [].
Proof.
  revert idx. induction chunks as [|c r IH]; intros idx; simpl; auto.
Qed.

Lemma stamp_drafts_prefix qs : forall all_questions w,
  exists added oe,
    stamp_drafts X file_id qs all_questions w
    = Some (Ok (all_questions ++ added, oe), ticked (length added) w)
    /\ Forall2 (stamped_from file_id) (dict_prefix qs) added.
Proof.
  induction qs as [|q qs IH]; intros all_questions w.
  - exists [], None. simpl. unfold ret.
    rewrite app_nil_r, ticked_0. split; [reflexivity | constructor].
  - destruct q as [| | | | |items|items|];
      try (exists [], (Some TypeError); simpl; unfold ret;
           rewrite app_nil_r, ticked_0; split; [reflexivity | constructor]).
    simpl. unfold bind, read_clock.
    edestruct (IH (all_questions ++
                     [PDict (dict_set (lit "created_at")
                               (PDatetime (utcnow X (ticks w)))
                               (dict_set (lit "file_id") (PStr file_id)
                                  items))])
                 (mkWorld (uploads w) (files w) (S (ticks w)) (calls w)
                    (trace w)))
      as (added & oe & Hrun & Hall).
    eexists (_ :: added), oe. split.
    + rewrite Hrun. rewrite <- app_assoc. simpl.
      rewrite ticked_S. reflexivity.
    + constructor; [| exact Hall].
      exists items, (utcnow X (ticks w)). split; reflexivity.
Qed.

Lemma collect_returns doc all_questions w :
  exists added oe,
    collect X file_id doc all_questions w
    = Some (Ok (all_questions ++ added, oe), ticked (length added) w)
    /\ Forall2 (stamped_from file_id) (draft_sources doc) added.
Proof.
  unfold collect, draft_sources.
  assert (Hnone : forall oe : option exn,
    exists added oe',
      ret (all_questions, oe) w
      = Some (Ok (all_questions ++ added, oe'), ticked (length added) w)
      /\ Forall2 (stamped_from file_id) [] added).
  { intros oe. exists [], oe. unfold ret. rewrite app_nil_r, ticked_0.
    split; [reflexivity | constructor]. }
  destruct (py_contains (lit "questions") doc) as [[|] | e]; try apply Hnone.
  destruct (py_getitem (lit "questions") doc) as [qs | e]; try apply Hnone.
  destruct (py_iter qs) as [q_datas | e]; try apply Hnone.
  apply stamp_drafts_prefix.
Qed.

Lemma chunk_body_spec total idx chunk all_questions w m :
  uploads w !! file_id = Some m ->
  exists added oe,
    chunk_body X file_id total idx chunk all_questions w
    = Some (Ok (all_questions ++ added, oe),
            mkWorld
              (<[file_id :=
                   with_progress (Z.of_nat idx + 1) total
                     (Some (chunk_message (Z.of_nat idx + 1) total)) m]>
                 (uploads w))
              (files w) (ticks w + length added) (S (calls w))
              (trace w ++ loop_events total idx [chunk]))
    /\ Forall2 (stamped_from file_id)
         (answer_sources (complete X (calls w) chunk)) added.
Proof.
  intros Hm. unfold chunk_body, bind, update_progress. rewrite Hm.
  assert (Ht : truthy (Some (chunk_message (Z.of_nat idx + 1) total)) = true)
    by reflexivity.
  rewrite Ht. unfold call_provider, answer_sources, log, put_upload.
  cbn [uploads files ticks calls trace].
  destruct (LLMService.generate_questions (complete X (calls w) chunk))
    as [doc | e].
  - match goal with |- context [collect _ _ _ _ ?w1] =>
      destruct (collect_returns doc all_questions w1)
        as (added & oe & Hrun & Hsrc) end.
    exists added, oe. split; [| exact Hsrc].
    rewrite Hrun. unfold ticked. cbn [uploads files ticks calls trace
      Spec.loop_events]. rewrite <- app_assoc. reflexivity.
  - exists [], (Some e). unfold ret. rewrite app_nil_r, Nat.add_0_r.
    cbn [Spec.loop_events]. rewrite <- app_assoc.
    split; [reflexivity | constructor].
Qed.

Lemma with_progress_twice c1 t1 m1 c2 t2 m2 m :
  with_progress c2 t2 m2 (with_progress c1 t1 m1 m) = with_progress c2 t2 m2 m.
Proof. reflexivity. Qed.

Lemma progress_only_refl m : progress_only m m.
Proof. destruct m; reflexivity. Qed.

Lemma progress_only_step c t msg m m' :
  progress_only (with_progress c t msg m) m' -> progress_only m m'.
Proof. unfold progress_only. intros H. rewrite H at 1. reflexivity. Qed.

Lemma for_chunks_spec total chunks : forall idx all_questions w m,
  uploads w !! file_id = Some m ->
  exists added m',
    for_chunks X file_id total idx chunks all_questions w
    = Some (Ok (all_questions ++ added),
            mkWorld (<[file_id := m']> (uploads w)) (files w)
              (ticks w + length added) (calls w + length chunks)
              (trace w ++ loop_events total idx chunks))
    /\ progress_only m m'
    /\ Forall2 (stamped_from file_id) (run_sources (calls w) chunks) added.
Proof.
  induction chunks as [|chunk rest IH]; intros idx all_questions w m Hm.
  - exists [], m. simpl. unfold ret.
    rewrite !app_nil_r, !Nat.add_0_r, insert_id by exact Hm.
    split; [destruct w; reflexivity |].
    split; [apply progress_only_refl | constructor].
  - destruct (chunk_body_spec total idx chunk all_questions w m Hm)
      as (a1 & oe & Hrun & Hsrc).
    cbn [for_chunks]. unfold bind at 1. rewrite Hrun. cbn [fst].
    match goal with |- context [for_chunks _ _ _ _ _ _ ?w1] =>
      edestruct (IH (S idx) (all_questions ++ a1) w1) as (a2 & m' & Hrest & Hp & Hs2)
    end.
    { cbn [uploads]. apply lookup_insert_eq. }
    exists (a1 ++ a2), m'. rewrite Hrest.
    cbn [uploads files ticks calls trace Spec.run_sources].
    rewrite insert_insert_eq, <- !app_assoc, length_app.
    split; [| split].
    + do 3 f_equal; [lia | simpl; lia].
    + eapply progress_only_step, Hp.
    + apply Forall2_app; assumption.
Qed.

(** *** After the loop *)

Lemma finish_empty w : finish X file_id [] w = Some (Raise NO_QUESTIONS, w).
Proof. reflexivity. Qed.

Lemma finish_nonempty all_questions w m :
  uploads w !! file_id = Some m -> all_questions <> [] ->
  finish X file_id all_questions w
  = Some (response_of all_questions, ready_world m all_questions w).
Proof.
  intros Hm Hne. unfold finish.
  destruct all_questions as [|q qs]; [congruence |].
  unfold bind at 1. unfold write_file.
  unfold bind at 1. unfold set_generated_questions_path.
  cbn [uploads files ticks calls trace]. rewrite Hm.
  unfold bind at 1. unfold update_status, put_upload. cbn [uploads].
  rewrite lookup_insert_eq. cbn [truthy].
  unfold log, put_upload. cbn [uploads files ticks calls trace].
  rewrite insert_insert_eq.
  unfold bind, lift, Spec.response_of, Spec.ready_world.
  destruct (to_questions X (q :: qs)); reflexivity.
Qed.

Lemma generate_from_text_spec fuel text chunks w m :
  uploads w !! file_id = Some m ->
  Chunker.chunk_text fuel text None None = Some chunks ->
  exists added m',
    progress_only m m'
    /\ Forall2 (stamped_from file_id) (run_sources (calls w) chunks) added
    /\ generate_from_text X fuel file_id text w
       = finish X file_id added
           (mkWorld (<[file_id := m']> (uploads w)) (files w)
              (ticks w + length added) (calls w + length chunks)
              (trace w ++ progress_events chunks)).
Proof.
  intros Hm Hc. unfold generate_from_text.
  unfold bind at 1. rewrite Hc.
  unfold bind at 1. unfold update_progress. rewrite Hm.
  cbn [truthy lit]. unfold log, put_upload.
  cbn [uploads files ticks calls trace].
  unfold bind at 1.
  match goal with |- context [for_chunks _ _ ?t ?i _ ?a ?w1] =>
    edestruct (for_chunks_spec t chunks i a w1) as (added & m' & Hrun & Hp & Hs)
  end.
  { cbn [uploads]. apply lookup_insert_eq. }
  exists added, m'. split; [eapply progress_only_step, Hp |].
  split; [exact Hs |].
  rewrite Hrun.
  cbn [uploads files ticks calls trace app].
  rewrite insert_insert_eq, <- app_assoc. reflexivity.
Qed.

Lemma statuses_progress_events chunks : statuses (progress_events chunks) = [].
Proof. unfold Spec.progress_events. simpl. apply statuses_loop_events. Qed.

Lemma progress_only_fields m m' :
  progress_only m m' ->
  status m' = status m /\ error m' = error m
  /\ generated_questions_path m' = generated_questions_path m
  /\ extracted_text_path m' = extracted_text_path m
  /\ file_path m' = file_path m.
Proof. intros ->. repeat split; reflexivity. Qed.

(** What the part after the text did, in the terms of [did]. *)
Lemma generate_from_text_did fuel text w r w' :
  is_Some (uploads w !! file_id) ->
  generate_from_text X fuel file_id text w = Some (r, w') ->
  (exists e, r = Raise e /\ did file_id [] true w w')
  \/ (did file_id [READY] true w w').
Proof.
  intros [m Hm] Hrun.
  destruct (Chunker.chunk_text fuel text None None) as [chunks |] eqn:Hc.
  2:{ unfold generate_from_text, bind in Hrun. rewrite Hc in Hrun.
      discriminate. }
  destruct (generate_from_text_spec fuel text chunks w m Hm Hc)
    as (added & m' & Hp & _ & Heq).
  rewrite Heq in Hrun. clear Heq.
  destruct (progress_only_fields _ _ Hp) as (Hst & Her & _).
  destruct added as [|q qs].
  - rewrite finish_empty in Hrun. injection Hrun as <- <-.
    left. eexists. split; [reflexivity |]. split.
    + eexists. split; [reflexivity | apply statuses_progress_events].
    + exists m, m'. cbn [uploads]. rewrite lookup_insert_eq. auto.
  - erewrite finish_nonempty in Hrun;
      [| cbn [uploads]; apply lookup_insert_eq | discriminate].
    injection Hrun as <- <-. right. split.
    + eexists. unfold Spec.ready_world. cbn [trace]. rewrite <- app_assoc.
      split; [reflexivity |].
      rewrite statuses_app, statuses_progress_events. reflexivity.
    + eexists m, _. unfold Spec.ready_world. cbn [uploads].
      rewrite lookup_insert_eq. repeat split; auto.
Qed.

(** *** Extraction *)

Lemma get_upload_status_stored w m :
  uploads w !! file_id = Some m ->
  get_upload_status file_id w = Some (Ok m, w).
Proof. intros H. unfold get_upload_status. rewrite H. reflexivity. Qed.

Lemma get_extracted_text_pure w :
  is_Some (uploads w !! file_id) ->
  exists o, get_extracted_text file_id w = Some (Ok o, w).
Proof.
  intros [m Hm]. unfold get_extracted_text, bind.
  rewrite (get_upload_status_stored w m Hm).
  destruct (extracted_text_path m) as [[|c p] |];
    [eexists; reflexivity | | eexists; reflexivity].
  case_match; eexists; reflexivity.
Qed.

Lemma extract_body_did w r w' :
  is_Some (uploads w !! file_id) ->
  extract_body X file_id w = Some (r, w') ->
  (exists t, r = Ok t /\ did file_id [EXTRACTED] true w w')
  \/ (exists e, r = Raise e /\ did file_id [] true w w').
Proof.
  intros Hj Hrun. pose proof Hj as [m Hm].
  unfold extract_body in Hrun. unfold bind at 1 in Hrun.
  rewrite (get_upload_status_stored w m Hm) in Hrun.
  destruct (files w !! file_path m) as [pdf |].
  2:{ injection Hrun as <- <-. right. eexists. split; [reflexivity |].
      apply did_refl, Hj. }
  unfold bind at 1, lift in Hrun.
  destruct (to_markdown X (file_path m) pdf) as [md_text | e].
  2:{ injection Hrun as <- <-. right. eexists. split; [reflexivity |].
      apply did_refl, Hj. }
  destruct (strip md_text).
  { injection Hrun as <- <-. right. eexists. split; [reflexivity |].
    apply did_refl, Hj. }
  unfold bind at 1 in Hrun. unfold write_text in Hrun.
  destruct (encodable md_text).
  2:{ injection Hrun as <- <-. right. eexists. split; [reflexivity |].
      split.
      - exists []. cbn [trace]. rewrite app_nil_r. split; reflexivity.
      - exists m, m. cbn [uploads]. auto. }
  unfold bind at 1 in Hrun. unfold set_extracted_text_path in Hrun.
  cbn [uploads] in Hrun. rewrite Hm in Hrun.
  unfold bind at 1 in Hrun. unfold update_status, put_upload in Hrun.
  cbn [uploads] in Hrun. rewrite lookup_insert_eq in Hrun.
  cbn [truthy] in Hrun. unfold bind, ret, log, put_upload in Hrun.
  cbn [uploads files ticks calls trace] in Hrun.
  injection Hrun as <- <-. left. eexists. split; [reflexivity |]. split.
  - cbn [trace]. eexists. split; reflexivity.
  - eexists m, _. cbn [uploads]. rewrite lookup_insert_eq.
    repeat split; auto.
Qed.

Lemma extract_text_from_pdf_did w r w' :
  is_Some (uploads w !! file_id) ->
  extract_text_from_pdf X file_id w = Some (r, w') ->
  (exists t, r = Ok t /\ did file_id [EXTRACTING; EXTRACTED] true w w')
  \/ (exists e, r = Raise e /\ did file_id [EXTRACTING; FAILED] false w w').
Proof.
  intros Hj Hrun. unfold extract_text_from_pdf in Hrun.
  destruct (update_status_did EXTRACTING None w Hj) as (w1 & H1 & D1).
  unfold bind at 1 in Hrun. rewrite H1 in Hrun.
  apply try_except_inv in Hrun
    as [(t & Hb & ->) | (e & w2 & Hb & Hh)].
  - destruct (extract_body_did w1 _ _ (did_stored _ _ _ _ _ D1) Hb)
      as [(? & _ & D2) | (? & He & _)]; [| discriminate].
    left. eexists. split; [reflexivity |].
    eapply did_step; [exact D1 | exact D2 | |]; reflexivity.
  - destruct (extract_body_did w1 _ _ (did_stored _ _ _ _ _ D1) Hb)
      as [(? & He & _) | (? & _ & D2)]; [discriminate |].
    destruct (update_status_did FAILED
                (Some (lit "Extraction failed: " ++ exn_str e)) w2
                (did_stored _ _ _ _ _ D2)) as (w3 & H3 & D3).
    unfold bind in Hh. rewrite H3 in Hh. unfold raise in Hh.
    injection Hh as <- <-. right. eexists. split; [reflexivity |].
    eapply did_step;
      [eapply did_step; [exact D1 | exact D2 | |] | exact (did_weaken _ _ _ _ _ D3) | |];
      reflexivity.
Qed.

(** *** The whole run *)

Lemma generate_body_did fuel w r w' :
  is_Some (uploads w !! file_id) ->
  generate_body X fuel file_id w = Some (r, w') ->
  (exists resp ss, r = Ok resp
     /\ In ss [[GENERATING; READY];
               [GENERATING; EXTRACTING; EXTRACTED; READY]]
     /\ did file_id ss true w w')
  \/ (exists e ss, r = Raise e
     /\ In ss [[GENERATING]; [GENERATING; READY];
               [GENERATING; EXTRACTING; EXTRACTED];
               [GENERATING; EXTRACTING; EXTRACTED; READY];
               [GENERATING; EXTRACTING; FAILED]]
     /\ did file_id ss false w w').
Proof.
  intros Hj Hrun. unfold generate_body in Hrun.
  destruct (update_status_did GENERATING None w Hj) as (w1 & H1 & D1).
  unfold bind at 1 in Hrun. rewrite H1 in Hrun.
  pose proof (did_stored _ _ _ _ _ D1) as Hj1.
  destruct (get_extracted_text_pure w1 Hj1) as (o & Ho).
  unfold bind at 1 in Hrun. rewrite Ho in Hrun.
  assert (Hcont : forall ss0 k0 text w2,
            did file_id ss0 k0 w w2 ->
            generate_from_text X fuel file_id text w2 = Some (r, w') ->
            (exists e, r = Raise e /\ did file_id ss0 false w w')
            \/ (did file_id (ss0 ++ [READY]) k0 w w')).
  { intros ss0 k0 text w2 D Hg.
    destruct (generate_from_text_did fuel text w2 r w'
                (did_stored _ _ _ _ _ D) Hg) as [(e & -> & D') | D'].
    - left. eexists. split; [reflexivity |].
      eapply did_weaken. eapply did_step; [exact D | exact D' | |];
        [rewrite app_nil_r |]; reflexivity.
    - right. eapply did_step; [exact D | exact D' | reflexivity |].
      rewrite andb_true_r. reflexivity. }
  assert (Hfin : forall ss0, 
            (exists e, r = Raise e /\ did file_id ss0 false w w')
            \/ (did file_id (ss0 ++ [READY]) true w w') ->
            In ss0 [[GENERATING]; [GENERATING; EXTRACTING; EXTRACTED]] ->
            (exists resp ss, r = Ok resp
               /\ In ss [[GENERATING; READY];
                         [GENERATING; EXTRACTING; EXTRACTED; READY]]
               /\ did file_id ss true w w')
            \/ (exists e ss, r = Raise e
               /\ In ss [[GENERATING]; [GENERATING; READY];
                         [GENERATING; EXTRACTING; EXTRACTED];
                         [GENERATING; EXTRACTING; EXTRACTED; READY];
                         [GENERATING; EXTRACTING; FAILED]]
               /\ did file_id ss false w w')).
  { intros ss0 [(e & -> & D) | D] Hin.
    - right. exists e, ss0. split; [reflexivity |]. split; [| exact D].
      simpl in Hin |- *. intuition.
    - destruct r as [resp | e].
      + left. exists resp, (ss0 ++ [READY]). split; [reflexivity |].
        split; [| exact D].
        simpl in Hin. destruct Hin as [<- | [<- | []]]; simpl; auto.
      + right. exists e, (ss0 ++ [READY]). split; [reflexivity |].
        split; [| exact (did_weaken _ _ _ _ _ D)].
        simpl in Hin. destruct Hin as [<- | [<- | []]]; simpl; auto. }
  assert (Hext :
            bind (extract_text_from_pdf X file_id)
              (generate_from_text X fuel file_id) w1 = Some (r, w') ->
            (exists resp ss, r = Ok resp
               /\ In ss [[GENERATING; READY];
                         [GENERATING; EXTRACTING; EXTRACTED; READY]]
               /\ did file_id ss true w w')
            \/ (exists e ss, r = Raise e
               /\ In ss [[GENERATING]; [GENERATING; READY];
                         [GENERATING; EXTRACTING; EXTRACTED];
                         [GENERATING; EXTRACTING; EXTRACTED; READY];
                         [GENERATING; EXTRACTING; FAILED]]
               /\ did file_id ss false w w')).
  { intros Hb.
    apply bind_inv in Hb as [(t & w2 & He & Hg) | (e & He & ->)].
    - destruct (extract_text_from_pdf_did w1 _ _ Hj1 He)
        as [(? & _ & D2) | (? & Hx & _)]; [| discriminate].
      apply (Hfin [GENERATING; EXTRACTING; EXTRACTED]); [| simpl; auto].
      eapply (Hcont _ true t w2); [| exact Hg].
      eapply did_step; [exact D1 | exact D2 | |]; reflexivity.
    - destruct (extract_text_from_pdf_did w1 _ _ Hj1 He)
        as [(? & Hx & _) | (? & _ & D2)]; [discriminate |].
      right. exists e, [GENERATING; EXTRACTING; FAILED].
      split; [reflexivity |]. split; [simpl; auto 6 |].
      eapply did_step; [exact D1 | exact D2 | |]; reflexivity. }
  destruct o as [[|c t] |]; try (apply Hext; exact Hrun).
  unfold bind at 1, ret in Hrun.
  apply (Hfin [GENERATING]); [| simpl; auto].
  eapply (Hcont _ true (c :: t) w1); [exact D1 | exact Hrun].
Qed.

Lemma generate_questions_from_file_did fuel w r w' :
  is_Some (uploads w !! file_id) ->
  generate_questions_from_file X fuel file_id w = Some (r, w') ->
  (exists resp ss, r = Ok resp
     /\ In ss [[GENERATING; READY];
               [GENERATING; EXTRACTING; EXTRACTED; READY]]
     /\ did file_id ss true w w')
  \/ (exists e ss, r = Raise e
     /\ In ss [[GENERATING; FAILED]; [GENERATING; READY; FAILED];
               [GENERATING; EXTRACTING; EXTRACTED; FAILED];
               [GENERATING; EXTRACTING; EXTRACTED; READY; FAILED];
               [GENERATING; EXTRACTING; FAILED; FAILED]]
     /\ did file_id ss false w w').
Proof.
  intros Hj Hrun. unfold generate_questions_from_file in Hrun.
  apply try_except_inv in Hrun as [(a & Hb & ->) | (e & w1 & Hb & Hh)].
  - destruct (generate_body_did fuel w _ _ Hj Hb)
      as [(resp & ss & _ & Hin & D) | (? & ? & Hx & _)]; [| discriminate].
    left. exists a, ss. auto.
  - destruct (generate_body_did fuel w _ _ Hj Hb)
      as [(? & ? & Hx & _) | (e' & ss & _ & Hin & D)]; [discriminate |].
    destruct (update_status_did FAILED
                (Some (lit "Question generation failed: " ++ exn_str e)) w1
                (did_stored _ _ _ _ _ D)) as (w2 & H2 & D2).
    unfold bind in Hh. rewrite H2 in Hh. unfold raise in Hh.
    injection Hh as <- <-. right. exists e, (ss ++ [FAILED]).
    split; [reflexivity |]. split.
    + simpl in Hin.
      destruct Hin as [<- | [<- | [<- | [<- | [<- | []]]]]]; simpl; auto 6.
    + eapply did_step; [exact D | exact (did_weaken _ _ _ _ _ D2) | |];
        reflexivity.
Qed.

(** *** A run on a job whose text is stored *)

Lemma generate_body_stored fuel w m (path text : str) chunks :
  uploads w !! file_id = Some m ->
  extracted_text_path m = Some path -> path <> [] ->
  files w !! path = Some text -> text <> [] ->
  Chunker.chunk_text fuel text None None = Some chunks ->
  exists added m',
    progress_only (with_status GENERATING m) m'
    /\ Forall2 (stamped_from file_id) (run_sources (calls w) chunks) added
    /\ generate_body X fuel file_id w
       = finish X file_id added
           (mkWorld (<[file_id := m']> (uploads w)) (files w)
              (ticks w + length added) (calls w + length chunks)
              (trace w ++ EvStatus file_id GENERATING None
                 :: progress_events chunks)).
Proof.
  intros Hm Hp Hpne Hf Htne Hc.
  destruct path as [|c p]; [congruence |].
  destruct text as [|c' t]; [congruence |].
  unfold generate_body.
  unfold bind at 1. rewrite (update_status_stored GENERATING None w m Hm).
  cbn [truthy]. unfold log, put_upload.
  unfold bind at 1. unfold get_extracted_text. unfold bind at 1.
  unfold get_upload_status. cbn [uploads files ticks calls trace].
  rewrite lookup_insert_eq. cbn [extracted_text_path with_status].
  rewrite Hp. cbv beta iota. cbn [files]. rewrite Hf.
  unfold bind at 1, ret.
  match goal with |- context [generate_from_text _ _ _ _ ?w1] =>
    destruct (generate_from_text_spec fuel (c' :: t) chunks w1
                (with_status GENERATING m))
      as (added & m' & Hpo & Hs & Heq)
  end; [cbn [uploads]; apply lookup_insert_eq | exact Hc |].
  exists added, m'. split; [exact Hpo |]. split; [exact Hs |].
  rewrite Heq. cbn [uploads files ticks calls trace].
  rewrite insert_insert_eq, <- app_assoc. reflexivity.
Qed.

Lemma raising_chunk_fails answer e :
  LLMService.generate_questions answer = Raise e -> chunk_fails answer.
Proof. unfold chunk_fails, answer_sources. intros ->. reflexivity. Qed.

Lemma run_sources_nil chunks : forall k,
  run_sources k chunks = []
  <-> forall i c, chunks !! i = Some c ->
                  chunk_fails (complete X (k + i) c).
Proof.
  unfold chunk_fails.
  induction chunks as [|chunk rest IH]; intros k; cbn [Spec.run_sources].
  - split; [intros _ i c H; discriminate H | reflexivity].
  - split.
    + intros H. apply app_eq_nil in H as [H1 H2].
      intros [|i] c Hc; simpl in Hc.
      * injection Hc as <-. rewrite Nat.add_0_r. exact H1.
      * replace (k + S i)%nat with (S k + i)%nat by lia.
        eapply (proj1 (IH (S k))); eassumption.
    + intros H. rewrite (proj2 (IH (S k))).
      * specialize (H 0%nat chunk eq_refl).
        rewrite Nat.add_0_r in H. rewrite H. reflexivity.
      * intros i c Hc.
        replace (S k + i)%nat with (k + S i)%nat by lia.
        apply H. exact Hc.
Qed.


(** C6: when every chunk fails (every provider call or parsing raised, or
    returned nothing to append, so that the aggregate is empty), the run
    raises the error of no valid questions, the job is FAILED with that error recorded, and
    neither a file nor the job's output path is written. *)
Theorem all_chunks_failing fuel w m (path text : str) chunks :
  uploads w !! file_id = Some m ->
  extracted_text_path m = Some path -> path <> [] ->
  files w !! path = Some text -> text <> [] ->
  Chunker.chunk_text fuel text None None = Some chunks ->
  (forall i c, chunks !! i = Some c ->
               chunk_fails (complete X (calls w + i) c)) ->
  exists w' m',
    generate_questions_from_file X fuel file_id w
    = Some (Raise NO_QUESTIONS, w')
    /\ uploads w' !! file_id = Some m'
    /\ status m' = FAILED
    /\ error m'
       = Some (lit "Question generation failed: No questions were generated from the text")
    /\ generated_questions_path m' = generated_questions_path m
    /\ files w' = files w
    /\ trace w'
       = trace w ++ EvStatus file_id GENERATING None
           :: progress_events chunks
           ++ [EvStatus file_id FAILED
                 (Some (GENERATION_FAILED NO_QUESTIONS))].
Proof.
  intros Hm Hp Hpne Hf Htne Hc Hall.
  pose proof (proj2 (run_sources_nil chunks (calls w)) Hall) as Hsrc.
  destruct (generate_body_stored fuel w m path text chunks Hm Hp Hpne Hf
              Htne Hc) as (added & m' & Hpo & Hs & Heq).
  rewrite Hsrc in Hs. apply Forall2_nil_inv_l in Hs. subst added.
  rewrite finish_empty in Heq.
  unfold generate_questions_from_file, try_except. rewrite Heq.
  unfold bind, update_status. cbn [uploads].
  rewrite lookup_insert_eq. unfold raise, log, put_upload.
  cbn [uploads files ticks calls trace].
  destruct (progress_only_fields _ _ Hpo) as (_ & _ & Hg & _).
  do 2 eexists. split; [reflexivity |].
  cbn [uploads files ticks calls trace].
  rewrite lookup_insert_eq, <- app_assoc.
  repeat split; auto.
Qed.

(** *** The route *)

(** C7: on a job whose generated set is stored (as it is once the job is
    READY), the route returns the stored set, built from the file alone:
    the world is left exactly as it was, so the provider is not called,
    nothing is written to the job and the stored file is untouched. *)
Theorem ready_job_returns_stored_set fuel w m (path content : str)
  data qsv qs questions :
  uploads w !! file_id = Some m ->
  status m = READY ->
  generated_questions_path m = Some path -> path <> [] ->
  files w !! path = Some content ->
  json_loads content = Ok data ->
  py_getitem (lit "questions") data = Ok qsv ->
  py_iter qsv = Ok qs ->
  to_questions X qs = Ok questions ->
  route_generate_questions X fuel file_id w
  = Some (Ok (mkResponse file_id questions (Z.of_nat (length questions))
                READY), w).
Proof.
  intros Hm Hst Hp Hpne Hf Hd Hg Hi Hq.
  destruct path as [|c p]; [congruence |].
  unfold route_generate_questions, try_except.
  unfold bind at 1. rewrite (get_upload_status_stored w m Hm).
  unfold bind at 1. unfold get_generated_questions. unfold bind at 1.
  rewrite (get_upload_status_stored w m Hm).
  rewrite Hp. cbv beta iota. rewrite Hf.
  unfold bind, lift, ret. rewrite Hd, Hg, Hi, Hq, Hst. reflexivity.
Qed.

Lemma get_generated_questions_none s w m :
  no_stored_set m w ->
  get_generated_questions X file_id (set_status s m w)
  = Some (Ok None, set_status s m w).
Proof.
  unfold no_stored_set. intros Hn.
  unfold get_generated_questions, bind, get_upload_status, Spec.set_status,
    put_upload. cbn [uploads files]. rewrite lookup_insert_eq.
  cbn [generated_questions_path with_status].
  destruct (generated_questions_path m) as [[|c p] |]; try reflexivity.
  cbn [files]. unfold str in *. rewrite Hn. reflexivity.
Qed.

Lemma generate_body_any_status fuel s w m :
  generate_body X fuel file_id (set_status s m w)
  = generate_body X fuel file_id (set_status GENERATING m w).
Proof.
  assert (H : exists v, forall s',
             generate_body X fuel file_id (set_status s' m w) = v).
  { eexists. intros s'. unfold generate_body. unfold bind at 1.
    rewrite (update_status_stored GENERATING None (set_status s' m w)
               (with_status s' m))
      by (unfold Spec.set_status, put_upload; cbn [uploads];
          apply lookup_insert_eq).
    cbn [truthy]. unfold log, Spec.set_status, put_upload.
    cbn [uploads files ticks calls trace].
    rewrite insert_insert_eq.
    change (with_status GENERATING (with_status s' m))
      with (with_status GENERATING m).
    reflexivity. }
  destruct H as [v Hv]. rewrite !Hv. reflexivity.
Qed.


(** *** Stale errors *)

(** C9: a status update writes [error] only when it is given a non-empty
    one, and otherwise changes the status and nothing else; so a job that
    FAILED with an error recorded and is then generated successfully ends
    READY with that same error still recorded. *)
Theorem stale_error_survives_success :
  (forall s w m,
      uploads w !! file_id = Some m ->
      exists w',
        update_status file_id s None w = Some (Ok tt, w')
        /\ uploads w' !! file_id = Some (with_status s m))
  /\ (forall s err w m,
      uploads w !! file_id = Some m -> truthy (Some err) = true ->
      exists w',
        update_status file_id s (Some err) w = Some (Ok tt, w')
        /\ uploads w' !! file_id
           = Some (with_error (Some err) (with_status s m)))
  /\ (forall fuel w m e resp w',
      uploads w !! file_id = Some m ->
      status m = FAILED -> error m = Some e ->
      generate_questions_from_file X fuel file_id w = Some (Ok resp, w') ->
      exists m', uploads w' !! file_id = Some m'
                 /\ status m' = READY /\ error m' = Some e).
Proof.
  split; [| split].
  - intros s w m Hm. eexists.
    split; [apply update_status_stored, Hm |].
    simpl. apply lookup_insert_eq.
  - intros s err w m Hm Ht. eexists.
    split; [apply update_status_stored, Hm |].
    rewrite Ht. simpl. apply lookup_insert_eq.
  - intros fuel w m e resp w' Hm Hst He Hrun.
    destruct (generate_questions_from_file_did fuel w _ w'
                (ex_intro _ m Hm) Hrun)
      as [(? & ss & _ & Hin & D) | (? & ? & Hx & _)]; [| discriminate].
    destruct D as (_ & m0 & m' & Hm0 & Hm' & Hs & Hk).
    rewrite Hm in Hm0. injection Hm0 as <-.
    exists m'. split; [exact Hm' |]. split.
    + rewrite Hs. simpl in Hin. destruct Hin as [<- | [<- | []]]; reflexivity.
    + rewrite Hk by reflexivity. exact He.
Qed.

End OrchestratorFacts.

(** ** Concrete runs *)

Example five_chunks_of_long_text :
  Chunker.chunk_text 5 Runs.long_text None None = Some Runs.five_chunks.
Proof. vm_compute. reflexivity. Qed.



(** The drafts of the flaky run: one from each of the chunks 1, 3, 5. *)
Example flaky_run_sources :
  length (run_sources Runs.flaky 0 Runs.five_chunks) = 3%nat
  /\ answer_sources (complete Runs.flaky 1 (Runs.para 2000)) = []
  /\ answer_sources (complete Runs.flaky 3 (Runs.para 2000)) = [].
Proof. vm_compute. auto. Qed.

Lemma all_chunks_failing_witness :
  exists w' m',
    generate_questions_from_file Runs.down 1 Sample.fid
      (Sample.w EXTRACTED None)
    = Some (Raise NO_QUESTIONS, w')
    /\ uploads w' !! Sample.fid = Some m'
    /\ status m' = FAILED
    /\ error m'
       = Some (lit "Question generation failed: No questions were generated from the text")
    /\ generated_questions_path m'
       = generated_questions_path (Sample.job EXTRACTED None)
    /\ files w' = files (Sample.w EXTRACTED None)
    /\ trace w'
       = trace (Sample.w EXTRACTED None)
           ++ EvStatus Sample.fid GENERATING None
           :: progress_events Sample.fid [lit "Some text."]
           ++ [EvStatus Sample.fid FAILED
                 (Some (GENERATION_FAILED NO_QUESTIONS))].
Proof.
  apply (all_chunks_failing Runs.down Sample.fid 1 (Sample.w EXTRACTED None)
           (Sample.job EXTRACTED None) Sample.text_path (lit "Some text.")
           [lit "Some text."]).
  - vm_compute. reflexivity.
  - reflexivity.
  - discriminate.
  - vm_compute. reflexivity.
  - discriminate.
  - vm_compute. reflexivity.
  - intros i c _. reflexivity.
Defined.

Lemma ready_job_returns_stored_set_witness :
  route_generate_questions Runs.good 1 Sample.fid Runs.w_ready
  = Some (Ok (mkResponse Sample.fid [Runs.stored_draft] 1 READY),
          Runs.w_ready).
Proof.
  apply (ready_job_returns_stored_set Runs.good Sample.fid 1 Runs.w_ready
           Runs.ready_job Runs.set_path
           (jlit "{'questions':[{'type':'true_false','correct_answer':'True'}]}")
           (PDict [(lit "questions", PList [Runs.stored_draft])])
           (PList [Runs.stored_draft]) [Runs.stored_draft]
           [Runs.stored_draft]).
  - vm_compute. reflexivity.
  - reflexivity.
  - reflexivity.
  - discriminate.
  - vm_compute. reflexivity.
  - vm_compute. reflexivity.
  - vm_compute. reflexivity.
  - reflexivity.
  - vm_compute. reflexivity.
Defined.




Lemma stale_error_survives_success_witness :
  exists m',
    uploads (Runs.world_after
               (generate_questions_from_file Runs.good 1 Sample.fid
                  (Sample.w FAILED (Some (lit "old error"))))
               (Sample.w FAILED (Some (lit "old error")))) !! Sample.fid
    = Some m'
    /\ status m' = READY /\ error m' = Some (lit "old error").
Proof.
  refine (proj2 (proj2 (stale_error_survives_success Runs.good Sample.fid))
            1%nat (Sample.w FAILED (Some (lit "old error")))
            (Sample.job FAILED (Some (lit "old error"))) (lit "old error")
            _ _ _ _ _ _).
  - vm_compute. reflexivity.
  - reflexivity.
  - reflexivity.
  - vm_compute. reflexivity.
Defined.

(** * Further properties *)

(** ** The chunker *)

Module ChunkerMore.
Import Chunker BoundingFacts.

Lemma lstrip_suffix s : exists a, s = a ++ lstrip s.
Proof.
  induction s as [|c r [a Ha]]; [exists []; reflexivity |]. simpl.
  destruct (isspace c); [| exists []; reflexivity].
  exists (c :: a). simpl. f_equal. exact Ha.
Qed.

Lemma rstrip_prefix s : exists b, s = rstrip s ++ b.
Proof.
  unfold rstrip. destruct (lstrip_suffix (reverse s)) as [a Ha].
  exists (reverse a).
  rewrite <- reverse_app, <- Ha. symmetry. apply reverse_involutive.
Qed.

Lemma strip_piece s : piece_of (strip s) s.
Proof.
  unfold strip. destruct (lstrip_suffix s) as [a Ha].
  destruct (rstrip_prefix (lstrip s)) as [b Hb].
  exists a, b. rewrite <- Hb. exact Ha.
Qed.

Lemma slice_piece s a b : piece_of (slice s a b) s.
Proof.
  unfold slice. set (k := Z.to_nat (adjust (len s) a)).
  set (n := Z.to_nat _).
  exists (take k s), (drop n (drop k s)).
  rewrite take_drop, take_drop. reflexivity.
Qed.

Lemma piece_of_trans a b c : piece_of a b -> piece_of b c -> piece_of a c.
Proof.
  intros (x & y & ->) (u & v & ->). exists (u ++ x), (y ++ v).
  rewrite <- !app_assoc. reflexivity.
Qed.

Lemma piece_of_length c s : piece_of c s -> (length c <= length s)%nat.
Proof. intros (a & b & ->). rewrite !length_app. lia. Qed.

Lemma lstrip_head s c r : lstrip s = c :: r -> isspace c = false.
Proof.
  induction s as [|d s IH]; simpl; [discriminate |].
  destruct (isspace d) eqn:E; [exact IH |].
  intros [= <- _]. exact E.
Qed.

Lemma lstrip_fixed c r : isspace c = false -> lstrip (c :: r) = c :: r.
Proof. intros H. simpl. rewrite H. reflexivity. Qed.

Lemma lstrip_idem s : lstrip (lstrip s) = lstrip s.
Proof.
  destruct (lstrip s) as [|c r] eqn:E; [reflexivity |].
  apply lstrip_fixed. eapply lstrip_head, E.
Qed.

Lemma rstrip_idem s : rstrip (rstrip s) = rstrip s.
Proof. unfold rstrip. rewrite reverse_involutive, lstrip_idem. reflexivity. Qed.

(** Stripping twice is stripping once: a stripped string has no
    whitespace at either end. *)
Lemma strip_idem s : strip (strip s) = strip s.
Proof.
  unfold strip. destruct (lstrip s) as [|c r] eqn:E.
  - reflexivity.
  - pose proof (lstrip_head _ _ _ E) as Hc.
    pose proof (rstrip_app [] r c Hc) as H1. cbn [app] in H1.
    pose proof (rstrip_app [] (rstrip r) c Hc) as H2. cbn [app] in H2.
    rewrite H1, (lstrip_fixed c (rstrip r) Hc), H2, rstrip_idem.
    reflexivity.
Qed.

(** What every chunk of the loop is. *)
Lemma body_good text max_chunk_size overlap st :
  Forall (good_chunk text) (chunks st) ->
  Forall (good_chunk text) (chunks (body text max_chunk_size overlap st)).
Proof.
  intros H. unfold body. cbn [chunks].
  destruct (strip (slice text (start st)
                     (window_end text max_chunk_size (start st))))
    as [|c r] eqn:E; [exact H |].
  apply Forall_app. split; [exact H |]. constructor; [| constructor].
  split; [discriminate |]. split.
  - rewrite <- E. apply strip_idem.
  - rewrite <- E. eapply piece_of_trans;
      [apply strip_piece | apply slice_piece].
Qed.

Lemma loop_good text max_chunk_size overlap fuel : forall st cs,
  Forall (good_chunk text) (chunks st) ->
  loop fuel text max_chunk_size overlap st = Some cs ->
  Forall (good_chunk text) cs.
Proof.
  induction fuel as [|fuel IH]; intros st cs H; simpl;
    destruct (start st <? len text); try discriminate;
    try (intros [= <-]; exact H).
  apply IH, body_good, H.
Qed.

(** X1:
    Of a text longer than the window, every chunk is a contiguous piece of
    the text, is not empty, and has no white space at either end: the
    chunker never invents, reorders or pads characters. *)
Theorem chunks_are_stripped_pieces fuel text mo oo cs :
  len text > default settings.max_chunk_size mo ->
  chunk_text fuel text mo oo = Some cs ->
  Forall (good_chunk text) cs.
Proof.
  intros Hlen. unfold chunk_text.
  destruct (Z.leb_spec (len text) (default settings.max_chunk_size mo));
    [lia |].
  apply loop_good. constructor.
Qed.

(** *** Bounds *)

Lemma rfind_down_range sub s b k :
  rfind_down sub s b k = -1
  \/ b <= rfind_down sub s b k < b + Z.of_nat k.
Proof.
  induction k as [|k IH]; simpl; [left; reflexivity |].
  destruct (startswith sub (drop (Z.to_nat (b + Z.of_nat k)) s)).
  - right. lia.
  - destruct IH as [-> | IH]; [left; reflexivity | right; lia].
Qed.

(** A match of [rfind] lies at a non-negative index and ends inside the
    upper bound when that bound is not negative. *)
Lemma rfind_range sub s a b :
  rfind sub s a b = -1
  \/ (0 <= rfind sub s a b /\ (0 <= b -> rfind sub s a b + len sub <= b)).
Proof.
  unfold rfind.
  set (n := len s).
  assert (Hn : 0 <= n) by (unfold n, len; lia).
  set (e := if b >? n then n else if b <? 0 then Z.max (b + n) 0 else b).
  set (st := if a <? 0 then Z.max (a + n) 0 else a).
  assert (He : 0 <= b -> e <= b).
  { unfold e. destruct (Z.gtb_spec b n); [lia |].
    destruct (Z.ltb_spec b 0); lia. }
  assert (Hs : 0 <= st).
  { unfold st. destruct (Z.ltb_spec a 0); lia. }
  destruct (Z.ltb_spec (e - st) (len sub)); [left; reflexivity |].
  destruct (rfind_down_range sub s st (Z.to_nat (e - len sub - st + 1)))
    as [-> | H1]; [left; reflexivity |].
  right. split; [lia |]. intros Hb. specialize (He Hb). lia.
Qed.

Lemma length_slice_le (s : str) a b :
  a <= b -> Z.of_nat (length (slice s a b)) <= b - a.
Proof.
  intros Hab. unfold slice, adjust.
  set (n := len s). assert (Hn : 0 <= n) by (unfold n, len; lia).
  rewrite length_take.
  destruct (Z.ltb_spec a 0); destruct (Z.ltb_spec b 0); lia.
Qed.

Lemma length_strip_le s : (length (strip s) <= length s)%nat.
Proof. apply piece_of_length, strip_piece. Qed.

(** The window end of one iteration, when the window does not start too
    far before the text. *)
Lemma window_end_range text max_chunk_size st :
  0 <= st + max_chunk_size -> 0 < max_chunk_size ->
  let e := window_end text max_chunk_size st in
  st < e <= st + max_chunk_size /\ -1 <= e.
Proof.
  intros Hend Hmax. unfold window_end.
  destruct (st + max_chunk_size <? len text); [| lia].
  pose proof (rfind_range NLNL text st (st + max_chunk_size)) as Hp.
  change (len NLNL) with 2 in Hp.
  destruct (Z.gtb_spec (rfind NLNL text st (st + max_chunk_size)) st).
  { destruct Hp as [Hp | [H0 H1]]; [lia |]. specialize (H1 Hend). lia. }
  destruct (contains_char DOT (slice text st (st + max_chunk_size)));
    [| lia].
  pose proof (rfind_range [DOT] text st (st + max_chunk_size)) as Hd.
  change (len [DOT]) with 1 in Hd.
  destruct (Z.gtb_spec (rfind [DOT] text st (st + max_chunk_size) + 1) st);
    [| lia].
  destruct Hd as [Hd | [Hd0 Hd1]]; [lia |]. specialize (Hd1 Hend). lia.
Qed.

Lemma body_short text max_chunk_size overlap st :
  0 <= overlap < max_chunk_size ->
  -1 - overlap <= start st ->
  Forall (short_chunk max_chunk_size) (chunks st) ->
  -1 - overlap <= start (body text max_chunk_size overlap st)
  /\ Forall (short_chunk max_chunk_size)
       (chunks (body text max_chunk_size overlap st)).
Proof.
  intros Ho Hst H.
  destruct (window_end_range text max_chunk_size (start st)) as [He Hm];
    [lia | lia |].
  unfold body. cbn [start chunks].
  set (e := window_end text max_chunk_size (start st)) in *.
  split.
  - destruct (e <? len text); lia.
  - assert (Hc : short_chunk max_chunk_size
                   (strip (slice text (start st) e))).
    { unfold short_chunk, len.
      pose proof (length_strip_le (slice text (start st) e)).
      pose proof (length_slice_le text (start st) e). lia. }
    destruct (strip (slice text (start st) e)) eqn:E; [exact H |].
    apply Forall_app. split; [exact H |].
    constructor; [exact Hc | constructor].
Qed.

Lemma loop_short text max_chunk_size overlap fuel : forall st cs,
  0 <= overlap < max_chunk_size ->
  -1 - overlap <= start st ->
  Forall (short_chunk max_chunk_size) (chunks st) ->
  loop fuel text max_chunk_size overlap st = Some cs ->
  Forall (short_chunk max_chunk_size) cs.
Proof.
  induction fuel as [|fuel IH]; intros st cs Ho Hst H; simpl;
    destruct (start st <? len text); try discriminate;
    try (intros [= <-]; exact H).
  destruct (body_short text max_chunk_size overlap st Ho Hst H) as [H1 H2].
  apply IH; assumption.
Qed.

(** X2:
    With an overlap that is not negative and smaller than the window, no
    chunk is longer than the window, whatever breaks the text has; this
    covers the default settings. *)
Theorem chunks_fit_the_window fuel text mo oo cs :
  0 <= default settings.chunk_overlap oo
    < default settings.max_chunk_size mo ->
  chunk_text fuel text mo oo = Some cs ->
  Forall (fun c => len c <= default settings.max_chunk_size mo) cs.
Proof.
  intros Ho. unfold chunk_text.
  destruct (Z.leb_spec (len text) (default settings.max_chunk_size mo)).
  - intros [= E]. subst cs. constructor; [exact H | constructor].
  - apply (loop_short text _ _ fuel (LoopState 0 []) cs Ho);
      [simpl; lia | constructor].
Qed.

(** *** Termination without overlap *)

Lemma loop_advances text max_chunk_size fuel : forall st,
  0 < max_chunk_size -> 0 <= start st ->
  len text - start st <= Z.of_nat fuel ->
  exists cs, loop fuel text max_chunk_size 0 st = Some cs.
Proof.
  induction fuel as [|fuel IH]; intros st Hmax Hst Hfuel; simpl;
    destruct (Z.ltb_spec (start st) (len text)); try lia;
    try (eexists; reflexivity).
  apply IH; [exact Hmax | |];
    destruct (window_end_range text max_chunk_size (start st)) as [He Hm];
    try lia; unfold body; cbn [start];
    destruct (window_end text max_chunk_size (start st) <? len text); lia.
Qed.

(** X3:
    Without overlap the loop always ends: every window ends after its
    start, so as many iterations as the text has characters suffice. *)
Theorem chunk_text_returns_without_overlap text mo fuel :
  0 < default settings.max_chunk_size mo -> len text <= Z.of_nat fuel ->
  exists cs, chunk_text fuel text mo (Some 0) = Some cs.
Proof.
  intros Hmax Hfuel. unfold chunk_text.
  change (default settings.chunk_overlap (Some 0)) with 0.
  destruct (len text <=? _); [eexists; reflexivity |].
  apply loop_advances; simpl; lia.
Qed.

(** *** Termination on a text without breaks *)

Lemma is_infix_drop needle (s : str) :
  is_infix needle s = false ->
  forall i, needle <> [] -> startswith needle (drop i s) = false.
Proof.
  intros H i Hne. revert s H.
  induction i as [|i IH]; intros s H.
  - rewrite drop_0. destruct s; simpl in H;
      apply orb_false_elim in H as [H _]; exact H.
  - destruct s as [|c r]; simpl in H.
    + destruct needle; [congruence | reflexivity].
    + apply orb_false_elim in H as [_ H]. simpl. apply IH, H.
Qed.

Lemma rfind_down_absent sub s b k :
  (forall i, startswith sub (drop i s) = false) ->
  rfind_down sub s b k = -1.
Proof.
  intros H. induction k as [|k IH]; simpl; [reflexivity |].
  rewrite H. exact IH.
Qed.

Lemma rfind_absent sub s a b :
  (forall i, startswith sub (drop i s) = false) -> rfind sub s a b = -1.
Proof.
  intros H. unfold rfind. cbv zeta.
  destruct (_ <? len sub); [reflexivity |].
  apply rfind_down_absent, H.
Qed.

Lemma contains_char_piece c a s :
  piece_of a s -> contains_char c s = false -> contains_char c a = false.
Proof.
  intros (x & y & ->). unfold contains_char.
  rewrite !existsb_app. intros H.
  apply orb_false_elim in H as [_ H].
  apply orb_false_elim in H as [H _]. exact H.
Qed.

Lemma window_end_no_break text max_chunk_size st :
  no_break text -> 0 <= st ->
  window_end text max_chunk_size st = st + max_chunk_size.
Proof.
  intros [Hd Hp] Hst. unfold window_end.
  destruct (_ <? len text); [| reflexivity].
  rewrite (rfind_absent NLNL text _ _
             (fun i => is_infix_drop NLNL text Hp i ltac:(discriminate))).
  destruct (Z.gtb_spec (-1) st); [lia |].
  rewrite (contains_char_piece DOT _ text (slice_piece _ _ _) Hd).
  reflexivity.
Qed.

Lemma loop_no_break text max_chunk_size overlap fuel : forall st,
  no_break text -> 0 <= overlap < max_chunk_size -> 0 <= start st ->
  len text - start st <= Z.of_nat fuel ->
  exists cs, loop fuel text max_chunk_size overlap st = Some cs.
Proof.
  induction fuel as [|fuel IH]; intros st Hb Ho Hst Hfuel; simpl;
    destruct (Z.ltb_spec (start st) (len text)); try lia;
    try (eexists; reflexivity).
  apply IH; [exact Hb | exact Ho | |];
    unfold body; cbn [start];
    rewrite (window_end_no_break text max_chunk_size (start st) Hb Hst);
    destruct (_ <? len text); lia.
Qed.

(** X4:
    A text with no full stop and no blank line is cut at the window ends,
    and the loop ends whenever the overlap is smaller than the window:
    the loop can only stall at a break. *)
Theorem chunk_text_returns_without_breaks text mo oo fuel :
  no_break text ->
  0 <= default settings.chunk_overlap oo
    < default settings.max_chunk_size mo ->
  len text <= Z.of_nat fuel ->
  exists cs, chunk_text fuel text mo oo = Some cs.
Proof.
  intros Hb Ho Hfuel. unfold chunk_text.
  destruct (len text <=? _); [eexists; reflexivity |].
  apply loop_no_break; simpl; try assumption; lia.
Qed.

End ChunkerMore.

Module CoverFacts.
Import Chunker BoundingFacts ChunkerMore.

Lemma visible_app a b : visible (a ++ b) = visible a ++ visible b.
Proof. apply List.filter_app. Qed.

Lemma visible_lstrip s : visible (lstrip s) = visible s.
Proof.
  induction s as [|c r IH]; simpl; [reflexivity |].
  destruct (isspace c) eqn:E; simpl; [exact IH | rewrite E; reflexivity].
Qed.

Lemma visible_reverse s : visible (reverse s) = reverse (visible s).
Proof.
  induction s as [|c r IH]; [reflexivity |].
  rewrite reverse_cons, visible_app, IH. simpl.
  destruct (negb (isspace c)); simpl.
  - rewrite reverse_cons. reflexivity.
  - rewrite app_nil_r. reflexivity.
Qed.

Lemma visible_strip s : visible (strip s) = visible s.
Proof.
  unfold strip, rstrip.
  rewrite visible_reverse, visible_lstrip, visible_reverse,
    reverse_involutive.
  apply visible_lstrip.
Qed.

Lemma take_slice (s : str) a b :
  0 <= a <= b ->
  take (Z.to_nat a) s ++ slice s a b = take (Z.to_nat b) s.
Proof.
  intros Hab. unfold slice, adjust.
  set (n := len s). assert (Hn : n = Z.of_nat (length s)) by reflexivity.
  destruct (Z.ltb_spec a 0); [lia |]. destruct (Z.ltb_spec b 0); [lia |].
  destruct (Z.le_gt_cases a n) as [Han | Han].
  - rewrite (Z.min_l a n) by lia.
    destruct (Z.le_gt_cases b n) as [Hbn | Hbn].
    + rewrite (Z.min_l b n) by lia.
      rewrite take_take_drop. f_equal. lia.
    + rewrite (Z.min_r b n) by lia.
      rewrite take_take_drop.
      rewrite !take_ge by lia. reflexivity.
  - rewrite (Z.min_r a n), (Z.min_r b n) by lia.
    rewrite Z.sub_diag. simpl. rewrite app_nil_r.
    rewrite !take_ge by lia. reflexivity.
Qed.

Lemma body_covers text max_chunk_size st :
  0 < max_chunk_size -> 0 <= start st ->
  visible (concat (chunks st)) = visible (take (Z.to_nat (start st)) text) ->
  let st' := body text max_chunk_size 0 st in
  start st < start st'
  /\ visible (concat (chunks st'))
     = visible (take (Z.to_nat (start st')) text).
Proof.
  intros Hmax Hst Hinv.
  destruct (window_end_range text max_chunk_size (start st)) as [He _];
    [lia | lia |].
  unfold body. cbn [start chunks].
  set (e := window_end text max_chunk_size (start st)) in *.
  assert (Hs : (if e <? len text then e - 0 else e) = e)
    by (destruct (e <? len text); lia).
  rewrite Hs. split; [lia |].
  rewrite <- (take_slice text (start st) e) by lia.
  rewrite visible_app, <- Hinv, <- (visible_strip (slice text (start st) e)).
  destruct (strip (slice text (start st) e)) as [|c r].
  - rewrite app_nil_r. reflexivity.
  - rewrite concat_app, visible_app. simpl. rewrite app_nil_r. reflexivity.
Qed.

Lemma loop_covers text max_chunk_size fuel : forall st cs,
  0 < max_chunk_size -> 0 <= start st ->
  visible (concat (chunks st)) = visible (take (Z.to_nat (start st)) text) ->
  loop fuel text max_chunk_size 0 st = Some cs ->
  visible (concat cs) = visible text.
Proof.
  induction fuel as [|fuel IH]; intros st cs Hmax Hst Hinv; simpl;
    destruct (Z.ltb_spec (start st) (len text)); try discriminate.
  - intros [= <-]. rewrite Hinv, take_ge; [reflexivity |].
    unfold len in *. lia.
  - destruct (body_covers text max_chunk_size st Hmax Hst Hinv) as [H1 H2].
    apply IH; [exact Hmax | lia | exact H2].
  - intros [= <-]. rewrite Hinv, take_ge; [reflexivity |].
    unfold len in *. lia.
Qed.

(** X24:
    Without overlap nothing but white space is lost and nothing is
    repeated: the chunks, one after the other, spell the text, white space
    apart. *)
Theorem chunks_spell_the_text_without_overlap fuel text mo cs :
  0 < default settings.max_chunk_size mo ->
  chunk_text fuel text mo (Some 0) = Some cs ->
  visible (concat cs) = visible text.
Proof.
  intros Hmax. unfold chunk_text.
  change (default settings.chunk_overlap (Some 0)) with 0.
  destruct (len text <=? _).
  - intros [= <-]. simpl. rewrite app_nil_r. reflexivity.
  - apply loop_covers; [exact Hmax | simpl; lia | reflexivity].
Qed.

End CoverFacts.

(** ** What a run may touch *)

Section FrameFacts.

Variable X : collaborators.
Variable file_id : str.

Lemma confined_refl w : confined file_id w w.
Proof.
  repeat split; auto.
  - intros m Hm. exists m. auto.
  - exists []. rewrite app_nil_r. reflexivity.
Qed.

Lemma confined_trans w1 w2 w3 :
  confined file_id w1 w2 -> confined file_id w2 w3 -> confined file_id w1 w3.
Proof.
  intros (U1 & F1 & J1 & N1 & (e1 & T1) & K1 & C1)
         (U2 & F2 & J2 & N2 & (e2 & T2) & K2 & C2).
  repeat split.
  - intros o Ho. rewrite U2, U1 by exact Ho. reflexivity.
  - intros p H1 H2. rewrite F2, F1 by assumption. reflexivity.
  - intros m Hm. destruct (J1 m Hm) as (m1 & Hm1 & A1 & B1 & D1).
    destruct (J2 m1 Hm1) as (m2 & Hm2 & A2 & B2 & D2).
    exists m2. repeat split; congruence.
  - auto.
  - exists (e1 ++ e2). rewrite T2, T1, app_assoc. reflexivity.
  - lia.
  - lia.
Qed.

Lemma confines_ret {A} (a : A) : confines file_id (ret a).
Proof. intros w r w' [= <- <-]. apply confined_refl. Qed.

Lemma confines_raise {A} e : confines file_id (@raise A e).
Proof. intros w r w' [= <- <-]. apply confined_refl. Qed.

Lemma confines_lift {A} (x : result A) : confines file_id (lift x).
Proof. intros w r w' [= <- <-]. apply confined_refl. Qed.

Lemma confines_bind {A B} (c : M A) (k : A -> M B) :
  confines file_id c -> (forall a, confines file_id (k a)) ->
  confines file_id (bind c k).
Proof.
  intros Hc Hk w r w' H.
  apply bind_inv in H as [(a & w1 & H1 & H2) | (e & H1 & _)].
  - eapply confined_trans; [eapply Hc, H1 | eapply Hk, H2].
  - eapply Hc, H1.
Qed.

Lemma confines_try {A} (c : M A) h :
  confines file_id c -> (forall e, confines file_id (h e)) ->
  confines file_id (try_except c h).
Proof.
  intros Hc Hh w r w' H.
  apply try_except_inv in H as [(a & H1 & _) | (e & w1 & H1 & H2)].
  - eapply Hc, H1.
  - eapply confined_trans; [eapply Hc, H1 | eapply Hh, H2].
Qed.

(** A write to the job's document that keeps the upload fields. *)
Lemma confined_put m m' w :
  uploads w !! file_id = Some m ->
  filename m' = filename m -> file_path m' = file_path m ->
  upload_time m' = upload_time m ->
  confined file_id w (put_upload file_id m' w).
Proof.
  intros Hm A B C. unfold put_upload. repeat split; cbn [uploads files
    ticks calls trace]; auto.
  - intros o Ho. apply lookup_insert_ne. congruence.
  - intros m0 Hm0. exists m'. rewrite lookup_insert_eq.
    repeat split; congruence.
  - congruence.
  - exists []. rewrite app_nil_r. reflexivity.
Qed.

Lemma confined_log e w : confined file_id w (log e w).
Proof.
  unfold log. repeat split; cbn [uploads files ticks calls trace]; auto.
  - intros m Hm. exists m. auto.
  - exists [e]. reflexivity.
Qed.

Lemma confines_get_upload_status : confines file_id (get_upload_status file_id).
Proof.
  intros w r w'. unfold get_upload_status.
  destruct (uploads w !! file_id); intros [= <- <-]; apply confined_refl.
Qed.

Lemma confines_update_status s err :
  confines file_id (update_status file_id s err).
Proof.
  intros w r w'. unfold update_status.
  destruct (uploads w !! file_id) as [m |] eqn:Hm; intros [= <- <-];
    [| apply confined_refl].
  eapply confined_trans; [| apply confined_log].
  apply (confined_put m); [exact Hm | ..]; destruct (truthy err); reflexivity.
Qed.

Lemma confines_update_progress c t msg :
  confines file_id (update_progress file_id c t msg).
Proof.
  intros w r w'. unfold update_progress.
  destruct (uploads w !! file_id) as [m |] eqn:Hm; intros [= <- <-];
    [| apply confined_refl].
  eapply confined_trans; [| apply confined_log].
  apply (confined_put m); [exact Hm | ..]; reflexivity.
Qed.

Lemma confines_set_extracted_text_path p :
  confines file_id (set_extracted_text_path file_id p).
Proof.
  intros w r w'. unfold set_extracted_text_path.
  destruct (uploads w !! file_id) as [m |] eqn:Hm; intros [= <- <-];
    [| apply confined_refl].
  apply (confined_put m); [exact Hm | ..]; reflexivity.
Qed.

Lemma confines_set_generated_questions_path p :
  confines file_id (set_generated_questions_path file_id p).
Proof.
  intros w r w'. unfold set_generated_questions_path.
  destruct (uploads w !! file_id) as [m |] eqn:Hm; intros [= <- <-];
    [| apply confined_refl].
  apply (confined_put m); [exact Hm | ..]; reflexivity.
Qed.

Lemma confines_write_text content :
  confines file_id (write_text (text_path_of file_id) content).
Proof.
  intros w r w'. unfold write_text.
  destruct (encodable content); intros [= <- <-];
    (repeat split; cbn [uploads files ticks calls trace]; auto;
     [ intros p H1 H2; apply lookup_insert_ne; congruence
     | intros m Hm; exists m; auto
     | exists []; rewrite app_nil_r; reflexivity ]).
Qed.

Lemma confines_write_set content :
  confines file_id (write_file (questions_path_of file_id) content).
Proof.
  intros w r w' [= <- <-].
  repeat split; cbn [uploads files ticks calls trace]; auto.
  - intros p H1 H2. apply lookup_insert_ne. congruence.
  - intros m Hm. exists m. auto.
  - exists []. rewrite app_nil_r. reflexivity.
Qed.

Lemma confines_read_clock : confines file_id (read_clock X).
Proof.
  intros w r w' [= <- <-].
  repeat split; cbn [uploads files ticks calls trace]; auto.
  - intros m Hm. exists m. auto.
  - exists []. rewrite app_nil_r. reflexivity.
Qed.

Lemma confines_call_provider chunk : confines file_id (call_provider X chunk).
Proof.
  intros w r w' [= <- <-].
  eapply confined_trans; [| apply confined_log].
  repeat split; cbn [uploads files ticks calls trace]; auto.
  - intros m Hm. exists m. auto.
  - exists []. rewrite app_nil_r. reflexivity.
Qed.

Create HintDb confines discriminated.
#[local] Hint Resolve confines_ret confines_raise confines_lift
  confines_get_upload_status confines_update_status
  confines_update_progress confines_set_extracted_text_path
  confines_set_generated_questions_path confines_write_text
  confines_write_set confines_read_clock confines_call_provider : confines.

Ltac confines_step :=
  first [ apply confines_bind; [| intros ?]
        | apply confines_try; [| intros ?]
        | solve [auto with confines] ].

Lemma confines_stamp_drafts qs : forall acc,
  confines file_id (stamp_drafts X file_id qs acc).
Proof.
  induction qs as [|q qs IH]; intros acc; cbn [stamp_drafts].
  - auto with confines.
  - destruct q; auto with confines.
    apply confines_bind; [auto with confines | intros now; apply IH].
Qed.

Lemma confines_collect doc acc : confines file_id (collect X file_id doc acc).
Proof.
  unfold collect.
  repeat case_match; auto with confines. apply confines_stamp_drafts.
Qed.

Lemma confines_chunk_body total idx chunk acc :
  confines file_id (chunk_body X file_id total idx chunk acc).
Proof.
  unfold chunk_body. repeat confines_step.
  case_match; auto with confines. apply confines_collect.
Qed.

Lemma confines_for_chunks total chunks : forall idx acc,
  confines file_id (for_chunks X file_id total idx chunks acc).
Proof.
  induction chunks as [|c r IH]; intros idx acc; cbn [for_chunks].
  - auto with confines.
  - apply confines_bind; [apply confines_chunk_body | intros out; apply IH].
Qed.

Lemma confines_finish acc : confines file_id (finish X file_id acc).
Proof.
  unfold finish. destruct acc; [auto with confines |].
  repeat confines_step.
Qed.

Lemma confines_generate_from_text fuel text :
  confines file_id (generate_from_text X fuel file_id text).
Proof.
  unfold generate_from_text.
  apply confines_bind.
  { intros w r w'. destruct (Chunker.chunk_text fuel text None None);
      [intros [= <- <-]; apply confined_refl | discriminate]. }
  intros chunks. apply confines_bind; [auto with confines | intros _].
  apply confines_bind; [apply confines_for_chunks | intros acc].
  apply confines_finish.
Qed.

Lemma confines_extract_body : confines file_id (extract_body X file_id).
Proof.
  unfold extract_body.
  apply confines_bind; [auto with confines | intros m].
  intros w r w'. destruct (files w !! file_path m) as [pdf |].
  - revert w r w'.
    change (confines file_id
      (let! md_text := lift (to_markdown X (file_path m) pdf) in
       match strip md_text with
       | [] => raise (Exception (lit "No text could be extracted from PDF"))
       | _ =>
           let text_path :=
             path_join settings.extracted_text_dir (file_id ++ lit ".txt") in
           let! _ := write_text text_path md_text in
           let! _ := set_extracted_text_path file_id text_path in
           let! _ := update_status file_id EXTRACTED None in
           ret md_text
       end)).
    apply confines_bind; [auto with confines | intros t].
    destruct (strip t); [auto with confines |].
    cbv zeta. repeat confines_step.
  - apply confines_raise.
Qed.

Lemma confines_extract_text_from_pdf :
  confines file_id (extract_text_from_pdf X file_id).
Proof.
  unfold extract_text_from_pdf.
  apply confines_bind; [auto with confines | intros _].
  apply confines_try; [apply confines_extract_body | intros e].
  repeat confines_step.
Qed.

Lemma confines_get_extracted_text :
  confines file_id (get_extracted_text file_id).
Proof.
  unfold get_extracted_text.
  apply confines_bind; [auto with confines | intros m].
  intros w r w'. repeat case_match; intros [= <- <-]; apply confined_refl.
Qed.

Lemma confines_generate_body fuel :
  confines file_id (generate_body X fuel file_id).
Proof.
  unfold generate_body.
  apply confines_bind; [auto with confines | intros _].
  apply confines_bind; [apply confines_get_extracted_text | intros o].
  apply confines_bind; [| intros t; apply confines_generate_from_text].
  repeat case_match; auto with confines;
    apply confines_extract_text_from_pdf.
Qed.

Lemma confines_generate_questions_from_file fuel :
  confines file_id (generate_questions_from_file X fuel file_id).
Proof.
  unfold generate_questions_from_file.
  apply confines_try; [apply confines_generate_body | intros e].
  repeat confines_step.
Qed.

Lemma confines_get_generated_questions :
  confines file_id (get_generated_questions X file_id).
Proof.
  unfold get_generated_questions.
  apply confines_bind; [auto with confines | intros m].
  assert (Hc : forall content,
    confines file_id
      (let! data := lift (json_loads content) in
       let! qs := lift (py_getitem (lit "questions") data) in
       let! qs := lift (py_iter qs) in
       let! questions := lift (to_questions X qs) in
       ret (Some (mkResponse file_id questions (Z.of_nat (length questions))
                    (status m))))).
  { intros content. repeat confines_step. }
  intros w r w'.
  repeat case_match; try (intros [= <- <-]; apply confined_refl).
  apply Hc.
Qed.

Lemma confines_route_generate_questions fuel :
  confines file_id (route_generate_questions X fuel file_id).
Proof.
  unfold route_generate_questions.
  apply confines_try.
  - apply confines_bind; [auto with confines | intros _].
    apply confines_bind; [apply confines_get_generated_questions | intros o].
    destruct o; [auto with confines |].
    apply confines_generate_questions_from_file.
  - intros []; auto with confines.
Qed.

Lemma confines_run_pipeline_task fuel :
  confines file_id (_run_pipeline_task X fuel file_id).
Proof.
  unfold _run_pipeline_task.
  apply confines_try; [| auto with confines].
  apply confines_bind; [apply confines_extract_text_from_pdf | intros _].
  apply confines_bind;
    [apply confines_generate_questions_from_file | auto with confines].
Qed.

Lemma confines_route_get_generated_questions :
  confines file_id (route_get_generated_questions X file_id).
Proof.
  unfold route_get_generated_questions.
  apply confines_try.
  - apply confines_bind; [apply confines_get_generated_questions | intros o].
    destruct o; auto with confines.
  - intros [code detail | msg]; auto with confines.
Qed.

(** X5:
    Whatever a service, a route or the background task does for a job, and
    however it ends, it stays within that job: the documents of the other
    jobs and every file but the job's text and set are as before; the job
    is still there with the name, the PDF path and the upload time it had;
    no job appears; the log of events only grows and the counters of
    clock readings and provider calls never go back. *)
Theorem a_run_is_confined_to_its_job fuel w w' :
  (exists r, extract_text_from_pdf X file_id w = Some (r, w'))
  \/ (exists r, generate_questions_from_file X fuel file_id w = Some (r, w'))
  \/ (exists r, route_generate_questions X fuel file_id w = Some (r, w'))
  \/ (exists r, route_get_generated_questions X file_id w = Some (r, w'))
  \/ (exists r, _run_pipeline_task X fuel file_id w = Some (r, w')) ->
  confined file_id w w'.
Proof.
  intros [(r & H) | [(r & H) | [(r & H) | [(r & H) | (r & H)]]]].
  - exact (confines_extract_text_from_pdf _ _ _ H).
  - exact (confines_generate_questions_from_file fuel _ _ _ H).
  - exact (confines_route_generate_questions fuel _ _ _ H).
  - exact (confines_route_get_generated_questions _ _ _ H).
  - exact (confines_run_pipeline_task fuel _ _ _ H).
Qed.

End FrameFacts.

Section ExtractionFacts.

Variable X : collaborators.
Variable file_id : str.

Lemma truthy_message (prefix rest : str) :
  prefix <> [] -> truthy (Some (prefix ++ rest)) = true.
Proof. destruct prefix; [congruence | reflexivity]. Qed.

Lemma text_path_of_nonempty : text_path_of file_id <> [].
Proof.
  unfold text_path_of, path_join.
  destruct (startswith _ _) eqn:E.
  - destruct file_id; discriminate.
  - discriminate.
Qed.

(** One run of extraction on a stored job, in full. *)
Lemma extract_text_from_pdf_run w m :
  uploads w !! file_id = Some m ->
  extract_text_from_pdf X file_id w
  = Some (match extraction_outcome X m w with
          | Ok text =>
              if encodable text
              then (Ok text, extracted_world file_id m text w)
              else (Raise (UnicodeEncodeError text),
                    unencodable_world file_id m text w)
          | Raise e =>
              (Raise e,
               failed_world file_id m
                 [EvStatus file_id EXTRACTING None;
                  EvStatus file_id FAILED (Some (EXTRACTION_FAILED e))]
                 (EXTRACTION_FAILED e) w)
          end).
Proof.
  intros Hm.
  assert (Hfail : forall e,
    (let! _ := update_status file_id FAILED
                 (Some (lit "Extraction failed: " ++ exn_str e)) in
     raise e)
      (log (EvStatus file_id EXTRACTING None)
         (put_upload file_id (with_status EXTRACTING m) w))
    = Some (@Raise str e,
            failed_world file_id m
              [EvStatus file_id EXTRACTING None;
               EvStatus file_id FAILED (Some (EXTRACTION_FAILED e))]
              (EXTRACTION_FAILED e) w)).
  { intros e. unfold bind, update_status, log, put_upload.
    cbn [uploads files ticks calls trace]. rewrite lookup_insert_eq.
    rewrite truthy_message by discriminate.
    unfold raise, failed_world, EXTRACTION_FAILED.
    cbn [uploads files ticks calls trace].
    rewrite insert_insert_eq, <- app_assoc. reflexivity. }
  unfold extract_text_from_pdf. unfold bind at 1.
  rewrite (update_status_stored file_id EXTRACTING None w m Hm).
  cbn [truthy]. unfold try_except, extract_body. unfold bind at 1.
  unfold get_upload_status at 1. unfold log at 1, put_upload at 1.
  cbn [uploads]. rewrite lookup_insert_eq.
  cbn [files file_path with_status]. unfold extraction_outcome.
  change (files (log (EvStatus file_id EXTRACTING None)
                   (put_upload file_id (with_status EXTRACTING m) w)))
    with (files w).
  destruct (files w !! file_path m) as [pdf |];
    [| exact (Hfail (pdf_not_found (file_path m)))].
  unfold bind at 1, lift.
  destruct (to_markdown X (file_path m) pdf) as [text | e];
    [| exact (Hfail e)].
  destruct (strip text) eqn:Hs; [exact (Hfail NO_TEXT) |].
  unfold bind at 1. unfold write_text.
  destruct (encodable text).
  - unfold bind, set_extracted_text_path, update_status, ret, log,
      put_upload.
    cbn [uploads files ticks calls trace]. rewrite lookup_insert_eq.
    cbn [uploads]. rewrite lookup_insert_eq.
    cbn [truthy]. unfold extracted_world, text_path_of.
    cbn [uploads files ticks calls trace].
    rewrite !insert_insert_eq, <- app_assoc. reflexivity.
  - unfold bind, update_status. cbn [uploads].
    unfold log at 1, put_upload at 1. cbn [uploads].
    rewrite lookup_insert_eq.
    rewrite truthy_message by discriminate.
    unfold raise, unencodable_world, EXTRACTION_FAILED, text_path_of, log,
      put_upload.
    cbn [uploads files ticks calls trace].
    rewrite insert_insert_eq, <- app_assoc. reflexivity.
Qed.

Lemma universal_newlines_plain s :
  contains_char 13 s = false -> universal_newlines s = s.
Proof.
  unfold contains_char.
  induction s as [|c r IH]; cbn [existsb universal_newlines];
    [reflexivity |].
  intros H. apply orb_false_elim in H as [Hc Hr].
  rewrite N.eqb_sym in Hc. rewrite Hc, (IH Hr). reflexivity.
Qed.

Lemma universal_newlines_nonempty s : s <> [] -> universal_newlines s <> [].
Proof.
  destruct s as [|c r]; [congruence |]. intros _.
  cbn [universal_newlines]. destruct (c =? 13)%N; discriminate.
Qed.

Lemma get_extracted_text_extracted m text w :
  get_extracted_text file_id (extracted_world file_id m text w)
  = Some (Ok (Some (universal_newlines text)),
          extracted_world file_id m text w).
Proof.
  unfold get_extracted_text, bind, get_upload_status, extracted_world.
  cbn [uploads files]. rewrite lookup_insert_eq.
  cbn [extracted_text_path with_status with_extracted_text_path].
  pose proof text_path_of_nonempty as Hne.
  destruct (text_path_of file_id) as [|c p] eqn:E; [congruence |].
  cbn [files]. rewrite lookup_insert_eq. reflexivity.
Qed.

(** X6:
    An extraction whose text can be encoded returns the text as the
    converter gave it and stores it where a later read finds it: the job
    is EXTRACTED and points to the text file, and nothing else of it
    changes.  What [get_extracted_text] then returns is the text with its
    line ends as a read in text mode gives them (a carriage return, with
    the line feed after it, read as one line feed): the same text when it
    has no carriage return. *)
Theorem extracted_text_is_read_back w m text :
  uploads w !! file_id = Some m ->
  extraction_outcome X m w = Ok text ->
  encodable text = true ->
  extract_text_from_pdf X file_id w
  = Some (Ok text, extracted_world file_id m text w)
  /\ get_extracted_text file_id (extracted_world file_id m text w)
     = Some (Ok (Some (universal_newlines text)),
             extracted_world file_id m text w)
  /\ (contains_char 13 text = false -> universal_newlines text = text)
  /\ strip text <> [].
Proof.
  intros Hm Ho He. split; [| split; [| split]].
  - rewrite (extract_text_from_pdf_run w m Hm), Ho, He. reflexivity.
  - apply get_extracted_text_extracted.
  - apply universal_newlines_plain.
  - unfold extraction_outcome in Ho. repeat case_match; congruence.
Qed.

(** X7:
    An extraction that fails re-raises the exception and leaves the job
    FAILED with the prefixed message; no file is written and the job
    points to no new text. *)
Theorem failed_extraction_is_recorded w m e :
  uploads w !! file_id = Some m ->
  extraction_outcome X m w = Raise e ->
  extract_text_from_pdf X file_id w
  = Some (Raise e,
          failed_world file_id m
            [EvStatus file_id EXTRACTING None;
             EvStatus file_id FAILED (Some (EXTRACTION_FAILED e))]
            (EXTRACTION_FAILED e) w).
Proof.
  intros Hm Ho. rewrite (extract_text_from_pdf_run w m Hm), Ho. reflexivity.
Qed.

Lemma get_extracted_text_none s w m :
  no_stored_text m w ->
  let w1 := log (EvStatus file_id s None)
              (put_upload file_id (with_status s m) w) in
  (exists o, get_extracted_text file_id w1 = Some (Ok o, w1)
             /\ (o = None \/ o = Some [])).
Proof.
  intros Hn. cbv zeta. unfold no_stored_text in Hn.
  unfold get_extracted_text, bind, get_upload_status, log, put_upload.
  cbn [uploads files]. rewrite lookup_insert_eq.
  cbn [extracted_text_path with_status].
  destruct (extracted_text_path m) as [[|c p] |]; eauto.
  cbn [files]. unfold str in *. destruct Hn as [-> | ->]; eauto.
Qed.


Lemma generate_unknown fuel w :
  uploads w !! file_id = None ->
  generate_questions_from_file X fuel file_id w
  = Some (Raise (not_found file_id), w).
Proof.
  intros Hn.
  assert (Hu : forall s err,
            update_status file_id s err w
            = Some (Raise (not_found file_id), w)).
  { intros s err. unfold update_status. rewrite Hn. reflexivity. }
  unfold generate_questions_from_file, try_except, generate_body.
  unfold bind at 1. rewrite Hu. unfold bind. rewrite Hu. reflexivity.
Qed.

(** X9:
    A request for a job that is not stored is answered 404 by every entry
    point, and nothing is written; the background task of the pipeline
    raises the same exception, since its handler writes to the job too. *)
Theorem unknown_job_is_refused fuel w :
  uploads w !! file_id = None ->
  extract_text_from_pdf X file_id w = Some (Raise (not_found file_id), w)
  /\ generate_questions_from_file X fuel file_id w
     = Some (Raise (not_found file_id), w)
  /\ route_generate_questions X fuel file_id w
     = Some (Raise (not_found file_id), w)
  /\ route_get_generated_questions X file_id w
     = Some (Raise (not_found file_id), w)
  /\ _run_pipeline_task X fuel file_id w
     = Some (Raise (not_found file_id), w).
Proof.
  intros Hn.
  assert (Hu : forall s err,
            update_status file_id s err w
            = Some (Raise (not_found file_id), w)).
  { intros s err. unfold update_status. rewrite Hn. reflexivity. }
  assert (He : extract_text_from_pdf X file_id w
               = Some (Raise (not_found file_id), w)).
  { unfold extract_text_from_pdf, bind. rewrite Hu. reflexivity. }
  repeat split.
  - exact He.
  - apply generate_unknown, Hn.
  - unfold route_generate_questions, try_except, bind, get_upload_status.
    rewrite Hn. reflexivity.
  - unfold route_get_generated_questions, try_except,
      get_generated_questions, bind, get_upload_status.
    rewrite Hn. reflexivity.
  - unfold _run_pipeline_task, try_except. unfold bind at 1.
    rewrite He. apply Hu.
Qed.

End ExtractionFacts.

(** ** The pipeline task and the routes *)

Section PipelineFacts.

Variable X : collaborators.
Variable file_id : str.

Lemma gateways_app a b : gateways (a ++ b) = gateways a ++ gateways b.
Proof.
  induction a as [|[] a IH]; simpl; auto. rewrite IH. reflexivity.
Qed.

Lemma gateways_loop_events total chunks : forall idx,
  gateways (loop_events file_id total idx chunks) = chunks.
Proof.
  induction chunks as [|c r IH]; intros idx; simpl; [reflexivity |].
  rewrite IH. reflexivity.
Qed.

Lemma gateways_progress_events chunks :
  gateways (progress_events file_id chunks) = chunks.
Proof. unfold progress_events. simpl. apply gateways_loop_events. Qed.

Lemma questions_path_of_nonempty : questions_path_of file_id <> [].
Proof.
  unfold questions_path_of, path_join.
  destruct (startswith _ _) eqn:E.
  - destruct file_id; discriminate.
  - discriminate.
Qed.

(** *** Reading the stored set changes nothing *)

Lemma get_generated_questions_pure w :
  exists r, get_generated_questions X file_id w = Some (r, w).
Proof.
  unfold get_generated_questions, bind, get_upload_status, lift, ret.
  repeat case_match; simplify_eq; eauto.
Qed.

Lemma get_generated_questions_ready m added w :
  exists r, get_generated_questions X file_id (ready_world X file_id m added w)
            = Some (r, ready_world X file_id m added w)
            /\ r <> Ok None.
Proof.
  unfold get_generated_questions, bind, get_upload_status, ready_world.
  cbn [uploads files]. rewrite lookup_insert_eq.
  cbn [generated_questions_path with_status with_generated_questions_path].
  pose proof questions_path_of_nonempty as Hne.
  destruct (questions_path_of file_id) as [|c p] eqn:E; [congruence |].
  cbn [files]. rewrite lookup_insert_eq.
  unfold lift, ret. repeat case_match; simplify_eq; eauto.
Qed.

(** *** Generation on a job whose text is stored *)

Lemma get_extracted_text_stored w m (path text : str) :
  uploads w !! file_id = Some m ->
  extracted_text_path m = Some path -> path <> [] ->
  files w !! path = Some text ->
  get_extracted_text file_id w = Some (Ok (Some text), w).
Proof.
  intros Hm Hp Hne Hf. destruct path as [|c p]; [congruence |].
  unfold get_extracted_text, bind.
  rewrite (get_upload_status_stored file_id w m Hm).
  rewrite Hp. cbv beta iota. rewrite Hf. reflexivity.
Qed.

(** With the text stored, the body of the run is the part after the text. *)
Lemma generate_body_stored_eq fuel w m (path text : str) :
  uploads w !! file_id = Some m ->
  extracted_text_path m = Some path -> path <> [] ->
  files w !! path = Some text -> text <> [] ->
  generate_body X fuel file_id w
  = generate_from_text X fuel file_id text
      (log (EvStatus file_id GENERATING None)
         (put_upload file_id (with_status GENERATING m) w)).
Proof.
  intros Hm Hp Hne Hf Ht. unfold generate_body. unfold bind at 1.
  rewrite (update_status_stored file_id GENERATING None w m Hm).
  cbn [truthy]. unfold bind at 1.
  rewrite (get_extracted_text_stored _ (with_status GENERATING m) path text);
    [| unfold log, put_upload; cbn [uploads]; apply lookup_insert_eq
     | exact Hp | exact Hne | exact Hf].
  destruct text as [|c t]; [congruence |]. reflexivity.
Qed.

Lemma generate_body_stored_did fuel w m (path text : str) r w' :
  uploads w !! file_id = Some m ->
  extracted_text_path m = Some path -> path <> [] ->
  files w !! path = Some text -> text <> [] ->
  generate_body X fuel file_id w = Some (r, w') ->
  (exists e, r = Raise e /\ did file_id [GENERATING] false w w')
  \/ did file_id [GENERATING; READY] true w w'.
Proof.
  intros Hm Hp Hne Hf Ht Hrun.
  rewrite (generate_body_stored_eq fuel w m path text Hm Hp Hne Hf Ht) in Hrun.
  destruct (update_status_did file_id GENERATING None w (ex_intro _ m Hm))
    as (w1 & H1 & D1).
  rewrite (update_status_stored file_id GENERATING None w m Hm) in H1.
  cbn [truthy] in H1. injection H1 as H1. rewrite H1 in Hrun.
  destruct (generate_from_text_did X file_id fuel text w1 r w'
              (did_stored _ _ _ _ _ D1) Hrun) as [(e & -> & D') | D'].
  - left. exists e. split; [reflexivity |].
    eapply did_weaken. eapply did_step; [exact D1 | exact D' | |];
      reflexivity.
  - right. eapply did_step; [exact D1 | exact D' | |]; reflexivity.
Qed.

Lemma failed_write_failed_with (msg : list N) w m :
  uploads w !! file_id = Some m -> truthy (Some msg) = true ->
  exists w', update_status file_id FAILED (Some msg) w = Some (Ok tt, w')
             /\ failed_with file_id msg w'.
Proof.
  intros Hm Ht. eexists. split; [apply update_status_stored, Hm |].
  rewrite Ht. split.
  - eexists. unfold log, put_upload. cbn [uploads].
    rewrite lookup_insert_eq. split; [reflexivity |]. split; reflexivity.
  - exists (trace w). reflexivity.
Qed.

(** A generation that raises has just written FAILED with its message. *)
Lemma generation_raise_failed_with fuel w e w' :
  is_Some (uploads w !! file_id) ->
  generate_questions_from_file X fuel file_id w = Some (Raise e, w') ->
  failed_with file_id (GENERATION_FAILED e) w'.
Proof.
  intros Hj Hrun. unfold generate_questions_from_file in Hrun.
  apply try_except_inv in Hrun as [(a & _ & Hx) | (e' & w1 & Hb & Hh)];
    [discriminate |].
  assert (Hj1 : is_Some (uploads w1 !! file_id)).
  { destruct (generate_body_did X file_id fuel w _ _ Hj Hb)
      as [(? & ? & _ & _ & D) | (? & ? & _ & _ & D)];
      exact (did_stored _ _ _ _ _ D). }
  destruct Hj1 as [m1 Hm1].
  destruct (failed_write_failed_with
              (lit "Question generation failed: " ++ exn_str e') w1 m1 Hm1)
    as (w2 & H2 & F2); [apply truthy_message; discriminate |].
  unfold bind in Hh. rewrite H2 in Hh.
  unfold raise in Hh. injection Hh as <- <-. exact F2.
Qed.

Lemma generate_stored_did fuel w m (path text : str) r w' :
  uploads w !! file_id = Some m ->
  extracted_text_path m = Some path -> path <> [] ->
  files w !! path = Some text -> text <> [] ->
  generate_questions_from_file X fuel file_id w = Some (r, w') ->
  (exists resp, r = Ok resp /\ did file_id [GENERATING; READY] true w w')
  \/ (exists e ss, r = Raise e
        /\ In ss [[GENERATING; FAILED]; [GENERATING; READY; FAILED]]
        /\ did file_id ss false w w').
Proof.
  intros Hm Hp Hne Hf Ht Hrun. unfold generate_questions_from_file in Hrun.
  apply try_except_inv in Hrun as [(a & Hb & ->) | (e & w1 & Hb & Hh)].
  - destruct (generate_body_stored_did fuel w m path text _ _
                Hm Hp Hne Hf Ht Hb) as [(? & Hx & _) | D];
      [discriminate |].
    left. eauto.
  - assert (HD : exists ss, In ss [[GENERATING]; [GENERATING; READY]]
                            /\ did file_id ss false w w1).
    { destruct (generate_body_stored_did fuel w m path text _ _
                  Hm Hp Hne Hf Ht Hb) as [(? & _ & D) | D].
      - eexists. split; [left; reflexivity | exact D].
      - eexists. split; [right; left; reflexivity |].
        exact (did_weaken _ _ _ _ _ D). }
    destruct HD as (ss & Hin & D).
    destruct (update_status_did file_id FAILED
                (Some (lit "Question generation failed: " ++ exn_str e)) w1
                (did_stored _ _ _ _ _ D)) as (w2 & H2 & D2).
    unfold bind in Hh. rewrite H2 in Hh. unfold raise in Hh.
    injection Hh as <- <-. right. exists e, (ss ++ [FAILED]).
    split; [reflexivity |]. split.
    + simpl in Hin. destruct Hin as [<- | [<- | []]]; simpl; auto.
    + eapply did_step; [exact D | exact (did_weaken _ _ _ _ _ D2) | |];
        reflexivity.
Qed.

(** *** The background task *)

Lemma extraction_outcome_nonempty m w text :
  extraction_outcome X m w = Ok text -> text <> [].
Proof.
  intros Ho ->. unfold extraction_outcome in Ho.
  repeat case_match; simplify_eq.
Qed.

Lemma extraction_raise_failed_with w m e w' :
  uploads w !! file_id = Some m ->
  extract_text_from_pdf X file_id w = Some (Raise e, w') ->
  failed_with file_id (EXTRACTION_FAILED e) w'.
Proof.
  intros Hm Hrun. rewrite (extract_text_from_pdf_run X file_id w m Hm) in Hrun.
  destruct (extraction_outcome X m w) as [text | e0].
  - destruct (encodable text); [discriminate |].
    injection Hrun as <- <-. split.
    + eexists. unfold unencodable_world. cbn [uploads].
      rewrite lookup_insert_eq. split; [reflexivity |]. split; reflexivity.
    + exists (trace w ++ [EvStatus file_id EXTRACTING None]).
      unfold unencodable_world. cbn [trace]. rewrite <- app_assoc.
      reflexivity.
  - injection Hrun as <- <-. split.
    + eexists. unfold failed_world. cbn [uploads].
      rewrite lookup_insert_eq. split; [reflexivity |]. split; reflexivity.
    + exists (trace w ++ [EvStatus file_id EXTRACTING None]).
      unfold failed_world. cbn [trace]. rewrite <- app_assoc. reflexivity.
Qed.

Lemma pipeline_body_did fuel w rb w1 :
  is_Some (uploads w !! file_id) ->
  (let! _ := extract_text_from_pdf X file_id in
   let! _ := generate_questions_from_file X fuel file_id in
   ret tt) w = Some (rb, w1) ->
  (rb = Ok tt
   /\ did file_id [EXTRACTING; EXTRACTED; GENERATING; READY] true w w1)
  \/ (exists e ss prefix,
        rb = Raise e
        /\ In ss [[EXTRACTING; EXTRACTED; GENERATING; FAILED];
                  [EXTRACTING; EXTRACTED; GENERATING; READY; FAILED];
                  [EXTRACTING; FAILED]]
        /\ did file_id ss false w w1
        /\ In prefix service_prefixes
        /\ failed_with file_id (prefix ++ exn_str e) w1).
Proof.
  intros Hj Hb. pose proof Hj as [m Hm].
  apply bind_inv in Hb as [(t & w2 & He & Hg) | (e & He & ->)].
  - destruct (extract_text_from_pdf_did X file_id w _ _ Hj He)
      as [(? & _ & D1) | (? & Hx & _)]; [| discriminate].
    rewrite (extract_text_from_pdf_run X file_id w m Hm) in He.
    destruct (extraction_outcome X m w) as [text | e] eqn:Ho;
      [| discriminate].
    destruct (encodable text); [| discriminate].
    injection He as <- <-.
    pose proof (universal_newlines_nonempty text
                  (extraction_outcome_nonempty m w text Ho)) as Hne.
    assert (Hst : forall r w',
              generate_questions_from_file X fuel file_id
                (extracted_world file_id m text w) = Some (r, w') ->
              (exists resp, r = Ok resp
                 /\ did file_id [GENERATING; READY] true
                      (extracted_world file_id m text w) w')
              \/ (exists e ss, r = Raise e
                    /\ In ss [[GENERATING; FAILED];
                              [GENERATING; READY; FAILED]]
                    /\ did file_id ss false
                         (extracted_world file_id m text w) w')).
    { intros r w'.
      apply (generate_stored_did fuel _
               (with_status EXTRACTED
                  (with_extracted_text_path (Some (text_path_of file_id)) m))
               (text_path_of file_id) (universal_newlines text)).
      - unfold extracted_world. cbn [uploads]. apply lookup_insert_eq.
      - reflexivity.
      - apply text_path_of_nonempty.
      - unfold extracted_world. cbn [files]. apply lookup_insert_eq.
      - exact Hne. }
    apply bind_inv in Hg as [(resp & w3 & Hgen & Hret) | (e & Hgen & ->)].
    + destruct (Hst _ _ Hgen) as [(? & _ & D2) | (? & ? & Hx & _)];
        [| discriminate].
      unfold ret in Hret. injection Hret as <- <-. left.
      split; [reflexivity |].
      eapply did_step; [exact D1 | exact D2 | |]; reflexivity.
    + destruct (Hst _ _ Hgen) as [(? & Hx & _) | (e' & ss & _ & Hin & D2)];
        [discriminate |].
      right. exists e, ([EXTRACTING; EXTRACTED] ++ ss),
        (lit "Question generation failed: ").
      split; [reflexivity |]. split; [| split; [| split]].
      * simpl in Hin. destruct Hin as [<- | [<- | []]]; simpl; auto.
      * eapply did_step; [exact D1 | exact D2 | |]; reflexivity.
      * unfold service_prefixes. simpl. auto.
      * apply (generation_raise_failed_with fuel
                 (extracted_world file_id m text w)); [| exact Hgen].
        unfold extracted_world. cbn [uploads].
        rewrite lookup_insert_eq. eauto.
  - destruct (extract_text_from_pdf_did X file_id w _ _ Hj He)
      as [(? & Hx & _) | (? & _ & D1)]; [discriminate |].
    right. exists e, [EXTRACTING; FAILED], (lit "Extraction failed: ").
    split; [reflexivity |]. split; [simpl; auto |].
    split; [exact D1 |]. split; [unfold service_prefixes; simpl; auto |].
    exact (extraction_raise_failed_with w m e w1 Hm He).
Qed.

Lemma did_last ss k w w' :
  did file_id ss k w w' -> ss <> [] ->
  exists evs, trace w' = trace w ++ evs /\ statuses evs = ss
              /\ status <$> uploads w' !! file_id = last ss.
Proof.
  intros ((evs & Ht & Hs) & m & m' & _ & Hm' & Hst & _) Hne.
  exists evs. repeat split; try assumption. rewrite Hm'. simpl.
  rewrite Hst. destruct (last ss) eqn:E; [reflexivity |].
  apply last_None in E. contradiction.
Qed.


(** X11:
    When the pipeline task fails, the error left on the job is the bare
    message of the exception: the task writes FAILED once more, right
    after the service wrote its own prefixed message, which only survives
    when the exception has an empty message. *)
Theorem pipeline_failure_message fuel w r w' :
  is_Some (uploads w !! file_id) ->
  _run_pipeline_task X fuel file_id w = Some (r, w') ->
  status <$> uploads w' !! file_id = Some FAILED ->
  exists e prefix,
    In prefix service_prefixes
    /\ error <$> uploads w' !! file_id
       = Some (Some (match exn_str e with
                     | [] => prefix
                     | _ => exn_str e
                     end))
    /\ exists evs,
         trace w' = evs ++ [EvStatus file_id FAILED (Some (prefix ++ exn_str e));
                            EvStatus file_id FAILED (Some (exn_str e))].
Proof.
  intros Hj Hrun Hfailed. unfold _run_pipeline_task in Hrun.
  apply try_except_inv in Hrun as [(a & Hb & ->) | (e & w1 & Hb & Hh)].
  - destruct (pipeline_body_did fuel w _ _ Hj Hb)
      as [(_ & D) | (? & ? & ? & Hx & _)]; [| discriminate].
    destruct (did_last _ _ _ _ D) as (evs & _ & _ & Hl); [discriminate |].
    rewrite Hl in Hfailed. discriminate.
  - destruct (pipeline_body_did fuel w _ _ Hj Hb)
      as [(Hx & _) | (e' & ss & p & He & _ & _ & Hp & F)]; [discriminate |].
    injection He as <-.
    destruct F as ((m1 & Hm1 & Hs1 & He1) & evs & Ht).
    rewrite (update_status_stored file_id FAILED (Some (exn_str e)) w1 m1 Hm1)
      in Hh.
    injection Hh as <- <-.
    exists e, p. split; [exact Hp |]. split.
    + unfold log, put_upload. cbn [uploads]. rewrite lookup_insert_eq.
      destruct (exn_str e) as [|c s]; cbn [truthy fmap option_fmap option_map];
        [| reflexivity].
      cbn [error with_status]. rewrite He1, app_nil_r. reflexivity.
    + exists evs. unfold log, put_upload. cbn [trace].
      rewrite Ht, <- app_assoc. reflexivity.
Qed.

End PipelineFacts.

(** ** Status writes *)

Section StatusFacts.

Variable X : collaborators.
Variable file_id : str.

(** The run of a generation that finds no stored text. *)
Lemma generate_body_unstored_did fuel w m r w' :
  uploads w !! file_id = Some m -> no_stored_text m w ->
  generate_body X fuel file_id w = Some (r, w') ->
  (exists resp, r = Ok resp
     /\ did file_id [GENERATING; EXTRACTING; EXTRACTED; READY] true w w')
  \/ (exists e ss, r = Raise e
        /\ In ss [[GENERATING; EXTRACTING; EXTRACTED];
                  [GENERATING; EXTRACTING; EXTRACTED; READY];
                  [GENERATING; EXTRACTING; FAILED]]
        /\ did file_id ss false w w').
Proof.
  intros Hm Hn Hrun. unfold generate_body in Hrun.
  destruct (update_status_did file_id GENERATING None w (ex_intro _ m Hm))
    as (w1 & H1 & D1).
  pose proof H1 as H1'.
  rewrite (update_status_stored file_id GENERATING None w m Hm) in H1'.
  cbn [truthy] in H1'. injection H1' as H1'.
  unfold bind at 1 in Hrun. rewrite H1 in Hrun.
  destruct (get_extracted_text_none file_id GENERATING w m Hn)
    as (o & Hg & Hnone).
  rewrite H1' in Hg.
  unfold bind at 1 in Hrun. rewrite Hg in Hrun.
  assert (Hb : bind (extract_text_from_pdf X file_id)
                 (generate_from_text X fuel file_id) w1 = Some (r, w')).
  { destruct Hnone as [-> | ->]; exact Hrun. }
  clear Hrun.
  pose proof (did_stored _ _ _ _ _ D1) as Hj1.
  apply bind_inv in Hb as [(t & w2 & He & Hgen) | (e & He & ->)].
  - destruct (extract_text_from_pdf_did X file_id w1 _ _ Hj1 He)
      as [(? & _ & D2) | (? & Hx & _)]; [| discriminate].
    assert (D12 : did file_id [GENERATING; EXTRACTING; EXTRACTED] true w w2).
    { eapply did_step; [exact D1 | exact D2 | |]; reflexivity. }
    destruct (generate_from_text_did X file_id fuel t w2 r w'
                (did_stored _ _ _ _ _ D12) Hgen) as [(e & -> & D3) | D3].
    + right. exists e, [GENERATING; EXTRACTING; EXTRACTED].
      split; [reflexivity |]. split; [simpl; auto |].
      eapply did_weaken. eapply did_step; [exact D12 | exact D3 | |];
        reflexivity.
    + assert (D : did file_id [GENERATING; EXTRACTING; EXTRACTED; READY]
                    true w w').
      { eapply did_step; [exact D12 | exact D3 | |]; reflexivity. }
      destruct r as [resp | e].
      * left. eauto.
      * right. exists e, [GENERATING; EXTRACTING; EXTRACTED; READY].
        split; [reflexivity |]. split; [simpl; auto |].
        exact (did_weaken _ _ _ _ _ D).
  - destruct (extract_text_from_pdf_did X file_id w1 _ _ Hj1 He)
      as [(? & Hx & _) | (? & _ & D2)]; [discriminate |].
    right. exists e, [GENERATING; EXTRACTING; FAILED].
    split; [reflexivity |]. split; [simpl; auto |].
    eapply did_step; [exact D1 | exact D2 | |]; reflexivity.
Qed.

Lemma generate_unstored_did fuel w m r w' :
  uploads w !! file_id = Some m -> no_stored_text m w ->
  generate_questions_from_file X fuel file_id w = Some (r, w') ->
  exists ss k,
    In ss [[GENERATING; EXTRACTING; EXTRACTED; READY];
           [GENERATING; EXTRACTING; EXTRACTED; FAILED];
           [GENERATING; EXTRACTING; EXTRACTED; READY; FAILED];
           [GENERATING; EXTRACTING; FAILED; FAILED]]
    /\ did file_id ss k w w'.
Proof.
  intros Hm Hn Hrun. unfold generate_questions_from_file in Hrun.
  apply try_except_inv in Hrun as [(a & Hb & ->) | (e & w1 & Hb & Hh)].
  - destruct (generate_body_unstored_did fuel w m _ _ Hm Hn Hb)
      as [(? & _ & D) | (? & ? & Hx & _)]; [| discriminate].
    do 2 eexists. split; [| exact D]. simpl. auto.
  - destruct (generate_body_unstored_did fuel w m _ _ Hm Hn Hb)
      as [(? & Hx & _) | (e' & ss & _ & Hin & D)]; [discriminate |].
    destruct (update_status_did file_id FAILED
                (Some (lit "Question generation failed: " ++ exn_str e)) w1
                (did_stored _ _ _ _ _ D)) as (w2 & H2 & D2).
    unfold bind in Hh. rewrite H2 in Hh. unfold raise in Hh.
    injection Hh as <- <-. exists (ss ++ [FAILED]), false. split.
    + simpl in Hin. destruct Hin as [<- | [<- | [<- | []]]]; simpl; auto.
    + eapply did_step; [exact D | exact (did_weaken _ _ _ _ _ D2) | |];
        reflexivity.
Qed.

(** Extraction on a job in any status: the status it had is overwritten
    before anything reads it. *)
Lemma extract_any_status s m w :
  extract_text_from_pdf X file_id (set_status file_id s m w)
  = Some (match extraction_outcome X m w with
          | Ok text =>
              if encodable text
              then (Ok text, extracted_world file_id m text w)
              else (Raise (UnicodeEncodeError text),
                    unencodable_world file_id m text w)
          | Raise e =>
              (Raise e,
               failed_world file_id m
                 [EvStatus file_id EXTRACTING None;
                  EvStatus file_id FAILED (Some (EXTRACTION_FAILED e))]
                 (EXTRACTION_FAILED e) w)
          end).
Proof.
  rewrite (extract_text_from_pdf_run X file_id _ (with_status s m))
    by (unfold set_status, put_upload; cbn [uploads];
        apply lookup_insert_eq).
  change (extraction_outcome X (with_status s m) (set_status file_id s m w))
    with (extraction_outcome X m w).
  unfold extracted_world, unencodable_world, failed_world, set_status,
    put_upload.
  cbn [uploads files ticks calls trace].
  destruct (extraction_outcome X m w) as [text | e];
    [destruct (encodable text) |];
    rewrite insert_insert_eq; reflexivity.
Qed.


End StatusFacts.


Section RouteFacts.

Variable X : collaborators.
Variable file_id : str.

(** *** The provider and the chunks *)

Lemma chunks_of_stored_text fuel text chunks :
  text <> [] ->
  Chunker.chunk_text fuel text None None = Some chunks ->
  Forall (fun c => c <> [] /\ len c <= settings.max_chunk_size) chunks.
Proof.
  intros Hne Hc. unfold Chunker.chunk_text in Hc.
  cbv [default from_option id] in Hc.
  destruct (Z.leb_spec (len text) settings.max_chunk_size) as [Hle | Hgt].
  - injection Hc as <-. constructor; [| constructor].
    split; [exact Hne | exact Hle].
  - assert (Hg : Forall (good_chunk text) chunks).
    { eapply ChunkerMore.loop_good; [| exact Hc]. constructor. }
    assert (Hs : Forall (short_chunk settings.max_chunk_size) chunks).
    { eapply ChunkerMore.loop_short; [| | | exact Hc].
      - vm_compute. split; [discriminate | reflexivity].
      - vm_compute. discriminate.
      - constructor. }
    rewrite Forall_forall in Hs, Hg |- *. intros c Hin.
    split; [apply (Hg c Hin) | apply (Hs c Hin)].
Qed.

(** X12:
    On a job with stored text, whatever the outcome of the run, the
    provider is called exactly once for each chunk of the text, in order,
    and for nothing else; with the default settings no chunk is empty or
    longer than 2000 characters. *)
Theorem provider_is_called_once_per_chunk fuel w m (path text : str) r w' :
  uploads w !! file_id = Some m ->
  extracted_text_path m = Some path -> path <> [] ->
  files w !! path = Some text -> text <> [] ->
  generate_questions_from_file X fuel file_id w = Some (r, w') ->
  exists chunks evs,
    Chunker.chunk_text fuel text None None = Some chunks
    /\ trace w' = trace w ++ evs
    /\ gateways evs = chunks
    /\ calls w' = (calls w + length chunks)%nat
    /\ Forall (fun c => c <> [] /\ len c <= settings.max_chunk_size) chunks.
Proof.
  intros Hm Hp Hne Hf Ht Hrun.
  destruct (Chunker.chunk_text fuel text None None) as [chunks |] eqn:Hc.
  2:{ unfold generate_questions_from_file, try_except in Hrun.
      rewrite (generate_body_stored_eq X file_id fuel w m path text
                 Hm Hp Hne Hf Ht) in Hrun.
      unfold generate_from_text, bind in Hrun. rewrite Hc in Hrun.
      discriminate. }
  exists chunks.
  destruct (generate_body_stored X file_id fuel w m path text chunks
              Hm Hp Hne Hf Ht Hc) as (added & m' & _ & _ & Hbody).
  assert (Hfin : exists tail w1 rb,
            generate_body X fuel file_id w = Some (rb, w1)
            /\ is_Some (uploads w1 !! file_id)
            /\ trace w1 = trace w ++ EvStatus file_id GENERATING None
                 :: progress_events file_id chunks ++ tail
            /\ gateways tail = []
            /\ calls w1 = (calls w + length chunks)%nat).
  { rewrite Hbody. destruct added as [|q qs].
    - rewrite finish_empty. exists []. do 2 eexists. split; [reflexivity |].
      cbn [uploads trace calls]. rewrite lookup_insert_eq, app_nil_r.
      eauto.
    - erewrite finish_nonempty;
        [| cbn [uploads]; apply lookup_insert_eq | discriminate].
      exists [EvStatus file_id READY None]. do 2 eexists.
      split; [reflexivity |].
      unfold ready_world. cbn [uploads trace calls].
      rewrite lookup_insert_eq, <- app_assoc. eauto. }
  destruct Hfin as (tail & w1 & rb & Hb & [m1 Hm1] & Htr & Hgt & Hcalls).
  unfold generate_questions_from_file, try_except in Hrun.
  rewrite Hb in Hrun.
  assert (Hg : forall t, gateways t = [] ->
            gateways (EvStatus file_id GENERATING None
                        :: progress_events file_id chunks ++ t) = chunks).
  { intros t Hnil. cbn [gateways].
    rewrite gateways_app, gateways_progress_events, Hnil, app_nil_r.
    reflexivity. }
  destruct rb as [resp | e].
  - injection Hrun as <- <-. eexists. split; [reflexivity |].
    split; [exact Htr |]. split; [apply Hg, Hgt |].
    split; [exact Hcalls |].
    eapply chunks_of_stored_text; eassumption.
  - unfold bind in Hrun.
    rewrite (update_status_stored file_id FAILED _ w1 m1 Hm1) in Hrun.
    unfold raise in Hrun. injection Hrun as <- <-.
    exists (EvStatus file_id GENERATING None
              :: progress_events file_id chunks
              ++ (tail ++ [EvStatus file_id FAILED
                             (Some (GENERATION_FAILED e))])).
    split; [reflexivity |]. unfold log, put_upload. cbn [trace calls].
    split; [| split; [| split]].
    + rewrite Htr, <- app_assoc. f_equal.
      rewrite <- app_comm_cons, <- app_assoc. reflexivity.
    + apply Hg. rewrite gateways_app, Hgt. reflexivity.
    + exact Hcalls.
    + eapply chunks_of_stored_text; eassumption.
Qed.

(** *** The two routes over the stored set *)

Lemma get_route_is_read_only_aux w :
  exists r, route_get_generated_questions X file_id w = Some (r, w).
Proof.
  unfold route_get_generated_questions, try_except.
  destruct (get_generated_questions_pure X file_id w) as (r & Hr).
  unfold bind. rewrite Hr. unfold ret, raise.
  repeat case_match; simplify_eq; eauto.
Qed.

Lemma get_generated_questions_absent w m :
  uploads w !! file_id = Some m -> no_stored_set m w ->
  get_generated_questions X file_id w = Some (Ok None, w).
Proof.
  unfold no_stored_set. intros Hm Hn.
  unfold get_generated_questions, bind.
  rewrite (get_upload_status_stored file_id w m Hm).
  destruct (generated_questions_path m) as [[|c p] |]; try reflexivity.
  unfold str in *. rewrite Hn. reflexivity.
Qed.

(** X13:
    The route that reads the stored set always answers and never changes
    anything; for a job without a stored set the answer is the 404 that
    asks to generate first. *)
Theorem get_route_is_read_only w :
  exists r,
    route_get_generated_questions X file_id w = Some (r, w)
    /\ forall m, uploads w !! file_id = Some m -> no_stored_set m w ->
                 r = Raise (no_questions_found file_id).
Proof.
  destruct (get_route_is_read_only_aux w) as (r & Hr).
  exists r. split; [exact Hr |]. intros m Hm Hn.
  unfold route_get_generated_questions, try_except, bind in Hr.
  rewrite (get_generated_questions_absent w m Hm Hn) in Hr.
  unfold raise, no_questions_found in Hr. injection Hr as <-. reflexivity.
Qed.

(** X14:
    What the reading route serves, the generating route serves too, without
    generating: a set that can be read is never generated again. *)
Theorem stored_set_is_not_generated_again fuel w resp w0 :
  route_get_generated_questions X file_id w = Some (Ok resp, w0) ->
  route_generate_questions X fuel file_id w = Some (Ok resp, w).
Proof.
  unfold route_get_generated_questions, route_generate_questions, try_except.
  destruct (get_generated_questions_pure X file_id w) as (r & Hr).
  unfold bind at 1. rewrite Hr. intros Hget.
  assert (Hs : r = Ok (Some resp)).
  { destruct r as [[resp' |] | e]; unfold ret, raise in Hget.
    - congruence.
    - discriminate.
    - destruct e; discriminate. }
  subst r.
  assert (Hu : exists m, uploads w !! file_id = Some m).
  { unfold get_generated_questions, bind, get_upload_status in Hr.
    destruct (uploads w !! file_id); [eauto | discriminate]. }
  destruct Hu as (m & Hm).
  unfold bind at 1. rewrite (get_upload_status_stored file_id w m Hm).
  unfold bind. rewrite Hr. reflexivity.
Qed.

(** A generation that returned has left the set where the routes find it. *)
Lemma generation_ok_ready fuel w resp w' :
  generate_questions_from_file X fuel file_id w = Some (Ok resp, w') ->
  exists m added w0, w' = ready_world X file_id m added w0.
Proof.
  intros Hrun.
  destruct (uploads w !! file_id) as [m |] eqn:Hm.
  2:{ rewrite (generate_unknown X file_id fuel w Hm) in Hrun.
      discriminate. }
  unfold generate_questions_from_file in Hrun.
  apply try_except_inv in Hrun as [(a & Hb & Ha) | (e & w1 & _ & Hh)].
  2:{ unfold bind, raise in Hh. repeat case_match; simplify_eq. }
  injection Ha as <-. unfold generate_body in Hb.
  apply bind_inv in Hb as [(? & w1 & H1 & Hb) | (? & _ & Hx)];
    [| discriminate].
  destruct (update_status_did file_id GENERATING None w (ex_intro _ m Hm))
    as (w1' & H1' & D1).
  rewrite H1 in H1'. injection H1' as _ <-.
  pose proof (did_stored _ _ _ _ _ D1) as Hj1.
  apply bind_inv in Hb as [(o & w2 & H2 & Hb) | (? & _ & Hx)];
    [| discriminate].
  destruct (get_extracted_text_pure file_id w1 Hj1) as (o' & Ho').
  rewrite H2 in Ho'. injection Ho' as <- <-.
  apply bind_inv in Hb as [(text & w3 & H3 & Hb) | (? & _ & Hx)];
    [| discriminate].
  assert (Hj3 : is_Some (uploads w3 !! file_id)).
  { destruct o as [[|c t] |];
      try (destruct (extract_text_from_pdf_did X file_id _ _ _ Hj1 H3)
             as [(? & _ & D) | (? & _ & D)];
           exact (did_stored _ _ _ _ _ D)).
    cbv beta iota delta [ret] in H3. injection H3 as _ <-. exact Hj1. }
  destruct Hj3 as [m3 Hm3].
  destruct (Chunker.chunk_text fuel text None None) as [chunks |] eqn:Hc.
  2:{ unfold generate_from_text, bind in Hb. rewrite Hc in Hb.
      discriminate. }
  destruct (generate_from_text_spec X file_id fuel text chunks w3 m3 Hm3 Hc)
    as (added & m' & _ & _ & Heq).
  rewrite Heq in Hb. destruct added as [|q qs].
  - rewrite finish_empty in Hb. discriminate.
  - erewrite finish_nonempty in Hb;
      [| cbn [uploads]; apply lookup_insert_eq | discriminate].
    injection Hb as _ <-. eauto.
Qed.

(** X15:
    After a generation that returned, a further request to either route
    leaves everything as it is: the provider is not called again, whether
    the stored file can be read back or not. *)
Theorem repeated_request_changes_nothing fuel fuel' w resp w' :
  generate_questions_from_file X fuel file_id w = Some (Ok resp, w') ->
  (exists r, route_generate_questions X fuel' file_id w' = Some (r, w'))
  /\ (exists r, route_get_generated_questions X file_id w' = Some (r, w')).
Proof.
  intros Hrun.
  destruct (generation_ok_ready fuel w resp w' Hrun) as (m & added & w0 & ->).
  split.
  - destruct (get_generated_questions_ready X file_id m added w0)
      as (r & Hr & Hne).
    unfold route_generate_questions, try_except.
    unfold bind at 1.
    erewrite get_upload_status_stored;
      [| unfold ready_world; cbn [uploads]; apply lookup_insert_eq].
    unfold bind. rewrite Hr.
    destruct r as [[resp' |] | e]; [| congruence |].
    + eexists. reflexivity.
    + destruct e; eexists; reflexivity.
  - destruct (get_route_is_read_only_aux (ready_world X file_id m added w0))
      as (r & Hr). eauto.
Qed.

(** X16:
    Whatever the two routes raise is an HTTP error. *)
Theorem routes_raise_only_http fuel w e w' :
  route_generate_questions X fuel file_id w = Some (Raise e, w')
  \/ route_get_generated_questions X file_id w = Some (Raise e, w') ->
  exists code detail, e = HTTPException code detail.
Proof.
  intros [H | H].
  - unfold route_generate_questions in H.
    apply try_except_inv in H as [(? & _ & Hx) | (e0 & w1 & _ & Hh)];
      [discriminate |].
    destruct e0; unfold raise in Hh; injection Hh as <- _; eauto.
  - unfold route_get_generated_questions in H.
    apply try_except_inv in H as [(? & _ & Hx) | (e0 & w1 & _ & Hh)];
      [discriminate |].
    destruct e0; unfold raise in Hh; injection Hh as <- _; eauto.
Qed.

End RouteFacts.

(** ** Progress *)

Section ProgressFacts.

Variable X : collaborators.
Variable file_id : str.

Lemma for_chunks_progress total chunks : forall idx acc w m,
  uploads w !! file_id = Some m ->
  exists r w',
    for_chunks X file_id total idx chunks acc w = Some (Ok r, w')
    /\ uploads w' !! file_id
       = Some match chunks with
              | [] => m
              | _ => with_progress (Z.of_nat (idx + length chunks)) total
                       (Some (chunk_message (Z.of_nat (idx + length chunks))
                                total)) m
              end.
Proof.
  induction chunks as [|chunk rest IH]; intros idx acc w m Hm.
  - exists acc, w. split; [reflexivity | exact Hm].
  - destruct (chunk_body_spec X file_id total idx chunk acc w m Hm)
      as (a1 & oe & Hrun & _).
    cbn [for_chunks]. unfold bind at 1. rewrite Hrun. cbn [fst].
    match goal with |- context [for_chunks _ _ _ _ _ _ ?w1] =>
      edestruct (IH (S idx) (acc ++ a1) w1) as (r & w' & Hrest & Hj)
    end.
    { cbn [uploads]. apply lookup_insert_eq. }
    exists r, w'. split; [exact Hrest |]. rewrite Hj.
    destruct rest as [|c2 rest].
    + cbn [length]. replace (Z.of_nat (idx + 1)) with (Z.of_nat idx + 1) by lia.
      reflexivity.
    + cbn [length]. rewrite with_progress_twice.
      replace (S idx + S (length rest))%nat
        with (idx + S (S (length rest)))%nat by lia.
      reflexivity.
Qed.

(** X23:
    Progress counts the chunks tried, not the chunks that gave drafts: on
    a job with stored text, whatever the provider answers and however the
    run ends, the job is left with progress N of N and the message of the
    last chunk, N being the number of chunks; a text that yields no chunk
    leaves 0 of 0 and the starting message. *)
Theorem progress_counts_every_chunk fuel w m (path text : str) chunks r w' :
  uploads w !! file_id = Some m ->
  extracted_text_path m = Some path -> path <> [] ->
  files w !! path = Some text -> text <> [] ->
  Chunker.chunk_text fuel text None None = Some chunks ->
  generate_questions_from_file X fuel file_id w = Some (r, w') ->
  exists m', uploads w' !! file_id = Some m'
             /\ same_progress (final_progress (length chunks) m) m'.
Proof.
  intros Hm Hp Hne Hf Ht Hc Hrun.
  unfold generate_questions_from_file, try_except in Hrun.
  rewrite (generate_body_stored_eq X file_id fuel w m path text
             Hm Hp Hne Hf Ht) in Hrun.
  unfold generate_from_text in Hrun. unfold bind at 1 in Hrun.
  rewrite Hc in Hrun. unfold bind at 1 in Hrun.
  unfold update_progress at 1 in Hrun. unfold log at 1, put_upload at 1 in Hrun.
  cbn [uploads] in Hrun. rewrite lookup_insert_eq in Hrun.
  change (truthy (Some (lit "Starting question generation..."))) with true
    in Hrun. cbv iota in Hrun.
  unfold bind at 1 in Hrun.
  match type of Hrun with context [for_chunks _ _ ?t ?i ?cs ?a ?w1] =>
    destruct (for_chunks_progress t cs i a w1
                (with_progress 0 t (Some (lit "Starting question generation..."))
                   (with_status GENERATING m)))
      as (acc & w2 & Hloop & Hj)
  end.
  { unfold log, put_upload. cbn [uploads]. apply lookup_insert_eq. }
  rewrite Hloop in Hrun.
  set (job2 := match chunks with
               | [] => _
               | _ => _
               end) in Hj.
  assert (Hsame : same_progress (final_progress (length chunks) m) job2).
  { unfold job2. destruct chunks as [|c cs];
      [repeat split |].
    cbn [length final_progress Nat.add]. repeat split. }
  clearbody job2.
  assert (Hend : forall (rb : result GeneratedQuestionsResponse) w3 m3,
            uploads w3 !! file_id = Some m3 -> same_progress job2 m3 ->
            match rb with
            | Ok a => Some (Ok a, w3)
            | Raise e =>
                (let! _ := update_status file_id FAILED
                             (Some (lit "Question generation failed: "
                                    ++ exn_str e)) in
                 raise e) w3
            end = Some (r, w') ->
            exists m', uploads w' !! file_id = Some m'
                       /\ same_progress job2 m').
  { intros rb w3 m3 Hm3 Hs3 Hfin. destruct rb as [a | e].
    - injection Hfin as <- <-. eauto.
    - unfold bind in Hfin.
      rewrite (update_status_stored file_id FAILED _ w3 m3 Hm3) in Hfin.
      unfold raise in Hfin. injection Hfin as <- <-.
      eexists. split; [unfold log, put_upload; cbn [uploads];
                       apply lookup_insert_eq |].
      first [exact Hs3
            | match goal with |- context [if ?b then _ else _] =>
                destruct b end; exact Hs3]. }
  assert (Hgoal : exists m', uploads w' !! file_id = Some m'
                             /\ same_progress job2 m').
  { destruct acc as [|q qs].
    - rewrite finish_empty in Hrun.
      eapply (Hend (Raise NO_QUESTIONS) w2 job2 Hj); [| exact Hrun].
      repeat split.
    - erewrite finish_nonempty in Hrun; [| exact Hj | discriminate].
      apply (Hend (response_of X file_id (q :: qs))
               (ready_world X file_id job2 (q :: qs) w2)
               (with_status READY
                  (with_generated_questions_path
                     (Some (questions_path_of file_id)) job2))).
      + unfold ready_world. cbn [uploads]. apply lookup_insert_eq.
      + repeat split.
      + exact Hrun. }
  destruct Hgoal as (m' & Hm' & (A & B & C)).
  destruct Hsame as (A' & B' & C').
  exists m'. split; [exact Hm' |]. repeat split; congruence.
Qed.

End ProgressFacts.

(** ** Drafts, answers, settings, uploads *)

Module StampFacts.

Lemma dict_get_set_eq key v items :
  dict_get key (dict_set key v items) = Some v.
Proof.
  induction items as [|[k u] r IH]; simpl.
  - unfold str_eqb. rewrite bool_decide_eq_true_2; reflexivity.
  - destruct (str_eqb k key) eqn:E; simpl; rewrite E; auto.
Qed.

Lemma dict_get_set_ne key k v items :
  k <> key -> dict_get k (dict_set key v items) = dict_get k items.
Proof.
  intros Hne. induction items as [|[k0 u] r IH]; simpl.
  - unfold str_eqb. rewrite bool_decide_eq_false_2; congruence.
  - destruct (str_eqb k0 key) eqn:E; simpl.
    + unfold str_eqb in E. apply bool_decide_eq_true_1 in E. subst k0.
      unfold str_eqb. rewrite bool_decide_eq_false_2 by congruence.
      reflexivity.
    + destruct (str_eqb k0 k); auto.
Qed.

Section Stamps.

Variable X : collaborators.
Variable file_id : str.

(** X17:
    The inner loop stamps every dict it reaches, in order: [file_id] is
    the id of the job, whatever the answer of the provider said;
    [created_at] is a reading of the clock of its own, one per draft; no
    other key is touched. *)
Theorem drafts_are_stamped qs : forall acc w,
  exists added oe,
    stamp_drafts X file_id qs acc w
    = Some (Ok (acc ++ added, oe), ticked (length added) w)
    /\ length added = length (dict_prefix qs)
    /\ forall (i : nat) items0,
         dict_prefix qs !! i = Some (PDict items0) ->
         exists items,
           added !! i = Some (PDict items)
           /\ dict_get (lit "file_id") items = Some (PStr file_id)
           /\ dict_get (lit "created_at") items
              = Some (PDatetime (utcnow X (ticks w + i)))
           /\ forall k, k <> lit "file_id" -> k <> lit "created_at" ->
                        dict_get k items = dict_get k items0.
Proof.
  induction qs as [|q qs IH]; intros acc w.
  - exists [], None. simpl. unfold ret.
    rewrite app_nil_r, NormalizerFacts.ticked_0.
    split; [reflexivity |]. split; [reflexivity |].
    intros i items0 H. destruct i; discriminate.
  - destruct q as [| | | | |items|items|];
      try (exists [], (Some TypeError); simpl; unfold ret;
           rewrite app_nil_r, NormalizerFacts.ticked_0;
           split; [reflexivity |]; split; [reflexivity |];
           intros i items0 H; destruct i; discriminate).
    simpl. unfold bind, read_clock.
    edestruct (IH (acc ++
                     [PDict (dict_set (lit "created_at")
                               (PDatetime (utcnow X (ticks w)))
                               (dict_set (lit "file_id") (PStr file_id)
                                  items))])
                 (mkWorld (uploads w) (files w) (S (ticks w)) (calls w)
                    (trace w)))
      as (added & oe & Hrun & Hlen & Hall).
    eexists (_ :: added), oe. split; [| split].
    + rewrite Hrun. rewrite <- app_assoc. simpl.
      rewrite NormalizerFacts.ticked_S. reflexivity.
    + simpl. rewrite Hlen. reflexivity.
    + intros [|i] items0 Hi; simpl in Hi.
      * injection Hi as <-. eexists. split; [reflexivity |].
        split; [| split].
        -- rewrite dict_get_set_ne by discriminate.
           apply dict_get_set_eq.
        -- rewrite Nat.add_0_r. apply dict_get_set_eq.
        -- intros k H1 H2. rewrite !dict_get_set_ne by assumption.
           reflexivity.
      * destruct (Hall i items0 Hi) as (its & Ha & Hf & Hc & Ho).
        exists its. split; [exact Ha |]. split; [exact Hf |].
        split; [| exact Ho].
        cbn [ticks] in Hc.
        replace (ticks w + S i)%nat with (S (ticks w) + i)%nat by lia.
        exact Hc.
Qed.

End Stamps.

End StampFacts.

Module AnswerFacts.
Import LLMService ChunkerMore.

Lemma piece_of_refl (s : str) : piece_of s s.
Proof. exists [], []. rewrite app_nil_r. reflexivity. Qed.

Lemma clean_piece s : piece_of (clean s) s.
Proof.
  unfold clean.
  eapply piece_of_trans; [apply strip_piece |].
  eapply piece_of_trans;
    [destruct (endswith _ _); [apply slice_piece | apply piece_of_refl] |].
  eapply piece_of_trans;
    [destruct (startswith FENCE _); [apply slice_piece | apply piece_of_refl] |].
  eapply piece_of_trans;
    [destruct (startswith FENCE_JSON _);
       [apply slice_piece | apply piece_of_refl] |].
  apply strip_piece.
Qed.

Lemma no_lbrace_piece a s : piece_of a s -> no_lbrace s -> no_lbrace a.
Proof.
  intros (x & y & ->) H. unfold no_lbrace in *.
  apply Forall_app in H as [_ H]. apply Forall_app in H as [H _]. exact H.
Qed.

Lemma find_char_absent c s : Forall (fun d => d <> c) s -> find_char c s = -1.
Proof.
  induction 1 as [|d r Hd _ IH]; simpl; [reflexivity |].
  rewrite (proj2 (N.eqb_neq d c) Hd), IH. reflexivity.
Qed.

Lemma brace_scan_absent r : forall i c,
  no_lbrace r -> c <= 0 -> brace_scan r i c = -1.
Proof.
  induction r as [|d r IH]; intros i c Hn Hc; simpl; [reflexivity |].
  inversion Hn as [|? ? Hd Hr]; subst.
  rewrite (proj2 (N.eqb_neq d LBRACE) Hd).
  destruct (d =? RBRACE)%N.
  - destruct (Z.eqb_spec (c - 1) 0); [lia |]. apply IH; [exact Hr | lia].
  - apply IH; assumption.
Qed.

(** X18:
    An answer without any opening brace goes to [json.loads] whole, once
    cleaned: neither the search for the first brace nor the brace count
    cuts anything, so an answer that is a bare JSON array or scalar is
    parsed and returned. *)
Theorem answer_without_brace_is_parsed_whole response :
  no_lbrace response ->
  bounded response = clean response
  /\ generate_questions (Ok response)
     = match json_loads (clean response) with
       | Ok questions_data => Ok questions_data
       | Raise e =>
           Raise (Exception
                    (lit "Invalid JSON response from LLM: " ++ exn_str e))
       end.
Proof.
  intros Hn.
  assert (Hc : no_lbrace (clean response))
    by (eapply no_lbrace_piece; [apply clean_piece | exact Hn]).
  assert (Hb : bounded response = clean response).
  { unfold bounded, from_first_brace, to_json_end.
    rewrite (find_char_absent LBRACE (clean response) Hc).
    cbn [Z.gtb Z.compare].
    rewrite (brace_scan_absent (clean response) 0 0 Hc) by lia.
    reflexivity. }
  split; [exact Hb |].
  unfold generate_questions, parse_response. rewrite Hb. reflexivity.
Qed.

(** X19:
    An answer of white space only is rejected with the error of an
    invalid JSON answer. *)
Theorem blank_answer_is_rejected response :
  strip response = [] ->
  generate_questions (Ok response)
  = Raise (Exception (lit "Invalid JSON response from LLM: "
                      ++ exn_str JSONDecodeError)).
Proof.
  intros H. unfold generate_questions, parse_response, bounded, clean.
  rewrite H. vm_compute. reflexivity.
Qed.

End AnswerFacts.

Module CorsFacts.
Import Cors ChunkerMore.

Lemma split_cons sep s : exists h t, split sep s = h :: t.
Proof.
  induction s as [|c r (h & t & IH)]; simpl; [eauto |].
  destruct (c =? sep)%N; [eauto |]. rewrite IH. eauto.
Qed.

Lemma length_split sep s :
  length (split sep s)
  = S (length (List.filter (fun c => (c =? sep)%N) s)).
Proof.
  induction s as [|c r IH]; simpl; [reflexivity |].
  destruct (c =? sep)%N; simpl; [rewrite IH; reflexivity |].
  destruct (split_cons sep r) as (h & t & E). rewrite E in IH |- *.
  exact IH.
Qed.

Lemma split_no_sep sep s : Forall (fun o => ~ In sep o) (split sep s).
Proof.
  induction s as [|c r IH]; simpl.
  - constructor; [intros [] | constructor].
  - destruct (N.eqb_spec c sep) as [-> | Hne].
    + constructor; [intros [] | exact IH].
    + destruct (split_cons sep r) as (h & t & E). rewrite E in IH |- *.
      inversion IH as [|? ? Hh Ht]; subst.
      constructor; [| exact Ht].
      intros [Hc | Hin]; [congruence | exact (Hh Hin)].
Qed.

Lemma not_in_piece (c : N) a s : piece_of a s -> ~ In c s -> ~ In c a.
Proof.
  intros (x & y & ->) H Hin. apply H.
  apply in_or_app. right. apply in_or_app. left. exact Hin.
Qed.

(** X20:
    The list of origins has one entry for each comma of the setting and
    one more, so it is never empty; no entry holds a comma or has white
    space at either end.  An empty piece is kept, as an empty origin. *)
Theorem cors_origins_list_shape s :
  length (cors_origins_list s)
  = S (length (List.filter (fun c => (c =? COMMA)%N) s))
  /\ Forall (fun o => strip o = o /\ ~ In COMMA o) (cors_origins_list s).
Proof.
  unfold cors_origins_list. split.
  - rewrite length_map. apply length_split.
  - rewrite Forall_map. eapply Forall_impl; [apply split_no_sep |].
    intros o Ho. cbv beta. split; [apply strip_idem |].
    eapply not_in_piece; [apply strip_piece | exact Ho].
Qed.

Example default_cors_origins :
  cors_origins_list cors_origins
  = [lit "http://localhost:3000"; lit "http://localhost:3001"]
  /\ cors_origins_list [] = [[]].
Proof. vm_compute. auto. Qed.

End CorsFacts.

Section UploadFacts.
Import Upload.

Variable X : collaborators.

(** X21:
    An upload whose name does not end in [.pdf], or whose content cannot
    be read, is refused by the route with an HTTP error, 400 or 500, and
    leaves no file and no job behind. *)
Theorem refused_upload_writes_nothing defaults uuid name contents w :
  endswith (lit ".pdf") name = false \/ (exists e, contents = Raise e) ->
  exists code detail,
    upload_pdf X defaults uuid name contents w
    = Some (Raise (HTTPException code detail), w)
    /\ (code = 400 \/ code = 500).
Proof.
  intros H. unfold upload_pdf, try_except, save_upload.
  destruct (endswith (lit ".pdf") name) eqn:E.
  - destruct H as [H | (e & ->)]; [discriminate |].
    cbn [negb]. unfold bind, try_except, lift, raise.
    do 2 eexists. split; [reflexivity | auto].
  - cbn [negb]. unfold raise, ONLY_PDF.
    do 2 eexists. split; [reflexivity | auto].
Qed.

(** X22:
    An upload under a fresh id stores the content and a job in status
    UPLOADED that points to it, and touches no other job; the extraction
    of that job then finds the file, and returns and stores whatever
    non-blank text the converter makes of the uploaded content, when that
    text can be encoded; a later read gives it back with its line ends as
    a read in text mode gives them. *)
Theorem uploaded_pdf_is_extracted defaults uuid name pdf w :
  uploads w !! uuid = None ->
  endswith (lit ".pdf") name = true ->
  exists w1 m1,
    upload_pdf X defaults uuid name (Ok pdf) w
    = Some (Ok (mkUploadResponse uuid name UPLOADED
                  (lit "File uploaded successfully") (utcnow X (ticks w))),
            w1)
    /\ uploads w1 !! uuid = Some m1
    /\ status m1 = UPLOADED /\ filename m1 = name
    /\ files w1 !! file_path m1 = Some pdf
    /\ (forall other, other <> uuid ->
                      uploads w1 !! other = uploads w !! other)
    /\ forall text,
         to_markdown X (file_path m1) pdf = Ok text -> strip text <> [] ->
         encodable text = true ->
         exists w2,
           extract_text_from_pdf X uuid w1 = Some (Ok text, w2)
           /\ get_extracted_text uuid w2
              = Some (Ok (Some (universal_newlines text)), w2).
Proof.
  intros Hfresh Hpdf.
  unfold upload_pdf, try_except, save_upload. rewrite Hpdf. cbn [negb].
  unfold bind, try_except, lift, write_file, read_clock, insert_one.
  cbn [uploads files ticks calls trace]. rewrite Hfresh.
  unfold ret, put_upload. cbn [uploads files ticks calls trace].
  do 2 eexists. split; [reflexivity |].
  cbn [uploads files]. rewrite lookup_insert_eq.
  split; [reflexivity |]. split; [reflexivity |]. split; [reflexivity |].
  cbn [file_path]. split; [apply lookup_insert_eq |].
  split; [intros other Ho; apply lookup_insert_ne; congruence |].
  intros text Hmd Hne Henc.
  eexists. split.
  - erewrite extract_text_from_pdf_run;
      [| cbn [uploads]; apply lookup_insert_eq].
    unfold extraction_outcome. cbn [files file_path].
    rewrite lookup_insert_eq, Hmd.
    destruct (strip text); [congruence |]. rewrite Henc. reflexivity.
  - apply get_extracted_text_extracted.
Qed.

End UploadFacts.

(** ** Concrete runs of the further properties *)

Lemma chunks_are_stripped_pieces_witness :
  Forall (good_chunk Cases.sentences) Cases.sentence_chunks.
Proof.
  apply (ChunkerMore.chunks_are_stripped_pieces 30 Cases.sentences
           (Some 8) (Some 0) Cases.sentence_chunks).
  - vm_compute. reflexivity.
  - vm_compute. reflexivity.
Defined.

Lemma chunks_fit_the_window_witness :
  Forall (fun c => len c <= 8) Cases.sentence_chunks.
Proof.
  apply (ChunkerMore.chunks_fit_the_window 30 Cases.sentences
           (Some 8) (Some 0) Cases.sentence_chunks).
  - vm_compute. split; [discriminate | reflexivity].
  - vm_compute. reflexivity.
Defined.

(** The text on which the loop stalls with an overlap of two characters is
    cut into three chunks without overlap. *)
Lemma chunk_text_returns_without_overlap_witness :
  exists cs, Chunker.chunk_text 9 Sample.stuck_text (Some 4) (Some 0) = Some cs.
Proof.
  apply (ChunkerMore.chunk_text_returns_without_overlap Sample.stuck_text
           (Some 4) 9).
  - reflexivity.
  - vm_compute. discriminate.
Defined.

Lemma chunk_text_returns_without_breaks_witness :
  exists cs, Chunker.chunk_text 12 Cases.letters (Some 5) (Some 2) = Some cs.
Proof.
  apply (ChunkerMore.chunk_text_returns_without_breaks Cases.letters
           (Some 5) (Some 2) 12).
  - split; vm_compute; reflexivity.
  - vm_compute. split; [discriminate | reflexivity].
  - vm_compute. discriminate.
Defined.

(** A bare JSON array is parsed and returned. *)
Lemma answer_without_brace_is_parsed_whole_witness :
  LLMService.bounded (lit " [1, 2] ") = LLMService.clean (lit " [1, 2] ")
  /\ LLMService.generate_questions (Ok (lit " [1, 2] "))
     = match json_loads (LLMService.clean (lit " [1, 2] ")) with
       | Ok questions_data => Ok questions_data
       | Raise e =>
           Raise (Exception
                    (lit "Invalid JSON response from LLM: " ++ exn_str e))
       end.
Proof.
  apply (AnswerFacts.answer_without_brace_is_parsed_whole (lit " [1, 2] ")).
  vm_compute. repeat (constructor; [discriminate |]). constructor.
Defined.

Example bare_array_is_returned :
  LLMService.generate_questions (Ok (lit " [1, 2] "))
  = Ok (PList [PInt 1; PInt 2]).
Proof. vm_compute. reflexivity. Qed.

Lemma blank_answer_is_rejected_witness :
  LLMService.generate_questions (Ok [32; 10; 32]%N)
  = Raise (Exception (lit "Invalid JSON response from LLM: "
                      ++ exn_str JSONDecodeError)).
Proof.
  apply (AnswerFacts.blank_answer_is_rejected [32; 10; 32]%N).
  vm_compute. reflexivity.
Defined.

Lemma unknown_job_is_refused_witness :
  extract_text_from_pdf Runs.good Cases.other Runs.w_ready
  = Some (Raise (not_found Cases.other), Runs.w_ready)
  /\ generate_questions_from_file Runs.good 1 Cases.other Runs.w_ready
     = Some (Raise (not_found Cases.other), Runs.w_ready)
  /\ route_generate_questions Runs.good 1 Cases.other Runs.w_ready
     = Some (Raise (not_found Cases.other), Runs.w_ready)
  /\ route_get_generated_questions Runs.good Cases.other Runs.w_ready
     = Some (Raise (not_found Cases.other), Runs.w_ready)
  /\ _run_pipeline_task Runs.good 1 Cases.other Runs.w_ready
     = Some (Raise (not_found Cases.other), Runs.w_ready).
Proof.
  apply (unknown_job_is_refused Runs.good Cases.other 1 Runs.w_ready).
  vm_compute. reflexivity.
Defined.

(** A text with the line ends of DOS is returned as it is and read back
    with the line ends of Unix. *)
Lemma extracted_text_is_read_back_witness :
  extract_text_from_pdf Cases.dos Sample.fid Runs.w_uploaded
  = Some (Ok Cases.dos_text,
          extracted_world Sample.fid Runs.uploaded_job Cases.dos_text
            Runs.w_uploaded)
  /\ get_extracted_text Sample.fid
       (extracted_world Sample.fid Runs.uploaded_job Cases.dos_text
          Runs.w_uploaded)
     = Some (Ok (Some (universal_newlines Cases.dos_text)),
             extracted_world Sample.fid Runs.uploaded_job Cases.dos_text
               Runs.w_uploaded)
  /\ (contains_char 13 Cases.dos_text = false ->
      universal_newlines Cases.dos_text = Cases.dos_text)
  /\ strip Cases.dos_text <> [].
Proof.
  apply (extracted_text_is_read_back Cases.dos Sample.fid Runs.w_uploaded
           Runs.uploaded_job Cases.dos_text).
  - vm_compute. reflexivity.
  - vm_compute. reflexivity.
  - vm_compute. reflexivity.
Defined.

Example dos_text_is_read_back_changed :
  universal_newlines Cases.dos_text = Cases.unix_text
  /\ Cases.unix_text <> Cases.dos_text.
Proof. split; [vm_compute; reflexivity | vm_compute; discriminate]. Qed.

Lemma failed_extraction_is_recorded_witness :
  extract_text_from_pdf Runs.good Sample.fid Cases.w_lost
  = Some (Raise (pdf_not_found (lit "./uploads/job-1.pdf")),
          failed_world Sample.fid Runs.uploaded_job
            [EvStatus Sample.fid EXTRACTING None;
             EvStatus Sample.fid FAILED
               (Some (EXTRACTION_FAILED
                        (pdf_not_found (lit "./uploads/job-1.pdf"))))]
            (EXTRACTION_FAILED (pdf_not_found (lit "./uploads/job-1.pdf")))
            Cases.w_lost).
Proof.
  apply (failed_extraction_is_recorded Runs.good Sample.fid Cases.w_lost
           Runs.uploaded_job (pdf_not_found (lit "./uploads/job-1.pdf"))).
  - vm_compute. reflexivity.
  - vm_compute. reflexivity.
Defined.


Lemma a_run_is_confined_to_its_job_witness :
  confined Sample.fid Runs.w_uploaded
    (Runs.world_after
       (_run_pipeline_task Runs.good 1 Sample.fid Runs.w_uploaded)
       Runs.w_uploaded).
Proof.
  apply (a_run_is_confined_to_its_job Runs.good Sample.fid 1 Runs.w_uploaded).
  do 4 right. eexists. vm_compute. reflexivity.
Defined.


(** With a provider that is down, the job ends FAILED with the bare
    message, not the one the generation wrote. *)
Lemma pipeline_failure_message_witness :
  exists e prefix,
    In prefix service_prefixes
    /\ error <$> uploads
         (Runs.world_after
            (_run_pipeline_task Runs.down 1 Sample.fid Runs.w_uploaded)
            Runs.w_uploaded) !! Sample.fid
       = Some (Some (match exn_str e with
                     | [] => prefix
                     | _ => exn_str e
                     end))
    /\ exists evs,
         trace (Runs.world_after
                  (_run_pipeline_task Runs.down 1 Sample.fid Runs.w_uploaded)
                  Runs.w_uploaded)
         = evs ++ [EvStatus Sample.fid FAILED (Some (prefix ++ exn_str e));
                   EvStatus Sample.fid FAILED (Some (exn_str e))].
Proof.
  apply (pipeline_failure_message Runs.down Sample.fid 1 Runs.w_uploaded
           (Ok tt)).
  - vm_compute. eexists. reflexivity.
  - vm_compute. reflexivity.
  - vm_compute. reflexivity.
Defined.

Example pipeline_error_is_bare :
  error <$> uploads
    (Runs.world_after
       (_run_pipeline_task Runs.down 1 Sample.fid Runs.w_uploaded)
       Runs.w_uploaded) !! Sample.fid
  = Some (Some (lit "No questions were generated from the text")).
Proof. vm_compute. reflexivity. Qed.

Lemma provider_is_called_once_per_chunk_witness :
  exists chunks evs,
    Chunker.chunk_text 1 (lit "Some text.") None None = Some chunks
    /\ trace (Runs.world_after
                (generate_questions_from_file Runs.good 1 Sample.fid
                   (Sample.w EXTRACTED None))
                (Sample.w EXTRACTED None))
       = trace (Sample.w EXTRACTED None) ++ evs
    /\ gateways evs = chunks
    /\ calls (Runs.world_after
                (generate_questions_from_file Runs.good 1 Sample.fid
                   (Sample.w EXTRACTED None))
                (Sample.w EXTRACTED None))
       = (calls (Sample.w EXTRACTED None) + length chunks)%nat
    /\ Forall (fun c => c <> [] /\ len c <= settings.max_chunk_size) chunks.
Proof.
  refine (provider_is_called_once_per_chunk Runs.good Sample.fid 1
            (Sample.w EXTRACTED None) (Sample.job EXTRACTED None)
            Sample.text_path (lit "Some text.") _ _ _ _ _ _ _ _).
  - vm_compute. reflexivity.
  - reflexivity.
  - discriminate.
  - vm_compute. reflexivity.
  - discriminate.
  - vm_compute. reflexivity.
Defined.

Lemma drafts_are_stamped_witness :
  exists added oe,
    stamp_drafts Runs.good Sample.fid
      [PDict [(lit "file_id", PStr (lit "made-up"))]; PInt 1] []
      Runs.w_uploaded
    = Some (Ok ([] ++ added, oe), ticked (length added) Runs.w_uploaded)
    /\ length added
       = length (dict_prefix
                   [PDict [(lit "file_id", PStr (lit "made-up"))]; PInt 1])
    /\ forall (i : nat) items0,
         dict_prefix [PDict [(lit "file_id", PStr (lit "made-up"))]; PInt 1]
           !! i = Some (PDict items0) ->
         exists items,
           added !! i = Some (PDict items)
           /\ dict_get (lit "file_id") items = Some (PStr Sample.fid)
           /\ dict_get (lit "created_at") items
              = Some (PDatetime (utcnow Runs.good (ticks Runs.w_uploaded + i)))
           /\ forall k, k <> lit "file_id" -> k <> lit "created_at" ->
                        dict_get k items = dict_get k items0.
Proof.
  exact (StampFacts.drafts_are_stamped Runs.good Sample.fid
           [PDict [(lit "file_id", PStr (lit "made-up"))]; PInt 1] []
           Runs.w_uploaded).
Defined.

Lemma get_route_is_read_only_witness :
  exists r,
    route_get_generated_questions Runs.good Sample.fid Runs.w_uploaded
    = Some (r, Runs.w_uploaded)
    /\ forall m, uploads Runs.w_uploaded !! Sample.fid = Some m ->
                 no_stored_set m Runs.w_uploaded ->
                 r = Raise (no_questions_found Sample.fid).
Proof.
  exact (get_route_is_read_only Runs.good Sample.fid Runs.w_uploaded).
Defined.

Lemma stored_set_is_not_generated_again_witness :
  route_generate_questions Runs.good 0 Sample.fid Runs.w_ready
  = Some (Ok (mkResponse Sample.fid [Runs.stored_draft] 1 READY),
          Runs.w_ready).
Proof.
  apply (stored_set_is_not_generated_again Runs.good Sample.fid 0
           Runs.w_ready _ Runs.w_ready).
  vm_compute. reflexivity.
Defined.

Lemma repeated_request_changes_nothing_witness :
  let w' := Runs.world_after
              (generate_questions_from_file Runs.good 1 Sample.fid
                 (Sample.w EXTRACTED None))
              (Sample.w EXTRACTED None) in
  (exists r, route_generate_questions Runs.good 1 Sample.fid w' = Some (r, w'))
  /\ (exists r,
        route_get_generated_questions Runs.good Sample.fid w' = Some (r, w')).
Proof.
  refine (repeated_request_changes_nothing Runs.good Sample.fid 1 1
            (Sample.w EXTRACTED None) _ _ _).
  vm_compute. reflexivity.
Defined.

Lemma routes_raise_only_http_witness :
  exists code detail, not_found Cases.other = HTTPException code detail.
Proof.
  apply (routes_raise_only_http Runs.good Cases.other 1 Runs.w_ready
           (not_found Cases.other) Runs.w_ready).
  left. vm_compute. reflexivity.
Defined.

Lemma refused_upload_writes_nothing_witness :
  exists code detail,
    Upload.upload_pdf Runs.good Cases.defaults Cases.other (lit "notes.txt")
      (Ok (lit "%PDF")) Runs.w_ready
    = Some (Raise (HTTPException code detail), Runs.w_ready)
    /\ (code = 400 \/ code = 500).
Proof.
  apply (refused_upload_writes_nothing Runs.good Cases.defaults Cases.other
           (lit "notes.txt") (Ok (lit "%PDF")) Runs.w_ready).
  left. vm_compute. reflexivity.
Defined.

Lemma uploaded_pdf_is_extracted_witness :
  exists w1 m1,
    Upload.upload_pdf Runs.good Cases.defaults Cases.other (lit "more.pdf")
      (Ok (lit "%PDF")) Runs.w_ready
    = Some (Ok (Upload.mkUploadResponse Cases.other (lit "more.pdf") UPLOADED
                  (lit "File uploaded successfully")
                  (utcnow Runs.good (ticks Runs.w_ready))),
            w1)
    /\ uploads w1 !! Cases.other = Some m1
    /\ status m1 = UPLOADED /\ filename m1 = lit "more.pdf"
    /\ files w1 !! file_path m1 = Some (lit "%PDF")
    /\ (forall other, other <> Cases.other ->
                      uploads w1 !! other = uploads Runs.w_ready !! other)
    /\ forall text,
         to_markdown Runs.good (file_path m1) (lit "%PDF") = Ok text ->
         strip text <> [] ->
         encodable text = true ->
         exists w2,
           extract_text_from_pdf Runs.good Cases.other w1
           = Some (Ok text, w2)
           /\ get_extracted_text Cases.other w2
              = Some (Ok (Some (universal_newlines text)), w2).
Proof.
  apply (uploaded_pdf_is_extracted Runs.good Cases.defaults Cases.other
           (lit "more.pdf") (lit "%PDF") Runs.w_ready).
  - vm_compute. reflexivity.
  - vm_compute. reflexivity.
Defined.

Lemma progress_counts_every_chunk_witness :
  exists m',
    uploads (Runs.world_after
               (generate_questions_from_file Runs.down 1 Sample.fid
                  (Sample.w EXTRACTED None))
               (Sample.w EXTRACTED None)) !! Sample.fid = Some m'
    /\ same_progress (final_progress 1 (Sample.job EXTRACTED None)) m'.
Proof.
  refine (progress_counts_every_chunk Runs.down Sample.fid 1
            (Sample.w EXTRACTED None) (Sample.job EXTRACTED None)
            Sample.text_path (lit "Some text.") [lit "Some text."] _ _
            _ _ _ _ _ _ _).
  - vm_compute. reflexivity.
  - reflexivity.
  - discriminate.
  - vm_compute. reflexivity.
  - discriminate.
  - vm_compute. reflexivity.
  - vm_compute. reflexivity.
Defined.

Lemma chunks_spell_the_text_without_overlap_witness :
  visible (concat [lit "a."; lit "bcde"; lit "fgh"])
  = visible Sample.stuck_text.
Proof.
  apply (CoverFacts.chunks_spell_the_text_without_overlap 9
           Sample.stuck_text (Some 4) [lit "a."; lit "bcde"; lit "fgh"]).
  - reflexivity.
  - vm_compute. reflexivity.
Defined.
